(** * DorkHunter: a shallow embedding of the scanner and its properties

    The development follows the JavaScript sources module by module:
    - [dorks-config.js] and [domain-config.js]: the dork templates and the
      domain configuration;
    - [dork-scanner.js]: the dork generator and the scan driver;
    - [human-interaction.js]: the challenge detector, the human handoff
      controller and the page stability waiter;
    - [utils.js]: the checkpoint store.

    JavaScript strings are modelled by [string], read as sequences of code
    units in the range 0..255.  Asynchronous code is sequentialised: the
    program is single threaded and every [await] is a point where the
    environment (operator, browser, clock, file system) may act, so the
    environment is an explicit argument of each function. *)

From Stdlib Require Import ZArith Lia Bool Ascii.
From Stdlib Require Decimal DecimalFacts DecimalPos DecimalZ DecimalString.
From stdpp Require Import base strings list gmap.

Local Open Scope Z_scope.
Local Set Warnings "-register-all".

(** ** JavaScript string helpers *)

Module JS.

(** The one-character string of code unit [n]. *)
Definition chr (n : N) : string := String (ascii_of_N n) EmptyString.

(** The double quote character. *)
Definition dq : string := chr 34.

(** [hay.includes(needle)]: substring test. *)
Fixpoint includes (needle hay : string) : bool :=
  if String.prefix needle hay then true
  else match hay with
       | EmptyString => false
       | String _ rest => includes needle rest
       end.

(** [c.toLowerCase()] on one code unit below 256: A-Z, and the Latin-1
    capitals U+00C0..U+00DE except the multiplication sign U+00D7. *)
Definition lower_char (c : ascii) : ascii :=
  let n := N_of_ascii c in
  if ((65 <=? n) && (n <=? 90))%N then ascii_of_N (n + 32)
  else if ((192 <=? n) && (n <=? 222) && negb (n =? 215))%N then ascii_of_N (n + 32)
  else c.

Fixpoint toLowerCase (s : string) : string :=
  match s with
  | EmptyString => EmptyString
  | String c rest => String (lower_char c) (toLowerCase rest)
  end.

(** [[...new Set(arr)]]: a JavaScript [Set] keeps the first occurrence of
    each element, in insertion order. *)
Definition set_add (seen : list string) (x : string) : list string :=
  if bool_decide (x ∈ seen) then seen else seen ++ [x].

Definition array_from_set (arr : list string) : list string :=
  fold_left set_add arr [].

(** [arr.includes(x)] on an array of strings. *)
Definition array_includes (arr : list string) (x : string) : bool :=
  bool_decide (x ∈ arr).

End JS.

Import JS.

(** ** [dorks-config.js]: the templates *)

Definition generateGenericDorks (domain : string) : list string :=
  [ "site:" +:+ domain +:+ " filetype:env OR filetype:yml password";
    "site:" +:+ domain +:+ " filetype:xml password";
    "site:" +:+ domain +:+ " filetype:log username password";
    "site:" +:+ domain +:+ " filetype:ini password OR key OR secret";
    "site:" +:+ domain +:+ " filetype:config password";
    "site:" +:+ domain +:+ " intext:" +:+ dq +:+ "API_KEY" +:+ dq +:+ " OR intext:" +:+ dq +:+ "apikey" +:+ dq +:+ " OR intext:" +:+ dq +:+ "api_key" +:+ dq;
    "site:" +:+ domain +:+ " intext:" +:+ dq +:+ "SECRET_KEY" +:+ dq +:+ " OR intext:" +:+ dq +:+ "client_secret" +:+ dq;
    "site:" +:+ domain +:+ " " +:+ dq +:+ "authorization: Bearer" +:+ dq;
    "site:" +:+ domain +:+ " " +:+ dq +:+ "access_token" +:+ dq;
    "site:" +:+ domain +:+ " intext:" +:+ dq +:+ "aws_access_key_id" +:+ dq +:+ " filetype:txt OR filetype:log";
    "site:" +:+ domain +:+ " intext:" +:+ dq +:+ "jdbc:mysql:" +:+ dq +:+ " -github";
    "site:" +:+ domain +:+ " " +:+ dq +:+ "password" +:+ dq +:+ " filetype:txt OR filetype:sql OR filetype:ini";
    "site:" +:+ domain +:+ " intitle:" +:+ dq +:+ "Index of" +:+ dq +:+ " " +:+ dq +:+ "parent directory" +:+ dq;
    "site:" +:+ domain +:+ " intitle:" +:+ dq +:+ "Index of" +:+ dq +:+ " wp-admin";
    "site:" +:+ domain +:+ " inurl:" +:+ dq +:+ "/wp-content/uploads/" +:+ dq;
    "site:" +:+ domain +:+ " intitle:" +:+ dq +:+ "Index of" +:+ dq +:+ " inurl:backup OR inurl:old OR inurl:bkp";
    "site:" +:+ domain +:+ " filetype:bak OR filetype:backup OR filetype:sql";
    "site:" +:+ domain +:+ " filetype:sql " +:+ dq +:+ "INSERT INTO" +:+ dq +:+ " -" +:+ dq +:+ "SQL dump" +:+ dq;
    "site:" +:+ domain +:+ " filetype:sql intext:password";
    "site:" +:+ domain +:+ " filetype:log";
    "site:" +:+ domain +:+ " intext:" +:+ dq +:+ "<!ENTITY % xx SYSTEM xx;" +:+ dq;
    "site:" +:+ domain +:+ " intext:" +:+ dq +:+ "syntax error" +:+ dq +:+ " filetype:sql";
    "site:" +:+ domain +:+ " filetype:json " +:+ dq +:+ "api" +:+ dq +:+ " OR " +:+ dq +:+ "key" +:+ dq +:+ " OR " +:+ dq +:+ "token" +:+ dq;
    "site:" +:+ domain +:+ " filetype:conf " +:+ dq +:+ "location ~" +:+ dq;
    "site:" +:+ domain +:+ " intitle:" +:+ dq +:+ "Apache HTTP Server" +:+ dq +:+ " intitle:" +:+ dq +:+ "documentation" +:+ dq;
    "site:" +:+ domain +:+ " intext:" +:+ dq +:+ "Apache Tomcat/" +:+ dq +:+ " " +:+ dq +:+ "error report" +:+ dq;
    "site:" +:+ domain +:+ " intext:" +:+ dq +:+ "nginx error log" +:+ dq;
    "site:" +:+ domain +:+ " intitle:" +:+ dq +:+ "Welcome to nginx!" +:+ dq +:+ " intext:" +:+ dq +:+ "Welcome to nginx" +:+ dq;
    "site:" +:+ domain +:+ " intitle:" +:+ dq +:+ "403 Forbidden" +:+ dq +:+ " intext:" +:+ dq +:+ "nginx" +:+ dq;
    "site:" +:+ domain +:+ " inurl:login OR inurl:admin OR inurl:backend";
    "site:" +:+ domain +:+ " inurl:" +:+ dq +:+ "/phpinfo.php" +:+ dq +:+ " OR inurl:" +:+ dq +:+ ".php?mode=phpinfo" +:+ dq;
    "site:" +:+ domain +:+ " inurl:" +:+ dq +:+ "/phpmyadmin/" +:+ dq +:+ " OR inurl:" +:+ dq +:+ "/adminer.php" +:+ dq;
    "site:" +:+ domain +:+ " inurl:" +:+ dq +:+ "/wp-login.php" +:+ dq +:+ " OR inurl:" +:+ dq +:+ "/administrator/" +:+ dq;
    "site:" +:+ domain +:+ " inurl:" +:+ dq +:+ "/server-status" +:+ dq +:+ " OR inurl:" +:+ dq +:+ "/server-info" +:+ dq;
    "site:" +:+ domain +:+ " inurl:" +:+ dq +:+ "/wp-json/wp/v2/users" +:+ dq;
    "site:" +:+ domain +:+ " inurl:" +:+ dq +:+ "/api/swagger" +:+ dq +:+ " OR inurl:" +:+ dq +:+ "/swagger-ui.html" +:+ dq;
    "site:" +:+ domain +:+ " inurl:" +:+ dq +:+ "/api/v1" +:+ dq +:+ " OR inurl:" +:+ dq +:+ "/api/v2" +:+ dq;
    "site:" +:+ domain +:+ " inurl:" +:+ dq +:+ "/.git" +:+ dq +:+ " " +:+ dq +:+ "Index of /.git" +:+ dq;
    "site:" +:+ domain +:+ " inurl:" +:+ dq +:+ "/actuator/health" +:+ dq +:+ " OR inurl:" +:+ dq +:+ "/actuator/env" +:+ dq;
    "site:" +:+ domain +:+ " inurl:" +:+ dq +:+ "/.env" +:+ dq +:+ " OR inurl:" +:+ dq +:+ "/config.js" +:+ dq;
    "site:" +:+ domain +:+ " inurl:" +:+ dq +:+ "/.well-known/" +:+ dq;
    "site:" +:+ domain +:+ " " +:+ dq +:+ "error occured at line" +:+ dq +:+ " OR " +:+ dq +:+ "syntax error" +:+ dq;
    "site:" +:+ domain +:+ " " +:+ dq +:+ "Warning:" +:+ dq +:+ " " +:+ dq +:+ "database" +:+ dq +:+ " " +:+ dq +:+ "on line" +:+ dq;
    "site:" +:+ domain +:+ " " +:+ dq +:+ "ERROR: The requested URL could not be retrieved" +:+ dq;
    "site:github.com " +:+ domain;
    "site:gitlab.com " +:+ domain;
    "site:bitbucket.org " +:+ domain;
    "site:pastebin.com " +:+ domain;
    "site:jsfiddle.net " +:+ domain;
    "site:codepen.io " +:+ domain;
    "site:trello.com " +:+ domain;
    "site:*." +:+ domain +:+ " inurl:test OR inurl:dev OR inurl:stage OR inurl:beta";
    "site:*." +:+ domain +:+ " inurl:uat OR inurl:qa OR inurl:staging";
    "site:test." +:+ domain +:+ " OR site:dev." +:+ domain +:+ " OR site:stage." +:+ domain +:+ " OR site:stg." +:+ domain;
    "site:*." +:+ domain +:+ " -www intext:admin OR intext:login";
    "site:s3.amazonaws.com " +:+ domain;
    "site:blob.core.windows.net " +:+ domain;
    "site:storage.googleapis.com " +:+ domain;
    "site:cloudfront.net " +:+ domain;
    "site:digitaloceanspaces.com " +:+ domain;
    "site:" +:+ domain +:+ " inurl:" +:+ dq +:+ "server-status" +:+ dq +:+ " OR inurl:" +:+ dq +:+ "status.php" +:+ dq;
    "site:" +:+ domain +:+ " intext:" +:+ dq +:+ "Fatal error: Call to undefined function" +:+ dq;
    "site:" +:+ domain +:+ " inurl:" +:+ dq +:+ "?page=" +:+ dq +:+ " OR inurl:" +:+ dq +:+ "?file=" +:+ dq +:+ " OR inurl:" +:+ dq +:+ "?id=" +:+ dq;
    "site:" +:+ domain +:+ " inurl:" +:+ dq +:+ "?php=" +:+ dq +:+ " OR inurl:" +:+ dq +:+ "?lang=" +:+ dq;
    "site:" +:+ domain +:+ " ext:json OR ext:xml OR ext:conf OR ext:cnf OR ext:reg OR ext:inf OR ext:rdp OR ext:cfg OR ext:txt OR ext:ora OR ext:ini" ].

Definition generateAEMDorks (domain : string) : list string :=
  [ "site:" +:+ domain +:+ " inurl:crx";
    "site:" +:+ domain +:+ " inurl:bin/querybuilder.json";
    "site:" +:+ domain +:+ " inurl:.infinity.json";
    "site:" +:+ domain +:+ " inurl:.1.json";
    "site:" +:+ domain +:+ " inurl:.tidy.json";
    "site:" +:+ domain +:+ " inurl:.model.json";
    "site:" +:+ domain +:+ " inurl:/libs/granite/security/currentuser.json";
    "site:" +:+ domain +:+ " inurl:/system/console";
    "site:" +:+ domain +:+ " inurl:/crx/de/index.jsp";
    "site:" +:+ domain +:+ " inurl:/crx/explorer";
    "site:" +:+ domain +:+ " inurl:/etc/replication";
    "site:" +:+ domain +:+ " inurl:/etc/dam";
    "site:" +:+ domain +:+ " inurl:/system/sling/cqform";
    "site:" +:+ domain +:+ " inurl:/apps/";
    "site:" +:+ domain +:+ " inurl:/content/dam";
    "site:" +:+ domain +:+ " inurl:felix/bundles";
    "site:" +:+ domain +:+ " inurl:etc/clientlibs";
    "site:" +:+ domain +:+ " inurl:system/console/configMgr";
    "site:" +:+ domain +:+ " inurl:.servlet.json";
    "site:" +:+ domain +:+ " inurl:.servlet.html" ].

Definition generateCMSDorks (domain : string) : list string :=
  [ "site:" +:+ domain +:+ " inurl:wp-content";
    "site:" +:+ domain +:+ " inurl:wp-includes";
    "site:" +:+ domain +:+ " inurl:wp-admin";
    "site:" +:+ domain +:+ " inurl:wp-config.php";
    "site:" +:+ domain +:+ " inurl:wp-json/wp/v2/users";
    "site:" +:+ domain +:+ " inurl:xmlrpc.php";
    "site:" +:+ domain +:+ " inurl:index.php?option=com_";
    "site:" +:+ domain +:+ " inurl:/administrator/index.php";
    "site:" +:+ domain +:+ " intext:" +:+ dq +:+ "Joomla! Debug Console" +:+ dq;
    "site:" +:+ domain +:+ " inurl:com_users";
    "site:" +:+ domain +:+ " inurl:/?q=user/";
    "site:" +:+ domain +:+ " inurl:/?q=admin/";
    "site:" +:+ domain +:+ " intext:" +:+ dq +:+ "Powered by Drupal" +:+ dq +:+ " inurl:user";
    "site:" +:+ domain +:+ " inurl:/sites/default/files/";
    "site:" +:+ domain +:+ " inurl:/app/etc/local.xml";
    "site:" +:+ domain +:+ " inurl:/downloader/";
    "site:" +:+ domain +:+ " intext:" +:+ dq +:+ "Mage.Cookies.path" +:+ dq;
    "site:" +:+ domain +:+ " inurl:/admin_SOMETHING";
    "site:" +:+ domain +:+ " inurl:" +:+ dq +:+ "/administrator/" +:+ dq;
    "site:" +:+ domain +:+ " inurl:" +:+ dq +:+ "/admin/" +:+ dq +:+ " OR inurl:" +:+ dq +:+ "/cp/" +:+ dq +:+ " OR inurl:" +:+ dq +:+ "/backend/" +:+ dq ].

Definition generateEcommerceDorks (domain : string) : list string :=
  [ "site:" +:+ domain +:+ " inurl:/checkout/ OR inurl:/cart/ OR inurl:/basket/";
    "site:" +:+ domain +:+ " inurl:/order OR inurl:/payment OR inurl:/transaction";
    "site:" +:+ domain +:+ " intext:" +:+ dq +:+ "credit card" +:+ dq +:+ " OR intext:" +:+ dq +:+ "card number" +:+ dq;
    "site:" +:+ domain +:+ " inurl:checkout.php OR inurl:checkout.asp OR inurl:checkout.jsp";
    "site:" +:+ domain +:+ " intext:" +:+ dq +:+ "cvv" +:+ dq +:+ " OR intext:" +:+ dq +:+ "cvc" +:+ dq +:+ " inurl:payment";
    "site:" +:+ domain +:+ " intext:" +:+ dq +:+ "payment gateway" +:+ dq +:+ " OR intext:" +:+ dq +:+ "gateway id" +:+ dq;
    "site:" +:+ domain +:+ " intext:" +:+ dq +:+ "CHECKOUT_SESSION_ID" +:+ dq;
    "site:" +:+ domain +:+ " filetype:log intext:payment" ].

(** ** [domain-config.js] *)

Record domain_settings := {
  includeSubdomains : bool;
  includeVariations : bool;
  limitPaths : bool;
  paths : list string
}.

Record domain_config := {
  TARGET_DOMAIN : string;
  ALTERNATIVE_DOMAINS : list string;
  DOMAIN_SETTINGS : domain_settings
}.

(** The configuration shipped with the repository. *)
Definition shipped_config : domain_config :=
  {| TARGET_DOMAIN := "tesla.com";
     ALTERNATIVE_DOMAINS := ["adm.tesla.com"; "web.tesla.com"];
     DOMAIN_SETTINGS :=
       {| includeSubdomains := true;
          includeVariations := true;
          limitPaths := false;
          paths := ["/wp-content"; "/admin"; "/api"] |} |}.

(** ** [dork-scanner.js]: [generateDorksList] *)

(** The [switch (type)] of [generateDorksList]: the categories are the
    numbers 1 to 4, any other number selects nothing. *)
Definition dorks_of_type (type : Z) (domain : string) : list string :=
  match type with
  | 1 => generateGenericDorks domain
  | 2 => generateAEMDorks domain
  | 3 => generateCMSDorks domain
  | 4 => generateEcommerceDorks domain
  | _ => []
  end.

(** The three probes pushed for one alternate domain. *)
Definition alt_domain_dorks (altDomain : string) : list string :=
  [ "site:" +:+ altDomain;
    "site:" +:+ altDomain +:+ " inurl:admin";
    "site:" +:+ altDomain +:+ " filetype:log" ].

(** The dork pushed for one configured path. *)
Definition path_dork (domain path : string) : string :=
  "site:" +:+ domain +:+ " inurl:" +:+ path.

Definition generateDorksList (cfg : domain_config) (types : list Z)
    (domain : string) : list string :=
  let dorks := fold_left (fun dorks type => dorks ++ dorks_of_type type domain) types [] in
  let dorks :=
    if includeVariations (DOMAIN_SETTINGS cfg)
       && bool_decide (0 < length (ALTERNATIVE_DOMAINS cfg))%nat
    then dorks ++ flat_map alt_domain_dorks (ALTERNATIVE_DOMAINS cfg)
    else dorks in
  let dorks :=
    if limitPaths (DOMAIN_SETTINGS cfg)
       && bool_decide (0 < length (paths (DOMAIN_SETTINGS cfg)))%nat
    then dorks ++ map (path_dork domain) (paths (DOMAIN_SETTINGS cfg))
    else dorks in
  array_from_set dorks.

(** A JavaScript call either returns a value or throws. *)
Inductive completion (A : Type) : Type :=
| Return (v : A)
| Throw (msg : string).
Arguments Return {A} v.
Arguments Throw {A} msg.

(** [generateDorksList] as a call: its body has no [throw] and calls nothing
    that throws on strings and numbers, so it always completes normally. *)
Definition generateDorksList_call (cfg : domain_config) (types : list Z)
    (domain : string) : completion (list string) :=
  Return (generateDorksList cfg types domain).

(** Modelled from the spec: the validity check on domain strings that
    section 4.1 attributes to the generator (the sources contain none).  The
    spec names two ways of being invalid, the empty string and the malformed
    one; only emptiness is given a meaning there, and it is the one used
    below. *)
Definition domain_invalid (domain : string) : Prop := domain = EmptyString.

(** *** Shapes of generated dorks *)

(** An element is an alternate-domain probe when it is one of the three
    fixed strings built from a configured alternate domain. *)
Definition is_alt_probe (cfg : domain_config) (e : string) : Prop :=
  ∃ alt, alt ∈ ALTERNATIVE_DOMAINS cfg ∧
    (e = "site:" +:+ alt ∨ e = "site:" +:+ alt +:+ " inurl:admin"
     ∨ e = "site:" +:+ alt +:+ " filetype:log").

(** An element is path derived when it is [site:D inurl:path] for a
    configured path. *)
Definition is_path_dork (cfg : domain_config) (d e : string) : Prop :=
  ∃ p, p ∈ paths (DOMAIN_SETTINGS cfg) ∧ e = "site:" +:+ d +:+ " inurl:" +:+ p.

(** ** [human-interaction.js]: the challenge detector *)

(** What a script run by [page.evaluate] can observe: the document, with
    [document.body] ([None] when it is null) and, for a selector, the number
    of elements matching it; the property [window.__lastChange] ([None] when
    undefined); the clock of the page. *)
Record body_element := {
  innerText : string;
  innerHTML : string
}.

Record document := {
  body : option body_element;
  querySelectorAll : string → nat
}.

Record window := {
  the_document : document;
  lastChange_mark : option Z;
  date_now : Z
}.

(** [document.querySelector(sel)] is truthy when some element matches. *)
Definition querySelector (d : document) (sel : string) : bool :=
  bool_decide (0 < querySelectorAll d sel)%nat.

(** The state of a page at one instant.  [evaluate_error] is [Some msg] when
    a [page.evaluate] issued at that instant rejects (execution context
    destroyed, target crashed, ...). *)
Record page_state := {
  isClosed : bool;
  evaluate_error : option string;
  win : window
}.

(** [await page.evaluate(f)]. *)
Definition evaluate {A} (p : page_state) (f : window → A) : completion A :=
  match evaluate_error p with
  | Some msg => Throw msg
  | None => Return (f (win p))
  end.

Record detection := {
  detected : bool;
  reason : option string
}.

Definition blockKeywords : list string :=
  [ "captcha"; "robot"; "automated"; "bot check"; "suspicious activity";
    "unusual traffic"; "security check"; "human verification";
    "verify you are human"; "are you a robot"; "challenge"; "blocked";
    "access denied"; "denied access"; "too many requests";
    "rate limit exceeded"; "please wait"; "suspicious"; "behavior detected";
    "verifica" ].

Definition captchaSelectors : list string :=
  [ "iframe[src*=" +:+ dq +:+ "recaptcha" +:+ dq +:+ "]";
    "iframe[src*=" +:+ dq +:+ "captcha" +:+ dq +:+ "]";
    "iframe[src*=" +:+ dq +:+ "hcaptcha" +:+ dq +:+ "]";
    "iframe[src*=" +:+ dq +:+ "funcaptcha" +:+ dq +:+ "]";
    "iframe[src*=" +:+ dq +:+ "arkoselabs" +:+ dq +:+ "]";
    "div.g-recaptcha";
    "div.h-captcha";
    "div#captcha";
    "div.captcha";
    "input[name*=" +:+ dq +:+ "captcha" +:+ dq +:+ "]";
    "img[alt*=" +:+ dq +:+ "captcha" +:+ dq +:+ "]";
    "form[action*=" +:+ dq +:+ "captcha" +:+ dq +:+ "]" ].

Definition gridSelector : string := "table td img, div.rc-imageselect-tile".

(** The function passed to [page.evaluate] by [detectCaptchaOrBlock]. *)
Definition detect_script (w : window) : detection :=
  let d := the_document w in
  let bodyText :=
    match body d with
    | Some b => toLowerCase (innerText b)
    | None => EmptyString
    end in
  match body d with
  | None =>
      {| detected := false;
         reason := Some ("Body n" +:+ chr 227 +:+ "o dispon" +:+ chr 237 +:+ "vel") |}
  | Some _ =>
      match find (λ keyword, includes keyword bodyText) blockKeywords with
      | Some keyword =>
          {| detected := true;
             reason := Some ("Texto da p" +:+ chr 225 +:+ "gina cont" +:+ chr 233
                             +:+ "m " +:+ dq +:+ keyword +:+ dq) |}
      | None =>
          match find (querySelector d) captchaSelectors with
          | Some selector =>
              {| detected := true;
                 reason := Some ("Elemento captcha encontrado: "
                                 +:+ dq +:+ selector +:+ dq) |}
          | None =>
              if bool_decide (4 < querySelectorAll d gridSelector)%nat
              then {| detected := true;
                      reason := Some ("Grid de imagens encontrado (poss"
                                      +:+ chr 237 +:+ "vel reCAPTCHA)") |}
              else {| detected := false; reason := None |}
          end
      end
  end.

Definition page_unavailable (what : string) : string :=
  "P" +:+ chr 225 +:+ "gina n" +:+ chr 227 +:+ "o est" +:+ chr 225
  +:+ " dispon" +:+ chr 237 +:+ "vel para " +:+ what.

(** [detectCaptchaOrBlock(page)]; the handle is [None] when [page] is null
    or undefined. *)
Definition detectCaptchaOrBlock (page : option page_state) : completion bool :=
  match page with
  | None => Throw (page_unavailable "detectar captcha")
  | Some p =>
      if isClosed p then Throw (page_unavailable "detectar captcha")
      else
        match evaluate p detect_script with
        | Return blocked => if detected blocked then Return true else Return false
        | Throw _ => Return true
        end
  end.

(** ** The operator interface *)

(** The [readline] interface of Node.js, as far as the controller reads it:
    [rl.history] ([None] when the property is undefined) is filled only in
    terminal mode, where a submitted line that is neither empty nor blank is
    put in front unless it repeats the front entry, and the oldest entry is
    dropped when the list got longer than [historySize]. *)
Record readline := {
  terminal : bool;
  historySize : nat;
  history : option (list string)
}.

Definition is_space (c : ascii) : bool :=
  let n := N_of_ascii c in
  ((9 <=? n) && (n <=? 13) || (n =? 32) || (n =? 160))%N.

Fixpoint is_blank (s : string) : bool :=
  match s with
  | EmptyString => true
  | String c rest => is_space c && is_blank rest
  end.

(** [history.unshift(line)], then one [pop] when the list got longer than
    [historySize]. *)
Definition unshift_capped (size : nat) (line : string) (h : list string)
    : list string :=
  let h1 := line :: h in
  if bool_decide (size < length h1)%nat then removelast h1 else h1.

Definition add_history (r : readline) (line : string) : readline :=
  if bool_decide (line = EmptyString) then r
  else if bool_decide (historySize r = 0%nat) then r
  else if is_blank line then r
  else
    let h := default [] (history r) in
    if bool_decide (head h = Some line) then r
    else {| terminal := terminal r;
            historySize := historySize r;
            history := Some (unshift_capped (historySize r) line h) |}.

(** The operator submits [line] to the interface. *)
Definition submit_line (r : readline) (line : string) : readline :=
  if terminal r then add_history r line else r.

(** The clock of the host process and its [readline] interface. *)
Record world := {
  clock : Z;
  rl : readline
}.

Definition advance (w : world) (ms : Z) : world :=
  {| clock := clock w + ms; rl := rl w |}.

(** ** The human handoff controller *)

(** One turn of the operator while the controller waits: how long the
    operator takes to answer the prompt, the line submitted, the state of the
    page when the prompt resolves, and how long the following detector call
    takes. *)
Record cycle := {
  answer_after : Z;
  answer_line : string;
  page_then : page_state;
  recheck_takes : Z
}.

(** The environment of one call of [waitForCaptchaResolution]. *)
Record handoff_env := {
  page0 : option page_state;
  detect0_takes : Z;
  flash_takes : Z;
  script : list cycle
}.

(** [const lastAnswer = rl.history && rl.history[0];
     lastAnswer && lastAnswer.toLowerCase() === 'skip'] *)
Definition skip_requested (r : readline) : bool :=
  match history r with
  | Some (lastAnswer :: _) => bool_decide (toLowerCase lastAnswer = "skip")
  | _ => false
  end.

(** How one pass through the body of the [while] loop ends: by a [return],
    or by reaching the end of the body with a value for [resolved]. *)
Inductive body_end :=
| BodyReturn (b : bool)
| BodyNext (resolved : bool).

Section handoff.

(** The detector called by the controller.  The source calls
    [detectCaptchaOrBlock]; the controller is defined over the detector it
    calls, with its two [catch] clauses around the calls. *)
Variable detect : option page_state → completion bool.

Definition loop_body (w : world) (c : cycle) : body_end * world :=
  let w1 := {| clock := clock w + answer_after c;
               rl := submit_line (rl w) (answer_line c) |} in
  if skip_requested (rl w1) then (BodyReturn false, w1)
  else if isClosed (page_then c) then (BodyReturn false, w1)
  else
    let w2 := advance w1 (recheck_takes c) in
    match detect (Some (page_then c)) with
    | Return stillBlocked =>
        if negb stillBlocked then (BodyNext true, w2) else (BodyNext false, w2)
    | Throw _ => (BodyNext true, w2)
    end.

(** The [while] loop and the two [return]s after it.  The result is [None]
    when the operator never answers a prompt: the call then stays
    suspended in [waitForUserConfirmation]. *)
Fixpoint await_loop (timeoutMs startTime : Z) (resolved : bool) (w : world)
    (s : list cycle) : option bool * world :=
  if (clock w - startTime <? timeoutMs) && negb resolved then
    match s with
    | [] => (None, w)
    | c :: s' =>
        match loop_body w c with
        | (BodyReturn b, w') => (Some b, w')
        | (BodyNext resolved', w') => await_loop timeoutMs startTime resolved' w' s'
        end
    end
  else if negb resolved then (Some false, w) else (Some true, w).

(** The first check: [Some w'] when the controller hands over to the
    operator, with [w'] the world in which [startTime] is read. *)
Definition enters_handoff (env : handoff_env) (w : world) : option world :=
  match page0 env with
  | None => None
  | Some p =>
      if isClosed p then None
      else
        let needsHumanInteraction :=
          match detect (Some p) with
          | Return b => b
          | Throw _ => true
          end in
        if needsHumanInteraction
        then Some (advance (advance w (detect0_takes env)) (flash_takes env))
        else None
  end.

Definition waitForCaptchaResolution_with (timeoutMs : Z) (env : handoff_env)
    (w : world) : option bool * world :=
  match page0 env with
  | None => (Some false, w)
  | Some p =>
      if isClosed p then (Some false, w)
      else
        let needsHumanInteraction :=
          match detect (Some p) with
          | Return b => b
          | Throw _ => true
          end in
        let w1 := advance w (detect0_takes env) in
        if needsHumanInteraction then
          let w2 := advance w1 (flash_takes env) in
          let startTime := clock w2 in
          await_loop timeoutMs startTime false w2 (script env)
        else (Some true, w1)
  end.

(** The controller is still waiting after the cycles [pre]: each of them
    was entered before the timeout and ended with the challenge still
    detected.  The result is the world in which the next prompt would be
    issued. *)
Fixpoint awaiting_after (timeoutMs startTime : Z) (w : world)
    (pre : list cycle) : option world :=
  match pre with
  | [] => Some w
  | c :: pre' =>
      if clock w - startTime <? timeoutMs then
        match loop_body w c with
        | (BodyNext false, w') => awaiting_after timeoutMs startTime w' pre'
        | _ => None
        end
      else None
  end.

End handoff.

(** [waitForCaptchaResolution(page, timeoutMs)], with the detector of the
    module. *)
Definition waitForCaptchaResolution :=
  waitForCaptchaResolution_with detectCaptchaOrBlock.

(** ** [human-interaction.js]: the page stability waiter *)

(** The object returned by the polling script. *)
Record stability_stats := {
  lastChange : Z;
  domSize : Z
}.

(** [window.__lastChange || Date.now()]: zero is falsy as well. *)
Definition stats_script (w : window) : stability_stats :=
  {| lastChange :=
       match lastChange_mark w with
       | Some t => if t =? 0 then date_now w else t
       | None => date_now w
       end;
     domSize :=
       match body (the_document w) with
       | Some b => Z.of_nat (String.length (innerHTML b))
       | None => 0
       end |}.

(** The script that installs the observers returns nothing; what it changes
    in the page shows in the later states of the page. *)
Definition setup_script (stableTimeMs : Z) (w : window) : unit := tt.

(** One pass of the polling loop, as the environment decides it: the state
    of the page during the pass, the time taken by the evaluation and the
    time actually slept by the 500 ms timer. *)
Record poll := {
  poll_page : page_state;
  stats_takes : Z;
  sleep_takes : Z
}.

Record stability_env := {
  stab_page0 : option page_state;
  setup_takes : Z;
  polls : nat → poll
}.

(** How one pass through the body of the polling loop ends: by a [return]
    or a [throw], or at the end of the body with new values for the clock,
    [lastChangeTime] and [domSize]. *)
Inductive pass_end :=
| PassEnds (c : completion bool)
| PassNext (now lastChangeTime domSize : Z).

Definition stability_pass (stableTime : Z) (p : poll)
    (now lastChangeTime size : Z) : pass_end :=
  if isClosed (poll_page p) then
    PassEnds (Throw ("P" +:+ chr 225 +:+ "gina fechada durante aguardo de estabilidade"))
  else
    match evaluate (poll_page p) stats_script with
    | Throw _ => PassEnds (Return false)
    | Return stats =>
        let now1 := now + stats_takes p in
        let changed := negb (domSize stats =? size) in
        let lastChangeTime' := if changed then now1 else lastChangeTime in
        let size' := if changed then domSize stats else size in
        if stableTime <=? now1 - lastChangeTime' then PassEnds (Return true)
        else PassNext (now1 + sleep_takes p) lastChangeTime' size'
    end.

Section stability.

Variable env : stability_env.
Variables stableTime maxWaitTime : Z.

(** The [while] loop of [waitForPageStability] from its pass number [k] on,
    and the [return true] after it.  [None]: the fuel ran out. *)
Fixpoint stability_loop (fuel : nat) (startTime : Z) (k : nat)
    (now lastChangeTime size : Z) : option (completion bool) :=
  match fuel with
  | O => None
  | S fuel' =>
      if now - startTime <? maxWaitTime then
        match stability_pass stableTime (polls env k) now lastChangeTime size with
        | PassEnds c => Some c
        | PassNext now' lastChangeTime' size' =>
            stability_loop fuel' startTime (S k) now' lastChangeTime' size'
        end
      else Some (Return true)
  end.

(** [waitForPageStability(page, stableTime, maxWaitTime)] called at time
    [now]. *)
Definition waitForPageStability (fuel : nat) (now : Z)
    : option (completion bool) :=
  match stab_page0 env with
  | None => Some (Throw (page_unavailable "aguardar estabilidade"))
  | Some p =>
      if isClosed p then Some (Throw (page_unavailable "aguardar estabilidade"))
      else
        let startTime := now in
        let lastChangeTime := startTime in
        let size := 0 in
        match evaluate p (setup_script stableTime) with
        | Throw _ => Some (Return false)
        | Return _ =>
            stability_loop fuel startTime 0 (now + setup_takes env)
              lastChangeTime size
        end
  end.

(** The loop went through [n] passes from pass [k] on without leaving: each
    was entered before [maxWaitTime] and saw no stable window, no closed
    page and no evaluation error.  The result is the clock,
    [lastChangeTime] and [domSize] at the head of pass [k + n]. *)
Fixpoint polled_through (n : nat) (startTime : Z) (k : nat)
    (now lastChangeTime size : Z) : option (Z * Z * Z) :=
  match n with
  | O => Some (now, lastChangeTime, size)
  | S n' =>
      if now - startTime <? maxWaitTime then
        match stability_pass stableTime (polls env k) now lastChangeTime size with
        | PassEnds _ => None
        | PassNext now' lastChangeTime' size' =>
            polled_through n' startTime (S k) now' lastChangeTime' size'
        end
      else None
  end.

End stability.

(** ** JSON text, as [JSON.stringify(v, null, 2)] writes it and
       [JSON.parse] reads it *)

(** Numbers are the integers (an index is one), written in plain decimal
    as JavaScript writes them below 1e21; a number literal with a fraction
    or an exponent, and a [\u] escape above [\u00ff], lie outside the
    modelled values and are refused by [parse]. *)
Module JSON.

Inductive value :=
| Null
| Bool (b : bool)
| Number (z : Z)
| Str (s : string)
| Array (items : list value)
| Object (members : list (string * value)).

(** *** Writing *)

Definition hex_digit (n : N) : ascii :=
  if (n <? 10)%N then ascii_of_N (48 + n) else ascii_of_N (87 + n).

Definition backslash : ascii := ascii_of_N 92.
Definition quote_mark : ascii := ascii_of_N 34.

(** One code unit of a quoted string, followed by [k]. *)
Definition escape_char (c : ascii) (k : string) : string :=
  let n := N_of_ascii c in
  if (n =? 34)%N then String backslash (String quote_mark k)
  else if (n =? 92)%N then String backslash (String backslash k)
  else if (n =? 8)%N then String backslash (String "b" k)
  else if (n =? 12)%N then String backslash (String "f" k)
  else if (n =? 10)%N then String backslash (String "n" k)
  else if (n =? 13)%N then String backslash (String "r" k)
  else if (n =? 9)%N then String backslash (String "t" k)
  else if (n <? 32)%N then
    String backslash (String "u" (String "0" (String "0"
      (String (hex_digit (n / 16)) (String (hex_digit (n mod 16)) k)))))
  else String c k.

Fixpoint escape (s k : string) : string :=
  match s with
  | EmptyString => k
  | String c rest => escape_char c (escape rest k)
  end.

Definition write_quoted (s k : string) : string :=
  String quote_mark (escape s (String quote_mark k)).

Definition write_number (z : Z) (k : string) : string :=
  DecimalString.NilEmpty.string_of_int (Z.to_int z) +:+ k.

Definition indent (depth : nat) (k : string) : string :=
  Nat.iter (2 * depth) (String " ") k.

Definition newline (depth : nat) (k : string) : string :=
  String (ascii_of_N 10) (indent depth k).

(** An array or an object whose items are already turned into writers. *)
Definition write_seq (opening closing : ascii) (depth : nat)
    (items : list (string → string)) (k : string) : string :=
  match items with
  | [] => String opening (String closing k)
  | first :: others =>
      String opening (newline (S depth)
        (first (fold_right (λ item acc, String "," (newline (S depth) (item acc)))
                  (newline depth (String closing k)) others)))
  end.

(** [write depth v k]: the text of [v] at nesting [depth], followed by [k]. *)
Fixpoint write (depth : nat) (v : value) (k : string) : string :=
  match v with
  | Null => "null" +:+ k
  | Bool b => (if b then "true" else "false") +:+ k
  | Number z => write_number z k
  | Str s => write_quoted s k
  | Array items =>
      write_seq "[" "]" depth (map (λ x, write (S depth) x) items) k
  | Object members =>
      write_seq "{" "}" depth
        (map (λ '(key, x) k',
                write_quoted key (String ":" (String " " (write (S depth) x k'))))
             members) k
  end.

Definition stringify (v : value) : string := write 0 v EmptyString.

(** *** Reading *)

Definition is_ws (c : ascii) : bool :=
  let n := N_of_ascii c in
  ((n =? 32) || (n =? 9) || (n =? 10) || (n =? 13))%N.

Fixpoint skip_ws (s : string) : string :=
  match s with
  | EmptyString => s
  | String c rest => if is_ws c then skip_ws rest else s
  end.

Definition simple_escape (e : ascii) : option ascii :=
  let n := N_of_ascii e in
  if (n =? 34)%N then Some quote_mark
  else if (n =? 92)%N then Some backslash
  else if (n =? 47)%N then Some (ascii_of_N 47)
  else if (n =? 98)%N then Some (ascii_of_N 8)
  else if (n =? 102)%N then Some (ascii_of_N 12)
  else if (n =? 110)%N then Some (ascii_of_N 10)
  else if (n =? 114)%N then Some (ascii_of_N 13)
  else if (n =? 116)%N then Some (ascii_of_N 9)
  else None.

Definition hex_value (c : ascii) : option N :=
  let n := N_of_ascii c in
  if ((48 <=? n) && (n <=? 57))%N then Some (n - 48)%N
  else if ((97 <=? n) && (n <=? 102))%N then Some (n - 87)%N
  else if ((65 <=? n) && (n <=? 70))%N then Some (n - 55)%N
  else None.

Definition hex4 (a b c d : ascii) : option ascii :=
  match hex_value a, hex_value b, hex_value c, hex_value d with
  | Some x3, Some x2, Some x1, Some x0 =>
      let v := (4096 * x3 + 256 * x2 + 16 * x1 + x0)%N in
      if (v <? 256)%N then Some (ascii_of_N v) else None
  | _, _, _, _ => None
  end.

Definition push_char (c : ascii) (r : option (string * string))
    : option (string * string) :=
  match r with
  | Some (str, rest) => Some (String c str, rest)
  | None => None
  end.

(** The characters of a string literal after its opening quote, up to the
    closing quote; the result is the string and what follows the literal. *)
Fixpoint read_string_body (s : string) : option (string * string) :=
  match s with
  | EmptyString => None
  | String c r =>
      let n := N_of_ascii c in
      if (n =? 34)%N then Some (EmptyString, r)
      else if (n =? 92)%N then
        match r with
        | EmptyString => None
        | String e r1 =>
            match simple_escape e with
            | Some ch => push_char ch (read_string_body r1)
            | None =>
                if (N_of_ascii e =? 117)%N then
                  match r1 with
                  | String h3 (String h2 (String h1 (String h0 r2))) =>
                      match hex4 h3 h2 h1 h0 with
                      | Some ch => push_char ch (read_string_body r2)
                      | None => None
                      end
                  | _ => None
                  end
                else None
            end
        end
      else if (n <? 32)%N then None
      else push_char c (read_string_body r)
  end.

Definition digit_of (c : ascii) : option (Decimal.uint → Decimal.uint) :=
  let n := N_of_ascii c in
  if (n =? 48)%N then Some Decimal.D0
  else if (n =? 49)%N then Some Decimal.D1
  else if (n =? 50)%N then Some Decimal.D2
  else if (n =? 51)%N then Some Decimal.D3
  else if (n =? 52)%N then Some Decimal.D4
  else if (n =? 53)%N then Some Decimal.D5
  else if (n =? 54)%N then Some Decimal.D6
  else if (n =? 55)%N then Some Decimal.D7
  else if (n =? 56)%N then Some Decimal.D8
  else if (n =? 57)%N then Some Decimal.D9
  else None.

(** The longest run of digits at the front of [s]. *)
Fixpoint read_digits (s : string) : Decimal.uint * string :=
  match s with
  | EmptyString => (Decimal.Nil, s)
  | String c r =>
      match digit_of c with
      | Some D => let '(d, r') := read_digits r in (D d, r')
      | None => (Decimal.Nil, s)
      end
  end.

(** A fraction or an exponent starts here. *)
Definition starts_fraction (s : string) : bool :=
  match s with
  | String c _ =>
      let n := N_of_ascii c in ((n =? 46) || (n =? 101) || (n =? 69))%N
  | EmptyString => false
  end.

(** An integer literal: an optional minus sign, then digits without a
    superfluous leading zero. *)
Definition read_number (s : string) : option (Z * string) :=
  let '(negative, s1) :=
    match s with
    | String c r => if (N_of_ascii c =? 45)%N then (true, r) else (false, s)
    | EmptyString => (false, s)
    end in
  let '(d, r) := read_digits s1 in
  if Decimal.uint_beq (Decimal.unorm d) d && negb (starts_fraction r) then
    Some (Z.of_int (if negative then Decimal.Neg d else Decimal.Pos d), r)
  else None.

Fixpoint strip_prefix (p s : string) : option string :=
  match p with
  | EmptyString => Some s
  | String a p' =>
      match s with
      | String b s' => if Ascii.eqb a b then strip_prefix p' s' else None
      | EmptyString => None
      end
  end.

Fixpoint read_value (fuel : nat) (s : string) : option (value * string) :=
  match fuel with
  | O => None
  | S fuel' =>
      match skip_ws s with
      | EmptyString => None
      | String c r as s' =>
          let n := N_of_ascii c in
          if (n =? 123)%N then
            match skip_ws r with
            | EmptyString => None
            | String c' r' =>
                if (N_of_ascii c' =? 125)%N then Some (Object [], r')
                else match read_members fuel' r with
                     | Some (members, rest) => Some (Object members, rest)
                     | None => None
                     end
            end
          else if (n =? 91)%N then
            match skip_ws r with
            | EmptyString => None
            | String c' r' =>
                if (N_of_ascii c' =? 93)%N then Some (Array [], r')
                else match read_elements fuel' r with
                     | Some (items, rest) => Some (Array items, rest)
                     | None => None
                     end
            end
          else if (n =? 34)%N then
            match read_string_body r with
            | Some (str, rest) => Some (Str str, rest)
            | None => None
            end
          else if (n =? 110)%N then
            match strip_prefix "null" s' with
            | Some rest => Some (Null, rest)
            | None => None
            end
          else if (n =? 116)%N then
            match strip_prefix "true" s' with
            | Some rest => Some (Bool true, rest)
            | None => None
            end
          else if (n =? 102)%N then
            match strip_prefix "false" s' with
            | Some rest => Some (Bool false, rest)
            | None => None
            end
          else
            match read_number s' with
            | Some (z, rest) => Some (Number z, rest)
            | None => None
            end
      end
  end
with read_elements (fuel : nat) (s : string) : option (list value * string) :=
  match fuel with
  | O => None
  | S fuel' =>
      match read_value fuel' s with
      | None => None
      | Some (v, r) =>
          match skip_ws r with
          | EmptyString => None
          | String c r' =>
              if (N_of_ascii c =? 44)%N then
                match read_elements fuel' r' with
                | Some (items, rest) => Some (v :: items, rest)
                | None => None
                end
              else if (N_of_ascii c =? 93)%N then Some ([v], r')
              else None
          end
      end
  end
with read_members (fuel : nat) (s : string)
    : option (list (string * value) * string) :=
  match fuel with
  | O => None
  | S fuel' =>
      match skip_ws s with
      | EmptyString => None
      | String c r =>
          if (N_of_ascii c =? 34)%N then
            match read_string_body r with
            | None => None
            | Some (key, r1) =>
                match skip_ws r1 with
                | EmptyString => None
                | String c1 r2 =>
                    if (N_of_ascii c1 =? 58)%N then
                      match read_value fuel' r2 with
                      | None => None
                      | Some (v, r3) =>
                          match skip_ws r3 with
                          | EmptyString => None
                          | String c3 r4 =>
                              if (N_of_ascii c3 =? 44)%N then
                                match read_members fuel' r4 with
                                | Some (members, rest) =>
                                    Some ((key, v) :: members, rest)
                                | None => None
                                end
                              else if (N_of_ascii c3 =? 125)%N
                              then Some ([(key, v)], r4)
                              else None
                          end
                      end
                    else None
                end
            end
          else None
      end
  end.

(** [JSON.parse(text)]; [None] stands for the [SyntaxError]. *)
Definition parse (text : string) : option value :=
  match read_value (S (String.length text)) text with
  | Some (v, rest) =>
      match skip_ws rest with
      | EmptyString => Some v
      | String _ _ => None
      end
  | None => None
  end.

(** [k] does not go on with a digit, a fraction or an exponent. *)
Definition ends_number (k : string) : Prop :=
  match k with
  | EmptyString => True
  | String c _ => digit_of c = None ∧ starts_fraction k = false
  end.

(** A number literal starts with a minus sign or a digit. *)
Definition is_number_start (c : ascii) : bool :=
  let n := N_of_ascii c in ((n =? 45) || (48 <=? n) && (n <=? 57))%N.

(** *** Values as JavaScript sees them *)

(** [o.key]: the member written last wins; [None] is [undefined]. *)
Fixpoint last_member (key : string) (members : list (string * value))
    : option value :=
  match members with
  | [] => None
  | (k, v) :: rest =>
      match last_member key rest with
      | Some v' => Some v'
      | None => if bool_decide (k = key) then Some v else None
      end
  end.

Definition get (key : string) (v : value) : option value :=
  match v with
  | Object members => last_member key members
  | _ => None
  end.

(** Truthiness of a property read. *)
Definition truthy (v : option value) : bool :=
  match v with
  | None | Some Null => false
  | Some (Bool b) => b
  | Some (Number z) => negb (z =? 0)
  | Some (Str s) => negb (bool_decide (s = EmptyString))
  | Some (Array _) | Some (Object _) => true
  end.

End JSON.

(** ** The file system, as [fs-extra] shows it *)

(** The files with their text; the paths at which a write goes through;
    for the other paths, what a failed write leaves in the file when it
    failed only after the open had truncated it ([None]: the open itself is
    refused and nothing changes; a directory, a missing parent, a read-only
    file); the paths that can be removed. *)
Record filesystem := {
  files : gmap string string;
  writable : string → bool;
  torn : string → option string;
  removable : string → bool
}.

(** An asynchronous call on the file system: it leaves a store, and returns
    or throws. *)
Definition fs_action (A : Type) : Type := filesystem → filesystem * completion A.

Definition fs_ret {A} (x : A) : fs_action A := λ fs, (fs, Return x).

(** [await m; k]: a rejection of [m] skips [k]. *)
Definition fs_bind {A B} (m : fs_action A) (k : A → fs_action B) : fs_action B :=
  λ fs,
    match m fs with
    | (fs', Return x) => k x fs'
    | (fs', Throw msg) => (fs', Throw msg)
    end.

(** [try { await m } catch (error) { await h(error.message) }] *)
Definition fs_catch {A} (m : fs_action A) (h : string → fs_action A) : fs_action A :=
  λ fs,
    match m fs with
    | (fs', Return x) => (fs', Return x)
    | (fs', Throw msg) => h msg fs'
    end.

Definition with_file (fs : filesystem) (path data : string) : filesystem :=
  {| files := <[path := data]> (files fs);
     writable := writable fs;
     torn := torn fs;
     removable := removable fs |}.

Definition pathExists (fs : filesystem) (path : string) : bool :=
  bool_decide (is_Some (files fs !! path)).

Definition readFile (fs : filesystem) (path : string) : completion string :=
  match files fs !! path with
  | Some data => Return data
  | None => Throw ("ENOENT: no such file or directory, open '" +:+ path +:+ "'")
  end.

(** [fs.writeFile(path, data)]: the file is opened with flag [w], which
    truncates it, and then written. *)
Definition writeFile (path data : string) : fs_action unit :=
  λ fs,
    if writable fs path then (with_file fs path data, Return tt)
    else
      match torn fs path with
      | Some rest => (with_file fs path rest, Throw "EIO: i/o error, write")
      | None =>
          (fs, Throw ("EACCES: permission denied, open '" +:+ path +:+ "'"))
      end.

(** [fs.remove(path)] *)
Definition remove (path : string) : fs_action unit :=
  λ fs,
    if removable fs path
    then ({| files := delete path (files fs);
             writable := writable fs;
             torn := torn fs;
             removable := removable fs |}, Return tt)
    else (fs, Throw ("EPERM: operation not permitted, unlink '" +:+ path +:+ "'")).

(** ** [utils.js]: the checkpoint store *)

(** The object literal serialised by [saveCheckpoint].  [reportContent] is
    a string or [null]. *)
Definition checkpoint_object (index : Z) (reportContent : option string)
    (processedDorks : list string) (timestamp : string) : JSON.value :=
  JSON.Object
    [ ("lastIndex", JSON.Number index);
      ("reportContent",
        match reportContent with
        | Some s => JSON.Str s
        | None => JSON.Null
        end);
      ("processedDorks", JSON.Array (map JSON.Str processedDorks));
      ("timestamp", JSON.Str timestamp) ].

(** The text of a checkpoint, cut after its first and second member. *)

(** What follows the members [lastIndex] and [reportContent] in the text of
    a checkpoint. *)
Definition processed_member (processed : list string) (timestamp : string)
    : string :=
  JSON.newline 1 (JSON.write_quoted "processedDorks" (String ":" (String " "
    (JSON.write 1 (JSON.Array (map JSON.Str processed))
       (String "," (JSON.newline 1 (JSON.write_quoted "timestamp" (String ":" (String " "
          (JSON.write_quoted timestamp (JSON.newline 0 (String "}" EmptyString)))))))))))).

Definition content_member (content : option string) (processed : list string)
    (timestamp : string) : string :=
  JSON.newline 1 (JSON.write_quoted "reportContent" (String ":" (String " "
    (JSON.write 1 (match content with Some s => JSON.Str s | None => JSON.Null end)
       (String "," (processed_member processed timestamp)))))).

(** [saveCheckpoint(checkpointFile, index, reportContent, processedDorks)],
    run when [new Date().toISOString()] is [timestamp].  A failed write is
    caught and logged: the call returns in every case, and the store is as
    the write left it. *)
Definition saveCheckpoint (fs : filesystem) (timestamp : string)
    (checkpointFile : string) (index : Z) (reportContent : option string)
    (processedDorks : list string) : filesystem :=
  fst (fs_catch
         (writeFile checkpointFile
            (JSON.stringify
               (checkpoint_object index reportContent processedDorks timestamp)))
         (λ _, fs_ret tt) fs).

(** The object returned when there is nothing to resume from. *)
Definition empty_checkpoint : JSON.value :=
  JSON.Object
    [ ("lastIndex", JSON.Number (-1));
      ("reportContent", JSON.Null);
      ("processedDorks", JSON.Array []) ].

(** [loadCheckpoint(checkpointFile)].  Reading [checkpoint.lastIndex] for
    the log line throws when the file holds [null]; that error is caught
    like a read or parse error. *)
Definition loadCheckpoint (fs : filesystem) (checkpointFile : string)
    : JSON.value :=
  if pathExists fs checkpointFile then
    match readFile fs checkpointFile with
    | Return data =>
        match JSON.parse data with
        | Some JSON.Null => empty_checkpoint
        | Some checkpoint => checkpoint
        | None => empty_checkpoint
        end
    | Throw _ => empty_checkpoint
    end
  else empty_checkpoint.

(** The strings of an array of strings. *)
Fixpoint strings_of (items : list JSON.value) : option (list string) :=
  match items with
  | [] => Some []
  | JSON.Str s :: rest =>
      match strings_of rest with
      | Some l => Some (s :: l)
      | None => None
      end
  | _ :: _ => None
  end.

(** ** [dorks-config.js]: search engines and user agents *)

Record search_engine := {
  name : string;
  url : string;
  resultSelector : string;
  titleSelector : string;
  linkSelector : string;
  snippetSelector : string;
  statsSelector : string;
  cookieAcceptSelector : string
}.

Definition google : search_engine :=
  {| name := "Google";
     url := "https://www.google.com/search?q=";
     resultSelector := "div.g";
     titleSelector := "h3";
     linkSelector := "a";
     snippetSelector := "div.VwiC3b";
     statsSelector := "#result-stats";
     cookieAcceptSelector := "button[id=" +:+ dq +:+ "L2AGLb" +:+ dq +:+ "]" |}.

Definition SEARCH_ENGINES : list search_engine :=
  [ google;
    {| name := "Bing";
       url := "https://www.bing.com/search?q=";
       resultSelector := ".b_algo";
       titleSelector := "h2";
       linkSelector := "a";
       snippetSelector := ".b_caption p";
       statsSelector := ".sb_count";
       cookieAcceptSelector := "#bnp_btn_accept" |};
    {| name := "DuckDuckGo";
       url := "https://duckduckgo.com/?q=";
       resultSelector := ".result";
       titleSelector := ".result__title";
       linkSelector := ".result__a";
       snippetSelector := ".result__snippet";
       statsSelector := "null";
       cookieAcceptSelector := "null" |};
    {| name := "Yahoo";
       url := "https://search.yahoo.com/search?p=";
       resultSelector := ".algo";
       titleSelector := "h3";
       linkSelector := "a.d-ib";
       snippetSelector := ".compText";
       statsSelector := ".searchCenterMiddle";
       cookieAcceptSelector := "button[name=" +:+ dq +:+ "agree" +:+ dq +:+ "]" |} ].

Definition USER_AGENTS : list string :=
  [ "Mozilla/5.0 (Windows NT 10.0; Win64; x64) AppleWebKit/537.36 (KHTML, like Gecko) Chrome/120.0.0.0 Safari/537.36";
    "Mozilla/5.0 (Macintosh; Intel Mac OS X 10_15_7) AppleWebKit/605.1.15 (KHTML, like Gecko) Version/17.0 Safari/605.1.15";
    "Mozilla/5.0 (Windows NT 10.0; Win64; x64) AppleWebKit/537.36 (KHTML, like Gecko) Chrome/120.0.0.0 Safari/537.36 Edg/120.0.2210.91";
    "Mozilla/5.0 (Windows NT 10.0; Win64; x64; rv:109.0) Gecko/20100101 Firefox/121.0";
    "Mozilla/5.0 (X11; Linux x86_64) AppleWebKit/537.36 (KHTML, like Gecko) Chrome/119.0.0.0 Safari/537.36";
    "Mozilla/5.0 (iPhone; CPU iPhone OS 17_1_1 like Mac OS X) AppleWebKit/605.1.15 (KHTML, like Gecko) Version/17.1 Mobile/15E148 Safari/604.1" ].

(** ** [dork-scanner.js]: the scan driver *)

Definition SAVE_CHECKPOINT : bool := true.
Definition MANUAL_VALIDATION_MODE : bool := true.

(** The double nearest to [m / 2^53], ties to even, in units of [2^-53]:
    what the multiplication of two doubles returns when their exact product
    is [m / 2^53].  A double has 53 significant bits; [s] is the number of
    bits of [m] beyond them. *)
Definition round_to_double (m : N) : N :=
  (let s := N.log2 m - 52 in
   let q := m / 2 ^ s in
   let r := m mod 2 ^ s in
   let half := 2 ^ (s - 1) in
   if (half <? r) || (r =? half) && N.odd q then (q + 1) * 2 ^ s
   else q * 2 ^ s)%N.

(** [Math.floor(Math.random() * n)] when [Math.random()] draws the double
    [r / 2^53]: the product is rounded to a double before the floor. *)
Definition random_index (r : N) (n : nat) : nat :=
  N.to_nat (round_to_double ((r mod 2 ^ 53) * N.of_nat n) / 2 ^ 53).

Definition getRandomSearchEngine (r : N) : search_engine :=
  nth (random_index r (length SEARCH_ENGINES)) SEARCH_ENGINES google.

Definition getRandomUserAgent (r : N) : string :=
  nth (random_index r (length USER_AGENTS)) USER_AGENTS EmptyString.

(** [encodeURIComponent] on code units below 256: the unreserved
    characters stay, every other one becomes the percent escapes of its
    UTF-8 bytes. *)
Definition is_unreserved (c : ascii) : bool :=
  let n := N_of_ascii c in
  ((65 <=? n) && (n <=? 90) || (97 <=? n) && (n <=? 122)
   || (48 <=? n) && (n <=? 57)
   || (n =? 45) || (n =? 95) || (n =? 46) || (n =? 33) || (n =? 126)
   || (n =? 42) || (n =? 39) || (n =? 40) || (n =? 41))%N.

Definition upper_hex (n : N) : ascii :=
  if (n <? 10)%N then ascii_of_N (48 + n) else ascii_of_N (55 + n).

Definition percent (byte : N) (k : string) : string :=
  String "%" (String (upper_hex (byte / 16)) (String (upper_hex (byte mod 16)) k)).

Fixpoint encodeURIComponent (s : string) : string :=
  match s with
  | EmptyString => EmptyString
  | String c rest =>
      let n := N_of_ascii c in
      if is_unreserved c then String c (encodeURIComponent rest)
      else if (n <? 128)%N then percent n (encodeURIComponent rest)
      else percent (192 + n / 64) (percent (128 + n mod 64) (encodeURIComponent rest))
  end.

(** [displayOnlyDorkInfo]: the record built for one dork, when
    [new Date().toISOString()] is [timestamp]. *)
Definition displayOnlyDorkInfo (dork : string) (index totalDorks : nat)
    (searchEngine : search_engine) (timestamp : string) : JSON.value :=
  let searchUrl := url searchEngine +:+ encodeURIComponent dork in
  JSON.Object
    [ ("dork", JSON.Str dork);
      ("searchEngine", JSON.Str (name searchEngine));
      ("searchUrl", JSON.Str searchUrl);
      ("timestamp", JSON.Str timestamp) ].

(** How a manual verification in the browser ends: the operator closes the
    inspection with ENTER, or launching or loading fails and the error is
    caught. *)
Inductive browser_run :=
| BrowserInspected
| BrowserFailed (msg : string).

(** What the environment decides while one dork is processed. *)
Record dork_turn := {
  engine_draw : N;
  shown_at : string;
  check_answer : string;
  agent_draw : N;
  browser : browser_run;
  saved_at : string
}.

(** What the driver does, in the order in which it does it. *)
Inductive event :=
| Skipped (i : nat) (dork : string)
| Displayed (i : nat) (dork : string)
| Asked (i : nat) (answer : string)
| BrowserStarted (i : nat) (searchUrl userAgent : string)
| BrowserFinished (i : nat) (how : browser_run)
| CheckpointSaved (i : nat) (processedDorks : list string)
| Paused (i : nat).

Definition event_index (e : event) : nat :=
  match e with
  | Skipped i _ | Displayed i _ | Asked i _ | BrowserStarted i _ _
  | BrowserFinished i _ | CheckpointSaved i _ | Paused i => i
  end.

(** The events of [processDorkDisplayMode]. *)
Definition is_processing (e : event) : bool :=
  match e with
  | Displayed _ _ | Asked _ _ | BrowserStarted _ _ _ | BrowserFinished _ _ => true
  | Skipped _ _ | CheckpointSaved _ _ | Paused _ => false
  end.

(** [askUserToCheckUrl], for the operator's answer to its question:
    [answer.toLowerCase() === 's']. *)
Definition askUserToCheckUrl (answer : string) : bool :=
  bool_decide (toLowerCase answer = "s").

(** [openBrowserForUrl]: every error is caught inside. *)
Definition openBrowserForUrl (index : nat) (searchUrl userAgent : string)
    (t : dork_turn) : list event :=
  [ BrowserStarted index searchUrl userAgent; BrowserFinished index (browser t) ].

Definition processDorkDisplayMode (t : dork_turn) (dork : string)
    (index totalDorks : nat) : JSON.value * list event :=
  let searchEngine := getRandomSearchEngine (engine_draw t) in
  let result := displayOnlyDorkInfo dork index totalDorks searchEngine (shown_at t) in
  let searchUrl := url searchEngine +:+ encodeURIComponent dork in
  let shown := [Displayed index dork] in
  if MANUAL_VALIDATION_MODE then
    let asked := shown ++ [Asked index (check_answer t)] in
    if askUserToCheckUrl (check_answer t) then
      let userAgent := getRandomUserAgent (agent_draw t) in
      (result, asked ++ openBrowserForUrl index searchUrl userAgent t)
    else (result, asked)
  else (result, shown).

(** The counters of [stats]; its three time stamps are with the end of
    the run. *)
Record scan_stats := {
  targetDomain : string;
  alternativeDomains : list string;
  totalDorks : nat;
  dorksProcessed : nat;
  manuallyChecked : nat
}.

Record scan_state := {
  results : list JSON.value;
  processedDorks : list string;
  reportContent : string;
  stats : scan_stats;
  store : filesystem;
  trace : list event
}.

(** What the driver reads from a loaded checkpoint: [lastIndex],
    [processedDorks || []] and [reportContent || '']. *)
Record resume_point := {
  lastIndex : Z;
  resume_processed : list string;
  resume_report : string
}.

(** The checkpoints the driver is modelled on: [lastIndex] is a number not
    below -1, [processedDorks] is an array of strings or falsy,
    [reportContent] is a string or falsy. *)
Definition checkpoint_view (checkpoint : JSON.value) : option resume_point :=
  match JSON.get "lastIndex" checkpoint with
  | Some (JSON.Number z) =>
      if (-1) <=? z then
        let processed :=
          match JSON.get "processedDorks" checkpoint with
          | Some (JSON.Array items) => strings_of items
          | other => if JSON.truthy other then None else Some []
          end in
        let report :=
          match JSON.get "reportContent" checkpoint with
          | Some (JSON.Str s) => Some s
          | other => if JSON.truthy other then None else Some EmptyString
          end in
        match processed, report with
        | Some p, Some r =>
            Some {| lastIndex := z; resume_processed := p; resume_report := r |}
        | _, _ => None
        end
      else None
  | _ => None
  end.

Section driver.

Variable CHECKPOINT_FILE : string.

(** What the environment decides for the dork at each index. *)
Variable turns : nat → dork_turn.

Variable dorks : list string.

(** One pass through the body of the [for] loop. *)
Definition scan_step (i : nat) (dork : string) (st : scan_state) : scan_state :=
  if array_includes (processedDorks st) dork then
    {| results := results st;
       processedDorks := processedDorks st;
       reportContent := reportContent st;
       stats := stats st;
       store := store st;
       trace := trace st ++ [Skipped i dork] |}
  else
    let '(result, shown) := processDorkDisplayMode (turns i) dork i (length dorks) in
    let processed := processedDorks st ++ [dork] in
    let checked :=
      if MANUAL_VALIDATION_MODE && JSON.truthy (JSON.get "manuallyChecked" result)
      then S (manuallyChecked (stats st)) else manuallyChecked (stats st) in
    let store' :=
      if SAVE_CHECKPOINT
      then saveCheckpoint (store st) (saved_at (turns i)) CHECKPOINT_FILE
             (Z.of_nat i) (Some (reportContent st)) processed
      else store st in
    let saved := if SAVE_CHECKPOINT then [CheckpointSaved i processed] else [] in
    let paused :=
      if bool_decide ((i + 1) mod 10 = 0)%nat && bool_decide (i < length dorks - 1)%nat
      then [Paused i] else [] in
    {| results := results st ++ [result];
       processedDorks := processed;
       reportContent := reportContent st;
       stats := {| targetDomain := targetDomain (stats st);
                   alternativeDomains := alternativeDomains (stats st);
                   totalDorks := totalDorks (stats st);
                   dorksProcessed := S (dorksProcessed (stats st));
                   manuallyChecked := checked |};
       store := store';
       trace := trace st ++ shown ++ saved ++ paused |}.

(** The [for] loop: [n] passes from index [i] on. *)
Fixpoint scan_loop (n i : nat) (st : scan_state) : scan_state :=
  match n with
  | O => st
  | S n' =>
      match dorks !! i with
      | None => st
      | Some dork => scan_loop n' (S i) (scan_step i dork st)
      end
  end.

End driver.

(** *** The end of a run *)

(** What the environment decides at the end of a run: the time stamps of
    [stats], the paths that [path.join] builds in [REPORTS_DIR] from
    [TARGET_DOMAIN] and the time stamp of each file, the error of the
    [fs.ensureDir] of [saveExecutionStats] ([None] when it goes through),
    and the stack trace of a caught error. *)
Record run_end := {
  startTime : string;
  endTime : string;
  totalExecutionTime : Z;
  dorksListPath : string;
  dorksTextPath : string;
  ensureDir_error : option string;
  statsPath : string;
  errorReportPath : string;
  error_stack : string
}.

(** A value inside a template literal. *)
Fixpoint to_text (v : JSON.value) : string :=
  match v with
  | JSON.Null => "null"
  | JSON.Bool b => if b then "true" else "false"
  | JSON.Number z => JSON.write_number z EmptyString
  | JSON.Str s => s
  | JSON.Array items =>
      (fix join (l : list JSON.value) : string :=
         match l with
         | [] => EmptyString
         | x :: rest =>
             (match x with JSON.Null => EmptyString | _ => to_text x end)
             +:+ match rest with
                 | [] => EmptyString
                 | _ :: _ => "," +:+ join rest
                 end
         end) items
  | JSON.Object _ => "[object Object]"
  end.

Definition member_text (key : string) (item : JSON.value) : string :=
  match JSON.get key item with
  | Some v => to_text v
  | None => "undefined"
  end.

(** [results.map(item => `${item.dork}\n${item.searchUrl}\n\n`).join('')] *)
Definition textContent (results : list JSON.value) : string :=
  fold_right
    (λ item acc,
       member_text "dork" item +:+ String (ascii_of_N 10)
         (member_text "searchUrl" item +:+ String (ascii_of_N 10)
            (String (ascii_of_N 10) acc)))
    EmptyString results.

(** The object [stats] when it is written: [endTime] was added last. *)
Definition stats_object (s : scan_stats) (e : run_end) : JSON.value :=
  JSON.Object
    [ ("targetDomain", JSON.Str (targetDomain s));
      ("alternativeDomains", JSON.Array (map JSON.Str (alternativeDomains s)));
      ("totalDorks", JSON.Number (Z.of_nat (totalDorks s)));
      ("startTime", JSON.Str (startTime e));
      ("dorksProcessed", JSON.Number (Z.of_nat (dorksProcessed s)));
      ("manuallyChecked", JSON.Number (Z.of_nat (manuallyChecked s)));
      ("totalExecutionTime", JSON.Number (totalExecutionTime e));
      ("endTime", JSON.Str (endTime e)) ].

(** [saveExecutionStats(REPORTS_DIR, stats)] *)
Definition saveExecutionStats (e : run_end) (s : scan_stats) : fs_action unit :=
  fs_bind
    (λ fs, match ensureDir_error e with
           | Some msg => (fs, Throw msg)
           | None => (fs, Return tt)
           end)
    (λ _, writeFile (statsPath e) (JSON.stringify (stats_object s e))).

(** The statements after the loop, inside the [try]: the two lists of
    dorks, the statistics, then the removal of the checkpoint file. *)
Definition write_reports (e : run_end) (CHECKPOINT_FILE : string)
    (st : scan_state) : fs_action unit :=
  fs_bind (writeFile (dorksListPath e) (JSON.stringify (JSON.Array (results st))))
    (λ _,
  fs_bind (writeFile (dorksTextPath e) (textContent (results st)))
    (λ _,
  fs_bind (saveExecutionStats e (stats st))
    (λ _ fs,
       if pathExists fs CHECKPOINT_FILE then remove CHECKPOINT_FILE fs
       else (fs, Return tt)))).

(** The [catch] of [runMultiEngineDorkScan]: the error report is written;
    the checkpoint file is left alone. *)
Definition report_error (e : run_end) (msg : string) : fs_action unit :=
  writeFile (errorReportPath e)
    (JSON.stringify
       (JSON.Object [ ("error", JSON.Str msg); ("stack", JSON.Str (error_stack e)) ])).

Definition finish_run (e : run_end) (CHECKPOINT_FILE : string) (st : scan_state)
    : filesystem :=
  fst (fs_catch (write_reports e CHECKPOINT_FILE st) (report_error e) (store st)).

(** [runMultiEngineDorkScan], from the generation of the dork list to the
    removal of the checkpoint file.  The operator's confirmations and the
    creation of the result directories before the loop are taken as given,
    and [selectedTypes] is the answer of [promptDorkTypes].  The result is
    [None] for a checkpoint file outside [checkpoint_view]. *)
Definition runMultiEngineDorkScan (cfg : domain_config) (CHECKPOINT_FILE : string)
    (ending : run_end) (turns : nat → dork_turn) (selectedTypes : list Z)
    (fs : filesystem) : option scan_state :=
  let dorks := generateDorksList cfg selectedTypes (TARGET_DOMAIN cfg) in
  let checkpoint := loadCheckpoint fs CHECKPOINT_FILE in
  match checkpoint_view checkpoint with
  | None => None
  | Some ck =>
      let startIndex := Z.to_nat (lastIndex ck + 1) in
      let st0 :=
        {| results := [];
           processedDorks := resume_processed ck;
           reportContent := resume_report ck;
           stats := {| targetDomain := TARGET_DOMAIN cfg;
                       alternativeDomains := ALTERNATIVE_DOMAINS cfg;
                       totalDorks := length dorks;
                       dorksProcessed := 0;
                       manuallyChecked := 0 |};
           store := fs;
           trace := [] |} in
      let st := scan_loop CHECKPOINT_FILE turns dorks
                  (length dorks - startIndex) startIndex st0 in
      Some {| results := results st;
              processedDorks := processedDorks st;
              reportContent := reportContent st;
              stats := stats st;
              store := finish_run ending CHECKPOINT_FILE st;
              trace := trace st |}
  end.
(** *** The shape of the trace of one pass *)

(** The events of the pass for the dork [d] at index [i]: a skip, or the
    display, the question, possibly a browser verification from its start
    to its end, then the checkpoint and possibly the pause. *)
Definition pass_events (i : nat) (d : string) (processed : list string)
    (block : list event) : Prop :=
  (d ∈ processed ∧ block = [Skipped i d])
  ∨ ((d ∉ processed) ∧
     (∃ answer verification paused,
        block = Displayed i d :: Asked i answer :: verification
                ++ CheckpointSaved i (processed ++ [d]) :: paused
        ∧ (verification = []
           ∨ (∃ searchUrl userAgent how,
                verification = [BrowserStarted i searchUrl userAgent;
                                BrowserFinished i how]))
        ∧ (paused = [] ∨ paused = [Paused i]))).

(** In a trace, every checkpoint comes after the whole processing of its
    dork: the dork was displayed before, a browser verification that was
    started has ended before, and no processing event of that index comes
    later. *)
Definition saved_after_processing (dorks : list string) (tr : list event)
    : Prop :=
  ∀ pre post j ps,
    tr = pre ++ CheckpointSaved j ps :: post →
    (∃ d, dorks !! j = Some d ∧ Displayed j d ∈ pre)
    ∧ (∀ searchUrl userAgent,
         BrowserStarted j searchUrl userAgent ∈ pre →
         ∃ how, BrowserFinished j how ∈ pre)
    ∧ (∀ e, e ∈ post → is_processing e = true → event_index e ≠ j).

(** ** Sample environments *)

Module samples.

Definition no_elements : string → nat := λ _, 0%nat.

Definition captcha_window : window :=
  {| the_document :=
       {| body := Some {| innerText := "Please complete the CAPTCHA to continue";
                          innerHTML := "<p>Please complete the CAPTCHA to continue</p>" |};
          querySelectorAll := no_elements |};
     lastChange_mark := None;
     date_now := 0 |}.

(** A window without body in which every selector matches seven
    elements. *)
Definition bodyless_window : window :=
  {| the_document := {| body := None; querySelectorAll := λ _, 7%nat |};
     lastChange_mark := None;
     date_now := 0 |}.

Definition captcha_page : page_state :=
  {| isClosed := false; evaluate_error := None; win := captcha_window |}.

Definition bodyless_page : page_state :=
  {| isClosed := false; evaluate_error := None; win := bodyless_window |}.

(** An open page on which evaluations are rejected. *)
Definition crashed_page : page_state :=
  {| isClosed := false;
     evaluate_error := Some "Execution context was destroyed";
     win := captcha_window |}.

Definition closed_page : page_state :=
  {| isClosed := true; evaluate_error := None; win := captcha_window |}.

(** A terminal interface with the default history size and no history. *)
Definition terminal_interface : readline :=
  {| terminal := true; historySize := 30; history := Some [] |}.

Definition start_world : world := {| clock := 0; rl := terminal_interface |}.

(** The operator presses ENTER while the challenge is still there. *)
Definition enter_cycle : cycle :=
  {| answer_after := 5000; answer_line := EmptyString;
     page_then := captcha_page; recheck_takes := 80 |}.

(** The operator types the skip token. *)
Definition skip_cycle : cycle :=
  {| answer_after := 1500; answer_line := "skip";
     page_then := captcha_page; recheck_takes := 80 |}.


(** The page of a search that went through. *)
Definition results_page : page_state :=
  {| isClosed := false;
     evaluate_error := None;
     win := {| the_document :=
                 {| body := Some {| innerText := "Results for site:example.com";
                                    innerHTML := "<ol><li>one</li><li>two</li></ol>" |};
                    querySelectorAll :=
                      λ sel, if bool_decide (sel = "li") then 2%nat else 0%nat |};
               lastChange_mark := None;
               date_now := 0 |} |}.

(** An interface whose input is piped. *)
Definition piped_interface : readline :=
  {| terminal := false; historySize := 30; history := Some [] |}.

Definition piped_world : world := {| clock := 0; rl := piped_interface |}.

(** With the output piped the operator types the skip token, and the
    challenge has gone by then. *)
Definition typed_skip_cycle : cycle :=
  {| answer_after := 1500; answer_line := "skip";
     page_then := results_page; recheck_takes := 60 |}.

Definition typed_skip_env : handoff_env :=
  {| page0 := Some captcha_page; detect0_takes := 120; flash_takes := 300;
     script := [typed_skip_cycle] |}.

Definition skip_env : handoff_env :=
  {| page0 := Some captcha_page; detect0_takes := 120; flash_takes := 300;
     script := [enter_cycle; skip_cycle] |}.



(** A page whose body grows at every poll, so that it never looks
    stable. *)
Definition growing_page (k : nat) : page_state :=
  {| isClosed := false;
     evaluate_error := None;
     win := {| the_document :=
                 {| body := Some {| innerText := EmptyString;
                                    innerHTML := Nat.iter (S k) (String "x") EmptyString |};
                    querySelectorAll := no_elements |};
               lastChange_mark := None;
               date_now := 0 |} |}.

Definition growing_env : stability_env :=
  {| stab_page0 := Some (growing_page 0);
     setup_takes := 20;
     polls := λ k, {| poll_page := growing_page k; stats_takes := 10;
                      sleep_takes := 500 |} |}.

Definition closed_env : stability_env :=
  {| stab_page0 := Some closed_page;
     setup_takes := 20;
     polls := λ k, {| poll_page := closed_page; stats_takes := 10;
                      sleep_takes := 500 |} |}.

Definition empty_disk : filesystem :=
  {| files := ∅; writable := λ _, true; torn := λ _, None;
     removable := λ _, true |}.

Definition checkpoint_path : string := "dork_checkpoint.json".

(** A small configuration: with the e-commerce category it yields eleven
    dorks. *)
Definition small_config : domain_config :=
  {| TARGET_DOMAIN := "example.com";
     ALTERNATIVE_DOMAINS := ["dev.example.com"];
     DOMAIN_SETTINGS :=
       {| includeSubdomains := true; includeVariations := true;
          limitPaths := false; paths := [] |} |}.

Definition small_dorks : list string :=
  generateDorksList small_config [4] "example.com".

(** A disk holding the checkpoint of an interrupted run: the dorks 0 to 2
    were processed, and the dork of index 5 is listed as well. *)
Definition resumed_disk : filesystem :=
  saveCheckpoint empty_disk "2024-05-01T10:00:00.000Z" checkpoint_path 2
    (Some EmptyString)
    (take 3 small_dorks ++ [nth 5 small_dorks EmptyString]).

(** The operator verifies the dorks of even index in the browser. *)
Definition sample_turns (i : nat) : dork_turn :=
  {| engine_draw := N.of_nat i * 2 ^ 51;
     shown_at := "2024-05-01T10:05:00.000Z";
     check_answer := if Nat.even i then "s" else "n";
     agent_draw := N.of_nat i * 2 ^ 50;
     browser := BrowserInspected;
     saved_at := "2024-05-01T10:06:00.000Z" |}.

Definition resumed_point : resume_point :=
  {| lastIndex := 2;
     resume_processed := take 3 small_dorks ++ [nth 5 small_dorks EmptyString];
     resume_report := EmptyString |}.

(** The end of a run that took five minutes. *)
Definition sample_ending : run_end :=
  {| startTime := "2024-05-01T10:05:00.000Z";
     endTime := "2024-05-01T10:10:00.000Z";
     totalExecutionTime := 300000;
     dorksListPath :=
       "dorks-results/reports/dorks_list_example.com_2024-05-01T10-10-00-000Z.json";
     dorksTextPath :=
       "dorks-results/reports/dorks_list_example.com_2024-05-01T10-10-00-000Z.txt";
     ensureDir_error := None;
     statsPath :=
       "dorks-results/reports/execution_stats_2024-05-01T10-10-00-002Z.json";
     errorReportPath :=
       "dorks-results/reports/error_report_2024-05-01T10-10-00-003Z.json";
     error_stack := "Error: EACCES: permission denied" |}.

Definition resumed_run : option scan_state :=
  runMultiEngineDorkScan small_config checkpoint_path sample_ending
    sample_turns [4] resumed_disk.

Definition resumed_state : scan_state :=
  match resumed_run with
  | Some st => st
  | None =>
      {| results := []; processedDorks := []; reportContent := EmptyString;
         stats := {| targetDomain := EmptyString; alternativeDomains := [];
                     totalDorks := 0; dorksProcessed := 0; manuallyChecked := 0 |};
         store := empty_disk; trace := [] |}
  end.

End samples.

(** ** [dork-scanner.js]: [promptDorkTypes] *)

(** [s.split(',')]: the pieces between the commas; an empty string gives
    one empty piece. *)
Fixpoint split_comma (s : string) : list string :=
  match s with
  | EmptyString => [EmptyString]
  | String c rest =>
      if (N_of_ascii c =? 44)%N then EmptyString :: split_comma rest
      else match split_comma rest with
           | piece :: pieces => String c piece :: pieces
           | [] => [String c EmptyString]
           end
  end.

Fixpoint trim_start (s : string) : string :=
  match s with
  | EmptyString => EmptyString
  | String c rest => if is_space c then trim_start rest else s
  end.

Fixpoint trim_end (s : string) : string :=
  match s with
  | EmptyString => EmptyString
  | String c rest =>
      match trim_end rest with
      | EmptyString => if is_space c then EmptyString else String c EmptyString
      | kept => String c kept
      end
  end.

(** [s.trim()]. *)
Definition trim (s : string) : string := trim_end (trim_start s).

(** The value of [c] as a digit in [radix], if it is one. *)
Definition digit_value (radix : N) (c : ascii) : option N :=
  let n := N_of_ascii c in
  let v :=
    if ((48 <=? n) && (n <=? 57))%N then Some (n - 48)%N
    else if ((97 <=? n) && (n <=? 122))%N then Some (n - 87)%N
    else if ((65 <=? n) && (n <=? 90))%N then Some (n - 55)%N
    else None in
  match v with
  | Some d => if (d <? radix)%N then Some d else None
  | None => None
  end.

(** The value of the longest run of digits at the front of [s]; [acc] is
    the value read so far, [None] before the first digit. *)
Fixpoint read_radix (radix : N) (s : string) (acc : option N) : option N :=
  match s with
  | EmptyString => acc
  | String c rest =>
      match digit_value radix c with
      | Some d => read_radix radix rest (Some (default 0%N acc * radix + d)%N)
      | None => acc
      end
  end.

(** [parseInt(s)] without a radix: leading white space, a sign, the prefix
    [0x] or [0X] for base 16, then the longest run of digits.  [None] is
    [NaN].  The result is the exact integer; JavaScript rounds it to a
    double, which changes no comparison with 1 and 4. *)
Definition parseInt (s : string) : option Z :=
  let s1 := trim_start s in
  let '(negative, s2) :=
    match s1 with
    | String c rest =>
        if (N_of_ascii c =? 45)%N then (true, rest)
        else if (N_of_ascii c =? 43)%N then (false, rest)
        else (false, s1)
    | EmptyString => (false, s1)
    end in
  let '(radix, s3) :=
    match s2 with
    | String z (String x rest) =>
        if ((N_of_ascii z =? 48) && ((N_of_ascii x =? 120) || (N_of_ascii x =? 88)))%N
        then (16%N, rest) else (10%N, s2)
    | _ => (10%N, s2)
    end in
  match read_radix radix s3 None with
  | None => None
  | Some v => Some (if negative then - Z.of_N v else Z.of_N v)
  end.

(** [selected.add(n)] on a [Set] of numbers. *)
Definition add_number (selected : list Z) (n : Z) : list Z :=
  if bool_decide (n ∈ selected) then selected else selected ++ [n].

(** What one comma-separated piece adds to the selection. *)
Definition piece_category (num : string) : option Z :=
  match parseInt (trim num) with
  | Some n => if (1 <=? n) && (n <=? 4) then Some n else None
  | None => None
  end.

(** The callback of [promptDorkTypes] for the operator's [answer]; the
    result is [Array.from(selected)]. *)
Definition promptDorkTypes (answer : string) : list Z :=
  let selected :=
    if includes "5" answer then
      add_number (add_number (add_number (add_number [] 1) 2) 3) 4
    else
      fold_left
        (λ selected num,
           match parseInt (trim num) with
           | Some n => if (1 <=? n) && (n <=? 4) then add_number selected n
                       else selected
           | None => selected
           end)
        (split_comma answer) [] in
  if bool_decide (length selected = 0%nat) then add_number selected 1
  else selected.

(** ** [utils.js]: [formatDorkForFilename] *)

(** The characters kept by [/[^a-z0-9]/gi]: without the [u] flag no
    character above 127 matches a letter. *)
Definition is_alnum (c : ascii) : bool :=
  let n := N_of_ascii c in
  ((97 <=? n) && (n <=? 122) || (65 <=? n) && (n <=? 90)
   || (48 <=? n) && (n <=? 57))%N.

Fixpoint replace_unsafe (s : string) : string :=
  match s with
  | EmptyString => EmptyString
  | String c rest =>
      String (if is_alnum c then c else "_"%char) (replace_unsafe rest)
  end.

(** [s.substring(0, n)] for an integer [n]: a negative [n] counts as 0 and
    an [n] beyond the end as the length. *)
Fixpoint substring_from_start (n : nat) (s : string) : string :=
  match n, s with
  | S n', String c rest => String c (substring_from_start n' rest)
  | _, _ => EmptyString
  end.

Definition formatDorkForFilename (dork : string) (maxLength : Z) : string :=
  substring_from_start (Z.to_nat maxLength) (replace_unsafe dork).

(** The characters of a file name made by [formatDorkForFilename]. *)
Definition is_filename_char (c : ascii) : bool :=
  is_alnum c || (N_of_ascii c =? 95)%N.

(** ** [human-interaction.js]: the attention banner *)

(** The text of the banner that [flashBrowserWindow] puts at the top of the
    body.  [sign] stands for the warning sign at both ends, whose code units
    lie above 255. *)
Definition attention_banner (sign : string) : string :=
  sign +:+ " ATEN" +:+ chr 199 +:+ chr 195 +:+ "O: A" +:+ chr 231 +:+ chr 227
  +:+ "o humana necess" +:+ chr 225
  +:+ "ria! Por favor resolva o CAPTCHA ou desafio " +:+ sign.

(** The banner is part of the text of the body. *)
Definition shows_banner (p : page_state) : Prop :=
  ∃ sign b,
    body (the_document (win p)) = Some b
    ∧ includes (attention_banner sign) (innerText b) = true.

(** The same turn of the operator with another line typed. *)
Definition retype (f : string → string) (c : cycle) : cycle :=
  {| answer_after := answer_after c;
     answer_line := f (answer_line c);
     page_then := page_then c;
     recheck_takes := recheck_takes c |}.

Definition retype_all (f : string → string) (env : handoff_env) : handoff_env :=
  {| page0 := page0 env;
     detect0_takes := detect0_takes env;
     flash_takes := flash_takes env;
     script := map (retype f) (script env) |}.

(** ** [human-interaction.js]: the time stamps of the page *)

(** The same page with another value for [window.__lastChange] and another
    clock. *)
Definition restamp_page (stamp : option Z * Z) (p : page_state) : page_state :=
  {| isClosed := isClosed p;
     evaluate_error := evaluate_error p;
     win := {| the_document := the_document (win p);
               lastChange_mark := fst stamp;
               date_now := snd stamp |} |}.

Definition restamp_env (stamps : nat → option Z * Z) (env : stability_env)
    : stability_env :=
  {| stab_page0 := stab_page0 env;
     setup_takes := setup_takes env;
     polls := λ k, {| poll_page := restamp_page (stamps k) (poll_page (polls env k));
                      stats_takes := stats_takes (polls env k);
                      sleep_takes := sleep_takes (polls env k) |} |}.

(** ** [human-interaction.js]: waiting for a condition *)

(** One pass of the loop of [waitForCondition], as the environment decides
    it: the state of the page during the pass, the time taken by the
    evaluation and the time actually slept by the timer. *)
Record condition_poll := {
  cond_page : page_state;
  cond_takes : Z;
  wait_takes : Z
}.

Record condition_env := {
  cond_page0 : option page_state;
  cond_polls : nat → condition_poll
}.

Section condition.

Variable env : condition_env.

(** [conditionFn], with the truthiness of what it returns. *)
Variable conditionFn : window → bool.

Variable timeout : Z.

(** The [while] loop of [waitForCondition] from its pass number [k] on, and
    the [return false] after it.  [None]: the fuel ran out. *)
Fixpoint condition_loop (fuel : nat) (startTime : Z) (k : nat) (now : Z)
    : option (completion bool) :=
  match fuel with
  | O => None
  | S fuel' =>
      if now - startTime <? timeout then
        let p := cond_polls env k in
        if isClosed (cond_page p) then
          Some (Throw ("P" +:+ chr 225 +:+ "gina fechada durante aguardo de condi"
                       +:+ chr 231 +:+ chr 227 +:+ "o"))
        else
          match evaluate (cond_page p) conditionFn with
          | Return conditionMet =>
              if conditionMet then Some (Return true)
              else condition_loop fuel' startTime (S k)
                     (now + cond_takes p + wait_takes p)
          | Throw _ => Some (Return false)
          end
      else Some (Return false)
  end.

(** [waitForCondition(page, conditionFn, timeout, checkInterval)] called at
    time [now]; [checkInterval] shows in the time slept by the timer. *)
Definition waitForCondition (fuel : nat) (now : Z) : option (completion bool) :=
  match cond_page0 env with
  | None =>
      Some (Throw (page_unavailable ("aguardar condi" +:+ chr 231 +:+ chr 227 +:+ "o")))
  | Some p =>
      if isClosed p
      then Some (Throw (page_unavailable
                          ("aguardar condi" +:+ chr 231 +:+ chr 227 +:+ "o")))
      else condition_loop fuel now 0 now
  end.

End condition.

(** The clock at the head of pass [k + n] of the loop of
    [waitForCondition], when it is [now] at the head of pass [k] and no
    pass in between leaves the loop. *)
Fixpoint condition_clock (env : condition_env) (k n : nat) (now : Z) : Z :=
  match n with
  | O => now
  | S n' =>
      condition_clock env (S k) n'
        (now + cond_takes (cond_polls env k) + wait_takes (cond_polls env k))
  end.

(** ** [dork-scanner.js]: the driver, stopped and resumed *)

(** The list [processedDorks] after [n] passes of the loop from index [i]
    on. *)
Fixpoint processed_after (dorks : list string) (n i : nat)
    (processed : list string) : list string :=
  match n with
  | O => processed
  | S n' =>
      match dorks !! i with
      | None => processed
      | Some dork =>
          processed_after dorks n' (S i)
            (if array_includes processed dork then processed
             else processed ++ [dork])
      end
  end.


(** ** More sample environments *)

Module more_samples.

Import samples.

(** An answer to the category prompt with blanks, a repetition, a
    hexadecimal piece and a number out of range. *)
Definition sample_answer : string := " 3 , 1,3,0x2, 7".

(** The page of a search that went through, with the attention banner still
    on top of it. *)
Definition banner_page : page_state :=
  {| isClosed := false;
     evaluate_error := None;
     win := {| the_document :=
                 {| body := Some {| innerText :=
                                      attention_banner "!" +:+ " Results for site:example.com";
                                    innerHTML := "<div id=attention-banner></div><ol></ol>" |};
                    querySelectorAll := no_elements |};
               lastChange_mark := None;
               date_now := 0 |} |}.

(** The operator presses ENTER under the banner. *)
Definition banner_cycle : cycle :=
  {| answer_after := 4000; answer_line := EmptyString;
     page_then := banner_page; recheck_takes := 70 |}.

Definition banner_env : handoff_env :=
  {| page0 := Some captcha_page; detect0_takes := 120; flash_takes := 300;
     script := [banner_cycle; banner_cycle] |}.

(** The operator presses ENTER after the challenge has gone. *)
Definition solved_cycle : cycle :=
  {| answer_after := 3000; answer_line := EmptyString;
     page_then := results_page; recheck_takes := 60 |}.

Definition solved_env : handoff_env :=
  {| page0 := Some captcha_page; detect0_takes := 120; flash_takes := 300;
     script := [enter_cycle; solved_cycle] |}.

(** The operator skips the first site at once. *)
Definition skip_first_env : handoff_env :=
  {| page0 := Some captcha_page; detect0_takes := 120; flash_takes := 300;
     script := [skip_cycle] |}.

(** The world of a later handoff on the same interface. *)
Definition later_world : world :=
  {| clock := 90000; rl := submit_line terminal_interface "skip" |}.

Definition solved_at_once_env : handoff_env :=
  {| page0 := Some captcha_page; detect0_takes := 120; flash_takes := 300;
     script := [solved_cycle] |}.

(** A page that grows for two polls and then rejects the evaluation. *)
Definition failing_env : stability_env :=
  {| stab_page0 := Some (growing_page 0);
     setup_takes := 20;
     polls := λ k, {| poll_page := if (k <? 2)%nat then growing_page k
                                   else crashed_page;
                      stats_takes := 10;
                      sleep_takes := 500 |} |}.

(** The condition waited for: the page lists at least two results. *)
Definition has_results (w : window) : bool :=
  bool_decide (2 ≤ querySelectorAll (the_document w) "li")%nat.

(** The results come with the third poll. *)
Definition loading_env : condition_env :=
  {| cond_page0 := Some captcha_page;
     cond_polls := λ k, {| cond_page := if (k <? 2)%nat then captcha_page
                                        else results_page;
                           cond_takes := 30;
                           wait_takes := 500 |} |}.

Definition blank_state : scan_state :=
  {| results := []; processedDorks := []; reportContent := EmptyString;
     stats := {| targetDomain := EmptyString; alternativeDomains := [];
                 totalDorks := 0; dorksProcessed := 0; manuallyChecked := 0 |};
     store := empty_disk; trace := [] |}.


Definition full_state : scan_state :=
  default blank_state
    (runMultiEngineDorkScan small_config checkpoint_path sample_ending
       sample_turns [4] empty_disk).




End more_samples.
(** * Properties *)

(** ** String helpers *)

Section string_facts.

Lemma includes_unfold needle hay :
  includes needle hay =
  if String.prefix needle hay then true
  else match hay with
       | EmptyString => false
       | String _ rest => includes needle rest
       end.
Proof. destruct hay; reflexivity. Qed.

Lemma prefix_app d b : String.prefix d (d +:+ b) = true.
Proof.
  induction d as [|c d IH]; simpl.
  - destruct b; reflexivity.
  - destruct (Ascii.ascii_dec c c); [assumption | contradiction].
Qed.

Lemma prefix_self d : String.prefix d d = true.
Proof.
  induction d as [|c d IH]; simpl; [reflexivity|].
  destruct (Ascii.ascii_dec c c); [assumption | contradiction].
Qed.

Lemma includes_here d b : includes d (d +:+ b) = true.
Proof. rewrite includes_unfold, prefix_app. reflexivity. Qed.

Lemma includes_skip d a h : includes d h = true → includes d (a +:+ h) = true.
Proof.
  intros H. induction a as [|c a IH]; [assumption|].
  change (String c a +:+ h) with (String c (a +:+ h)).
  rewrite includes_unfold.
  destruct (String.prefix d (String c (a +:+ h)));
    [reflexivity | exact IH].
Qed.

Lemma includes_mid a d b : includes d (a +:+ d +:+ b) = true.
Proof. apply includes_skip, includes_here. Qed.

Lemma includes_end a d : includes d (a +:+ d) = true.
Proof.
  apply includes_skip. rewrite includes_unfold, prefix_self. reflexivity.
Qed.

Lemma includes_empty h : includes EmptyString h = true.
Proof. rewrite includes_unfold. destruct h; reflexivity. Qed.

End string_facts.

(** ** [Set] semantics *)

Section set_facts.

Lemma set_add_NoDup seen x : NoDup seen → NoDup (set_add seen x).
Proof.
  intros Hnd. unfold set_add. case_bool_decide as Hin; [assumption|].
  apply NoDup_app. split_and!; [assumption | | apply NoDup_singleton].
  intros y Hy Hy'. apply list_elem_of_singleton in Hy'. subst. contradiction.
Qed.

Lemma set_add_elem seen x y : y ∈ set_add seen x ↔ y ∈ seen ∨ y = x.
Proof.
  unfold set_add. case_bool_decide as Hin.
  - split; [auto | intros [?| ->]; assumption].
  - rewrite elem_of_app, list_elem_of_singleton. reflexivity.
Qed.

Lemma fold_set_add_NoDup arr seen :
  NoDup seen → NoDup (fold_left set_add arr seen).
Proof.
  revert seen. induction arr as [|x arr IH]; intros seen Hnd; simpl;
    [assumption | apply IH, set_add_NoDup, Hnd].
Qed.

Lemma fold_set_add_elem arr seen y :
  y ∈ fold_left set_add arr seen ↔ y ∈ seen ∨ y ∈ arr.
Proof.
  revert seen. induction arr as [|x arr IH]; intros seen; simpl.
  - rewrite elem_of_nil. tauto.
  - rewrite IH, set_add_elem, elem_of_cons. tauto.
Qed.

Lemma array_from_set_NoDup arr : NoDup (array_from_set arr).
Proof. apply fold_set_add_NoDup, NoDup_nil_2. Qed.

Lemma array_from_set_elem arr y : y ∈ array_from_set arr ↔ y ∈ arr.
Proof.
  unfold array_from_set. rewrite fold_set_add_elem, elem_of_nil. tauto.
Qed.

End set_facts.

(** ** The dork generator *)

Section generator.

Ltac template_list :=
  repeat first
    [ apply Forall_nil_2
    | apply Forall_cons_2; [first [apply includes_mid | apply includes_end] |] ].

Lemma generic_contains_domain d :
  Forall (λ e, includes d e = true) (generateGenericDorks d).
Proof. unfold generateGenericDorks. template_list. Qed.

Lemma aem_contains_domain d :
  Forall (λ e, includes d e = true) (generateAEMDorks d).
Proof. unfold generateAEMDorks. template_list. Qed.

Lemma cms_contains_domain d :
  Forall (λ e, includes d e = true) (generateCMSDorks d).
Proof. unfold generateCMSDorks. template_list. Qed.

Lemma ecommerce_contains_domain d :
  Forall (λ e, includes d e = true) (generateEcommerceDorks d).
Proof. unfold generateEcommerceDorks. template_list. Qed.

Lemma dorks_of_type_contains_domain type d :
  Forall (λ e, includes d e = true) (dorks_of_type type d).
Proof.
  unfold dorks_of_type.
  destruct type as [|[[[]|[]|]|[[]|[]|]|]|];
    first [ apply generic_contains_domain | apply aem_contains_domain
          | apply cms_contains_domain | apply ecommerce_contains_domain
          | apply Forall_nil_2 ].
Qed.

Lemma category_dorks_contain_domain types d acc :
  Forall (λ e, includes d e = true) acc →
  Forall (λ e, includes d e = true)
    (fold_left (λ dorks type, dorks ++ dorks_of_type type d) types acc).
Proof.
  revert acc. induction types as [|t types IH]; intros acc Hacc; simpl;
    [assumption|].
  apply IH, Forall_app. split; [assumption | apply dorks_of_type_contains_domain].
Qed.

Lemma alt_probe_contains_alt cfg e :
  is_alt_probe cfg e → ∃ alt, alt ∈ ALTERNATIVE_DOMAINS cfg ∧ includes alt e = true.
Proof.
  intros (alt & Hin & [-> | [-> | ->]]); exists alt; split; try assumption;
    first [apply includes_mid | apply includes_end].
Qed.

(** C3. For every domain [D] (valid or not), every category selection and
    every domain configuration, the list returned by [generateDorksList] has
    no duplicate strings, and each of its elements contains [D] as a
    substring, or is one of the fixed probes of a configured alternate
    domain, or is the path-derived string [site:D inurl:path] of a configured
    path. *)
Theorem generateDorksList_duplicate_free_and_shaped
    (cfg : domain_config) (types : list Z) (D : string) :
  NoDup (generateDorksList cfg types D) ∧
  ∀ e, e ∈ generateDorksList cfg types D →
    includes D e = true ∨ is_alt_probe cfg e ∨ is_path_dork cfg D e.
Proof.
  split; [apply array_from_set_NoDup|].
  intros e He. unfold generateDorksList in He.
  apply (proj1 (array_from_set_elem _ _)) in He.
  pose proof (category_dorks_contain_domain types D [] (Forall_nil_2 _)) as Hcat.
  rewrite Forall_forall in Hcat.
  assert (Halt : e ∈ flat_map alt_domain_dorks (ALTERNATIVE_DOMAINS cfg) →
                 is_alt_probe cfg e).
  { intros Hin. apply list_elem_of_In, in_flat_map in Hin.
    destruct Hin as (alt & Halt & Hin). exists alt.
    split; [apply list_elem_of_In, Halt|].
    simpl in Hin. intuition. }
  assert (Hpath : e ∈ map (path_dork D) (paths (DOMAIN_SETTINGS cfg)) →
                  is_path_dork cfg D e).
  { intros Hin. apply list_elem_of_In, in_map_iff in Hin.
    destruct Hin as (p & <- & Hp). exists p.
    split; [apply list_elem_of_In, Hp | reflexivity]. }
  destruct (includeVariations _ && _), (limitPaths _ && _).
  all: repeat (apply elem_of_app in He as [He|He]).
  all:  first [ left; apply Hcat, He | right; left; apply Halt, He
          | right; right; apply Hpath, He ].
Qed.

(** The path-derived strings contain the domain as well. *)
Lemma path_dork_contains_domain cfg d e :
  is_path_dork cfg d e → includes d e = true.
Proof. intros (p & _ & ->). apply includes_mid. Qed.

(** The scenario of the specification: for [example.com] and the generic
    category, [site:example.com filetype:log] occurs exactly once. *)
Example generic_filetype_log_once :
  length (filter (λ e, e = "site:example.com filetype:log")
            (generateDorksList shipped_config [1] "example.com")) = 1%nat.
Proof. vm_compute. reflexivity. Qed.

(** C8 as stated fails: the empty domain is invalid, yet the generator
    returns normally and goes on with strings such as [site: filetype:log]. *)
Lemma generateDorksList_empty_domain_returns :
  ¬ (∀ cfg types domain,
       domain_invalid domain ↔
       ∃ msg, generateDorksList_call cfg types domain = Throw msg).
Proof.
  intros H.
  destruct (proj1 (H shipped_config [1] EmptyString) eq_refl) as [msg Hmsg].
  discriminate Hmsg.
Qed.

Example empty_domain_dork :
  "site: filetype:log" ∈ generateDorksList shipped_config [1] EmptyString.
Proof. apply list_elem_of_In. vm_compute. tauto. Qed.

Lemma category_dorks_mono types d acc x :
  x ∈ acc →
  x ∈ fold_left (λ dorks type, dorks ++ dorks_of_type type d) types acc.
Proof.
  revert acc. induction types as [|t types IH]; intros acc Hx; simpl;
    [assumption|].
  apply IH, elem_of_app. auto.
Qed.

Lemma category_dorks_elem types d acc t x :
  t ∈ types → x ∈ dorks_of_type t d →
  x ∈ fold_left (λ dorks type, dorks ++ dorks_of_type type d) types acc.
Proof.
  revert acc. induction types as [|t' types IH]; intros acc Ht Hx; simpl.
  - inversion Ht.
  - apply elem_of_cons in Ht as [<- | Ht].
    + apply category_dorks_mono, elem_of_app. auto.
    + apply IH; assumption.
Qed.

Lemma generic_has_log_dork d :
  "site:" +:+ d +:+ " filetype:log" ∈ generateGenericDorks d.
Proof.
  unfold generateGenericDorks.
  repeat first [apply list_elem_of_here | apply list_elem_of_further].
Qed.

(** C8, amended. The generator never fails and checks no domain: for every
    domain string, the empty one included, every category selection and
    every configuration it returns a list, which depends on nothing but
    its arguments; with the generic category selected that list holds
    [site:D filetype:log] for whatever [D] it was given. *)
Theorem generateDorksList_never_throws
    (cfg : domain_config) (types : list Z) (domain : string) :
  generateDorksList_call cfg types domain
  = Return (generateDorksList cfg types domain)
  ∧ (∀ msg, generateDorksList_call cfg types domain ≠ Throw msg)
  ∧ (1 ∈ types →
     "site:" +:+ domain +:+ " filetype:log" ∈ generateDorksList cfg types domain).
Proof.
  split; [reflexivity|]. split; [intros msg H; discriminate H|].
  intros Hgeneric. unfold generateDorksList.
  apply array_from_set_elem.
  assert (Hin : "site:" +:+ domain +:+ " filetype:log"
                ∈ fold_left (λ dorks type, dorks ++ dorks_of_type type domain)
                    types []).
  { eapply category_dorks_elem; [exact Hgeneric | apply generic_has_log_dork]. }
  destruct (includeVariations _ && _), (limitPaths _ && _);
    repeat (apply elem_of_app; left); exact Hin.
Qed.

End generator.
(** ** The challenge detector *)

Section detector.

(** C2. For every page handle on which [detectCaptchaOrBlock] gets as far as
    its in-page evaluation (the handle is not null and the page is open), if
    that evaluation throws, the detector returns [true]. *)
Theorem detector_evaluation_error_is_detected (p : page_state) (msg : string) :
  isClosed p = false →
  evaluate p detect_script = Throw msg →
  detectCaptchaOrBlock (Some p) = Return true.
Proof.
  intros Hopen Hthrow. unfold detectCaptchaOrBlock.
  rewrite Hopen, Hthrow. reflexivity.
Qed.

Lemma evaluate_throws_iff {A} (p : page_state) (f : window → A) msg :
  evaluate p f = Throw msg ↔ evaluate_error p = Some msg.
Proof.
  unfold evaluate. destruct (evaluate_error p); split; congruence.
Qed.

(** C10. For every open page on which the evaluation completes and whose
    document has no body, the detector returns [false], whatever the
    selectors match and however many grid images there are. *)
Theorem detector_without_body_reports_nothing (p : page_state) :
  isClosed p = false →
  evaluate_error p = None →
  body (the_document (win p)) = None →
  detectCaptchaOrBlock (Some p) = Return false
  ∧ detected (detect_script (win p)) = false.
Proof.
  intros Hopen Heval Hbody.
  unfold detectCaptchaOrBlock, evaluate, detect_script.
  rewrite Hopen, Heval, Hbody. split; reflexivity.
Qed.

(** Without a body the verdict does not depend on the rest of the
    document. *)
Lemma detect_script_without_body (w w' : window) :
  body (the_document w) = None → body (the_document w') = None →
  detect_script w = detect_script w'.
Proof. intros H H'. unfold detect_script. rewrite H, H'. reflexivity. Qed.


End detector.

(** ** The operator interface *)

Section readline_facts.

Lemma lower_char_s_not_space c :
  lower_char c = "s"%char → is_space c = false.
Proof.
  destruct c as [[] [] [] [] [] [] [] []]; vm_compute; congruence.
Qed.

Lemma skip_line_not_blank line :
  toLowerCase line = "skip" → line ≠ EmptyString ∧ is_blank line = false.
Proof.
  destruct line as [|c line]; simpl; [discriminate|].
  intros [= Hc _]. split; [discriminate|].
  rewrite (lower_char_s_not_space c Hc). reflexivity.
Qed.

Lemma unshift_capped_head size line h :
  (0 < size)%nat → head (unshift_capped size line h) = Some line.
Proof.
  intros Hsize. unfold unshift_capped. case_bool_decide as Hlen; [|reflexivity].
  destruct h as [|x h]; simpl in *; [lia | reflexivity].
Qed.

(** In terminal mode the front of the history is the line just submitted,
    when that line is not blank. *)
Lemma submit_line_head r line :
  terminal r = true → (0 < historySize r)%nat →
  line ≠ EmptyString → is_blank line = false →
  ∃ h, history (submit_line r line) = Some (line :: h).
Proof.
  intros Hterm Hsize Hne Hblank. unfold submit_line, add_history.
  rewrite Hterm, Hblank.
  rewrite (bool_decide_eq_false_2 _ Hne).
  rewrite bool_decide_eq_false_2 by lia.
  case_bool_decide as Hhead.
  - destruct (history r) as [[|x h]|]; simpl in Hhead; try discriminate.
    injection Hhead as ->. eauto.
  - simpl. pose proof (unshift_capped_head (historySize r) line
                         (default [] (history r)) Hsize) as Hh.
    destruct (unshift_capped _ _ _) as [|x h]; simpl in Hh; [discriminate|].
    injection Hh as ->. eauto.
Qed.

Lemma skip_requested_after_submit r line :
  terminal r = true → (0 < historySize r)%nat →
  toLowerCase line = "skip" →
  skip_requested (submit_line r line) = true.
Proof.
  intros Hterm Hsize Hskip.
  destruct (skip_line_not_blank line Hskip) as [Hne Hblank].
  destruct (submit_line_head r line Hterm Hsize Hne Hblank) as [h Hh].
  unfold skip_requested. rewrite Hh. apply bool_decide_eq_true_2, Hskip.
Qed.

(** Outside terminal mode the interface records nothing. *)
Lemma submit_line_no_terminal r line :
  terminal r = false → submit_line r line = r.
Proof. intros H. unfold submit_line. rewrite H. reflexivity. Qed.

End readline_facts.

(** ** The human handoff controller *)

Section handoff_facts.

Variable detect : option page_state → completion bool.

Lemma waitForCaptchaResolution_enters timeoutMs env w w0 :
  enters_handoff detect env w = Some w0 →
  waitForCaptchaResolution_with detect timeoutMs env w
  = await_loop detect timeoutMs (clock w0) false w0 (script env).
Proof.
  unfold enters_handoff, waitForCaptchaResolution_with.
  destruct (page0 env) as [p|]; [|discriminate].
  destruct (isClosed p); [discriminate|].
  destruct (match detect (Some p) with Return b => b | Throw _ => true end);
    [|discriminate].
  intros [= <-]. reflexivity.
Qed.

Lemma await_loop_through timeoutMs startTime w pre wk s :
  awaiting_after detect timeoutMs startTime w pre = Some wk →
  await_loop detect timeoutMs startTime false w (pre ++ s)
  = await_loop detect timeoutMs startTime false wk s.
Proof.
  revert w. induction pre as [|c pre IH]; intros w; simpl.
  - intros [= <-]. reflexivity.
  - destruct (clock w - startTime <? timeoutMs); [|discriminate]. simpl.
    destruct (loop_body detect w c) as [[b|[|]] w']; try discriminate.
    apply IH.
Qed.

Lemma await_loop_cycle timeoutMs startTime w c s :
  clock w - startTime < timeoutMs →
  await_loop detect timeoutMs startTime false w (c :: s)
  = match loop_body detect w c with
    | (BodyReturn b, w') => (Some b, w')
    | (BodyNext resolved', w') => await_loop detect timeoutMs startTime resolved' w' s
    end.
Proof.
  intros Hlt. simpl. apply Z.ltb_lt in Hlt. rewrite Hlt. reflexivity.
Qed.

Lemma await_loop_resolved timeoutMs startTime w s :
  await_loop detect timeoutMs startTime true w s = (Some true, w).
Proof. destruct s; simpl; rewrite andb_false_r; reflexivity. Qed.


End handoff_facts.

(** On a terminal interface the skip token works: while the controller
    waits for the operator (the handoff was entered, the cycles so far left
    the challenge detected, and the timeout has not expired when the prompt
    is issued), if the operator submits the skip token,
    [waitForCaptchaResolution] returns [false] at the instant the answer
    arrives: no detector call and no further prompt follow, whatever time
    remains before the timeout. *)
Lemma skip_token_returns_false_at_once
    (detect : option page_state → completion bool) (timeoutMs : Z)
    (env : handoff_env) (w w0 wk : world) (pre rest : list cycle) (c : cycle) :
  enters_handoff detect env w = Some w0 →
  script env = pre ++ c :: rest →
  awaiting_after detect timeoutMs (clock w0) w0 pre = Some wk →
  clock wk - clock w0 < timeoutMs →
  terminal (rl wk) = true →
  (0 < historySize (rl wk))%nat →
  toLowerCase (answer_line c) = "skip" →
  waitForCaptchaResolution_with detect timeoutMs env w
  = (Some false,
     {| clock := clock wk + answer_after c;
        rl := submit_line (rl wk) (answer_line c) |}).
Proof.
  intros Henter Hscript Hpre Htime Hterm Hsize Hskip.
  rewrite (waitForCaptchaResolution_enters _ _ _ _ _ Henter), Hscript.
  rewrite (await_loop_through _ _ _ _ _ _ _ Hpre).
  rewrite await_loop_cycle by assumption.
  unfold loop_body. simpl.
  rewrite (skip_requested_after_submit _ _ Hterm Hsize Hskip). reflexivity.
Qed.

(** C7. The skip token is not seen outside terminal mode.  The interface of
    the module is created without a [terminal] option, so it is in terminal
    mode only when the output is a TTY; the answer to the prompt is dropped
    and the controller reads the front of the history, which is filled in
    terminal mode only.  With the output piped or redirected and nothing in
    the history, the skip token is handled like ENTER alone: while the
    controller waits for the operator, if the operator submits the skip
    token and the page is then open and free of challenges,
    [waitForCaptchaResolution] returns [true]. *)
Theorem skip_token_is_not_seen_without_terminal
    (timeoutMs : Z) (env : handoff_env) (w w0 wk : world)
    (pre rest : list cycle) (c : cycle) :
  enters_handoff detectCaptchaOrBlock env w = Some w0 →
  script env = pre ++ c :: rest →
  awaiting_after detectCaptchaOrBlock timeoutMs (clock w0) w0 pre = Some wk →
  clock wk - clock w0 < timeoutMs →
  terminal (rl wk) = false →
  skip_requested (rl wk) = false →
  toLowerCase (answer_line c) = "skip" →
  isClosed (page_then c) = false →
  detectCaptchaOrBlock (Some (page_then c)) = Return false →
  waitForCaptchaResolution timeoutMs env w
  = (Some true,
     {| clock := clock wk + answer_after c + recheck_takes c; rl := rl wk |}).
Proof.
  intros Henter Hscript Hpre Htime Hterm Hfront Hskip Hopen Hclear.
  unfold waitForCaptchaResolution.
  rewrite (waitForCaptchaResolution_enters _ _ _ _ _ Henter), Hscript.
  rewrite (await_loop_through _ _ _ _ _ _ _ Hpre).
  rewrite await_loop_cycle by assumption.
  unfold loop_body. cbn [rl clock advance].
  rewrite (submit_line_no_terminal _ _ Hterm), Hfront, Hopen, Hclear.
  apply await_loop_resolved.
Qed.


(** With the detector of the module the re-check cannot throw: the loop has
    just seen the page open, and the detector throws for a closed page
    only. *)
Lemma module_detector_recheck_returns (c : cycle) :
  isClosed (page_then c) = false →
  ∃ b, detectCaptchaOrBlock (Some (page_then c)) = Return b.
Proof.
  intros Hopen. unfold detectCaptchaOrBlock. rewrite Hopen.
  destruct (evaluate _ _) as [b|]; [destruct (detected b)|]; eauto.
Qed.

(** ** The page stability waiter *)

Section stability_facts.

Variable env : stability_env.
Variables stableTime maxWaitTime : Z.

Lemma stability_loop_through n : ∀ fuel startTime k now l s nowk lk sk,
  polled_through env stableTime maxWaitTime n startTime k now l s
    = Some (nowk, lk, sk) →
  stability_loop env stableTime maxWaitTime (n + fuel) startTime k now l s
  = stability_loop env stableTime maxWaitTime fuel startTime (k + n) nowk lk sk.
Proof.
  induction n as [|n IH]; intros fuel startTime k now l s nowk lk sk; simpl.
  - intros [= <- <- <-]. rewrite Nat.add_0_r. reflexivity.
  - destruct (now - startTime <? maxWaitTime); [|discriminate].
    destruct (stability_pass _ _ _ _ _) as [c|now' l' s']; [discriminate|].
    intros H. rewrite (IH _ _ _ _ _ _ _ _ _ H).
    replace (S k + n)%nat with (k + S n)%nat by lia. reflexivity.
Qed.

Lemma stability_loop_timeout fuel startTime k now l s :
  maxWaitTime ≤ now - startTime →
  stability_loop env stableTime maxWaitTime (S fuel) startTime k now l s
  = Some (Return true).
Proof.
  intros H. simpl. apply Z.ltb_ge in H. rewrite H. reflexivity.
Qed.

Lemma stability_pass_throws p now l s msg :
  stability_pass stableTime p now l s = PassEnds (Throw msg) →
  isClosed (poll_page p) = true.
Proof.
  unfold stability_pass. destruct (isClosed (poll_page p)); [reflexivity|].
  destruct (evaluate _ _) as [st|]; [|discriminate].
  destruct (stableTime <=? _); discriminate.
Qed.

Lemma stability_loop_throws fuel : ∀ startTime k now l s msg,
  stability_loop env stableTime maxWaitTime fuel startTime k now l s
    = Some (Throw msg) →
  ∃ j, (k ≤ j)%nat ∧ isClosed (poll_page (polls env j)) = true.
Proof.
  induction fuel as [|fuel IH]; intros startTime k now l s msg; simpl;
    [discriminate|].
  destruct (now - startTime <? maxWaitTime); [|discriminate].
  destruct (stability_pass _ _ _ _ _) as [c|now' l' s'] eqn:Hpass.
  - intros [= ->]. exists k. split; [lia|].
    eapply stability_pass_throws, Hpass.
  - intros H. destruct (IH _ _ _ _ _ _ H) as (j & Hj & Hc).
    exists j. split; [lia | assumption].
Qed.

Lemma stability_loop_false fuel : ∀ startTime k now l s,
  stability_loop env stableTime maxWaitTime fuel startTime k now l s
    = Some (Return false) →
  ∃ j msg, evaluate_error (poll_page (polls env j)) = Some msg.
Proof.
  induction fuel as [|fuel IH]; intros startTime k now l s; simpl;
    [discriminate|].
  destruct (now - startTime <? maxWaitTime); [|discriminate].
  unfold stability_pass, evaluate.
  destruct (isClosed (poll_page (polls env k))); [discriminate|].
  destruct (evaluate_error (poll_page (polls env k))) as [msg|] eqn:He; [eauto|].
  destruct (stableTime <=? _); [discriminate | apply IH].
Qed.

(** Time moves on at every pass when the timer sleeps at least its 500 ms
    and evaluations take no negative time. *)
Lemma stability_pass_progress p now l s now' l' s' :
  0 ≤ stats_takes p → 500 ≤ sleep_takes p →
  stability_pass stableTime p now l s = PassNext now' l' s' →
  now + 500 ≤ now'.
Proof.
  intros Hst Hsl. unfold stability_pass.
  destruct (isClosed _); [discriminate|].
  destruct (evaluate _ _) as [st|]; [|discriminate].
  destruct (stableTime <=? _); [discriminate|].
  intros [= <- _ _]. lia.
Qed.

(** The loop returns: enough fuel is any number of passes above
    [maxWaitTime / 500]. *)
Lemma stability_loop_returns fuel : ∀ startTime k now l s,
  (∀ j, 0 ≤ stats_takes (polls env j) ∧ 500 ≤ sleep_takes (polls env j)) →
  maxWaitTime - (now - startTime) ≤ 500 * Z.of_nat fuel →
  ∃ c, stability_loop env stableTime maxWaitTime (S fuel) startTime k now l s
       = Some c.
Proof.
  induction fuel as [|fuel IH]; intros startTime k now l s Henv Hfuel.
  - rewrite stability_loop_timeout by lia. eauto.
  - change (stability_loop env stableTime maxWaitTime (S (S fuel)) startTime k now l s)
      with (if now - startTime <? maxWaitTime then
              match stability_pass stableTime (polls env k) now l s with
              | PassEnds c => Some c
              | PassNext now' l' s' =>
                  stability_loop env stableTime maxWaitTime (S fuel) startTime
                    (S k) now' l' s'
              end
            else Some (Return true)).
    destruct (now - startTime <? maxWaitTime); [|eauto].
    destruct (stability_pass _ _ _ _ _) as [c|now' l' s'] eqn:Hpass; [eauto|].
    destruct (Henv k) as [Hst Hsl].
    pose proof (stability_pass_progress _ _ _ _ _ _ _ Hst Hsl Hpass).
    apply IH; [assumption | lia].
Qed.

End stability_facts.

(** C5. For a page that is open when [waitForPageStability] is called and
    on which the observers are installed: if the loop went through [n]
    passes without seeing a stable window and [maxWaitTime] has then
    elapsed, the function returns [true]; and whenever the function throws,
    the page was null or closed at the call or closed at the head of some
    pass. *)
Theorem stability_timeout_returns_true
    (env : stability_env) (stableTime maxWaitTime now : Z) (fuel n : nat)
    (p : page_state) (nowk lk sk : Z) :
  stab_page0 env = Some p →
  isClosed p = false →
  evaluate_error p = None →
  polled_through env stableTime maxWaitTime n now 0 (now + setup_takes env) now 0
    = Some (nowk, lk, sk) →
  maxWaitTime ≤ nowk - now →
  (n < fuel)%nat →
  waitForPageStability env stableTime maxWaitTime fuel now = Some (Return true)
  ∧ ∀ env' fuel' now' msg,
      waitForPageStability env' stableTime maxWaitTime fuel' now'
        = Some (Throw msg) →
      stab_page0 env' = None
      ∨ (∃ p', stab_page0 env' = Some p' ∧ isClosed p' = true)
      ∨ ∃ j, isClosed (poll_page (polls env' j)) = true.
Proof.
  intros Hp Hopen Heval Hthrough Hmax Hfuel. split.
  - unfold waitForPageStability, evaluate. rewrite Hp, Hopen, Heval.
    replace fuel with (n + S (fuel - S n))%nat by lia.
    rewrite (stability_loop_through _ _ _ _ _ _ _ _ _ _ _ _ _ Hthrough).
    apply stability_loop_timeout, Hmax.
  - intros env' fuel' now' msg. unfold waitForPageStability.
    destruct (stab_page0 env') as [p'|]; [|auto].
    destruct (isClosed p') eqn:Hc; [eauto 6|].
    destruct (evaluate p' _); [|discriminate].
    intros H. apply stability_loop_throws in H as (j & _ & Hj). eauto.
Qed.

(** X12. [waitForPageStability] returns [false] only after an evaluation
    was rejected, at the set-up or in a pass: a page that merely keeps
    changing is never reported as unstable. *)
Lemma waitForPageStability_false_only_on_error
    (env : stability_env) (stableTime maxWaitTime now : Z) (fuel : nat) :
  waitForPageStability env stableTime maxWaitTime fuel now = Some (Return false) →
  (∃ p msg, stab_page0 env = Some p ∧ evaluate_error p = Some msg)
  ∨ ∃ j msg, evaluate_error (poll_page (polls env j)) = Some msg.
Proof.
  unfold waitForPageStability.
  destruct (stab_page0 env) as [p|]; [|discriminate].
  destruct (isClosed p); [discriminate|].
  unfold evaluate at 1. destruct (evaluate_error p) as [msg|] eqn:Hp; [eauto|].
  intros H. right. eapply stability_loop_false, H.
Qed.

(** X13. [waitForPageStability] returns or throws within a number of
    passes that grows with [maxWaitTime / 500], in every environment whose
    timer sleeps at least its 500 ms and whose evaluations take no negative
    time. *)
Lemma waitForPageStability_returns
    (env : stability_env) (stableTime maxWaitTime now : Z) (fuel : nat) :
  0 ≤ setup_takes env →
  (∀ j, 0 ≤ stats_takes (polls env j) ∧ 500 ≤ sleep_takes (polls env j)) →
  maxWaitTime ≤ 500 * Z.of_nat fuel →
  ∃ c, waitForPageStability env stableTime maxWaitTime (S fuel) now = Some c.
Proof.
  intros Hsetup Henv Hfuel. unfold waitForPageStability.
  destruct (stab_page0 env) as [p|]; [|eauto].
  destruct (isClosed p); [eauto|].
  destruct (evaluate p _); [|eauto].
  apply stability_loop_returns; [assumption | lia].
Qed.

(** ** JSON text *)

Module JSON_facts.
Import JSON.

(** *** Strings *)

Lemma read_escape_char c t :
  read_string_body (escape_char c t) = push_char c (read_string_body t).
Proof. destruct c as [[] [] [] [] [] [] [] []]; reflexivity. Qed.

Lemma read_string_body_escape s k :
  read_string_body (escape s (String quote_mark k)) = Some (s, k).
Proof.
  induction s as [|c s IH]; [reflexivity|].
  simpl escape. rewrite read_escape_char, IH. reflexivity.
Qed.

Lemma skip_ws_quoted s k : skip_ws (write_quoted s k) = write_quoted s k.
Proof. reflexivity. Qed.

Lemma read_value_string fuel s k :
  read_value (S fuel) (write_quoted s k) = Some (Str s, k).
Proof.
  unfold write_quoted. simpl.
  rewrite read_string_body_escape. reflexivity.
Qed.

(** *** White space *)

Lemma skip_ws_spaces n k : skip_ws (Nat.iter n (String " ") k) = skip_ws k.
Proof. induction n as [|n IH]; [reflexivity | exact IH]. Qed.

Lemma skip_ws_newline depth k : skip_ws (newline depth k) = skip_ws k.
Proof. unfold newline, indent. simpl skip_ws at 1. apply skip_ws_spaces. Qed.

Lemma skip_ws_space k : skip_ws (String " " k) = skip_ws k.
Proof. reflexivity. Qed.

(** *** Numbers *)

Lemma read_digits_string_of_uint d k :
  ends_number k →
  read_digits (DecimalString.NilEmpty.string_of_uint d +:+ k) = (d, k).
Proof.
  intros Hk. induction d as [|d IH|d IH|d IH|d IH|d IH|d IH|d IH|d IH|d IH|d IH];
    simpl; try (rewrite IH; reflexivity).
  destruct k as [|c k]; [reflexivity|]. simpl. destruct Hk as [-> _]. reflexivity.
Qed.

Lemma uint_beq_refl d : Decimal.uint_beq d d = true.
Proof. induction d; simpl; auto. Qed.

Lemma unorm_to_uint p : Decimal.unorm (Pos.to_uint p) = Pos.to_uint p.
Proof.
  rewrite <- (DecimalPos.Unsigned.to_of (Pos.to_uint p)).
  rewrite DecimalPos.Unsigned.of_to. reflexivity.
Qed.

Lemma read_number_digits (negative : bool) d k :
  d ≠ Decimal.Nil → Decimal.unorm d = d → ends_number k →
  read_number
    (DecimalString.NilEmpty.string_of_int
       (if negative then Decimal.Neg d else Decimal.Pos d) +:+ k)
  = Some (Z.of_int (if negative then Decimal.Neg d else Decimal.Pos d), k).
Proof.
  intros Hnil Hnorm Hk.
  assert (Hfrac : starts_fraction k = false).
  { destruct k; [reflexivity | apply Hk]. }
  destruct negative.
  - unfold read_number. simpl.
    rewrite (read_digits_string_of_uint d k Hk), Hnorm, uint_beq_refl, Hfrac.
    reflexivity.
  - unfold read_number.
    assert (Hsign :
      match DecimalString.NilEmpty.string_of_int (Decimal.Pos d) +:+ k with
      | String c r =>
          if (N_of_ascii c =? 45)%N then (true, r)
          else (false, DecimalString.NilEmpty.string_of_int (Decimal.Pos d) +:+ k)
      | EmptyString =>
          (false, DecimalString.NilEmpty.string_of_int (Decimal.Pos d) +:+ k)
      end = (false, DecimalString.NilEmpty.string_of_uint d +:+ k)).
    { destruct d; try reflexivity. contradiction. }
    rewrite Hsign.
    rewrite (read_digits_string_of_uint d k Hk), Hnorm, uint_beq_refl, Hfrac.
    reflexivity.
Qed.

Lemma read_number_write z k :
  ends_number k → read_number (write_number z k) = Some (z, k).
Proof.
  intros Hk. unfold write_number.
  rewrite <- (DecimalZ.of_to z) at 2.
  destruct z as [|p|p]; simpl Z.to_int.
  - apply (read_number_digits false); [discriminate | reflexivity | assumption].
  - apply (read_number_digits false);
      [apply DecimalPos.Unsigned.to_uint_nonnil | apply unorm_to_uint | assumption].
  - apply (read_number_digits true);
      [apply DecimalPos.Unsigned.to_uint_nonnil | apply unorm_to_uint | assumption].
Qed.


(** *** Equations of the reader *)

Lemma skip_ws_idem s : skip_ws (skip_ws s) = skip_ws s.
Proof.
  induction s as [|c s IH]; [reflexivity|]. simpl.
  destruct (is_ws c) eqn:Hc; [exact IH|]. simpl. rewrite Hc. reflexivity.
Qed.

Lemma read_value_ws fuel s : read_value fuel (skip_ws s) = read_value fuel s.
Proof. destruct fuel; [reflexivity|]. simpl. rewrite skip_ws_idem. reflexivity. Qed.

Lemma read_elements_eq fuel s :
  read_elements (S fuel) s =
  match read_value fuel s with
  | None => None
  | Some (v, r) =>
      match skip_ws r with
      | EmptyString => None
      | String c r' =>
          if (N_of_ascii c =? 44)%N then
            match read_elements fuel r' with
            | Some (items, rest) => Some (v :: items, rest)
            | None => None
            end
          else if (N_of_ascii c =? 93)%N then Some ([v], r')
          else None
      end
  end.
Proof. reflexivity. Qed.

Lemma read_value_array fuel r c' r' :
  skip_ws r = String c' r' → (N_of_ascii c' =? 93)%N = false →
  read_value (S fuel) (String "[" r) =
  match read_elements fuel r with
  | Some (items, rest) => Some (Array items, rest)
  | None => None
  end.
Proof. intros Hr Hc. simpl. rewrite Hr, Hc. reflexivity. Qed.

Lemma read_value_object fuel r c' r' :
  skip_ws r = String c' r' → (N_of_ascii c' =? 125)%N = false →
  read_value (S fuel) (String "{" r) =
  match read_members fuel r with
  | Some (members, rest) => Some (Object members, rest)
  | None => None
  end.
Proof. intros Hr Hc. simpl. rewrite Hr, Hc. reflexivity. Qed.

Lemma read_value_quoted_after_newline fuel depth s k :
  read_value (S fuel) (newline depth (write_quoted s k)) = Some (Str s, k).
Proof.
  rewrite <- read_value_ws, skip_ws_newline, skip_ws_quoted.
  apply read_value_string.
Qed.

(** One member [key: value], then a comma or the closing brace. *)
Lemma read_members_member fuel depth key W v K :
  read_value fuel W = Some (v, K) →
  read_members (S fuel)
    (newline depth (write_quoted key (String ":" (String " " W))))
  = match skip_ws K with
    | EmptyString => None
    | String c r =>
        if (N_of_ascii c =? 44)%N then
          match read_members fuel r with
          | Some (members, rest) => Some ((key, v) :: members, rest)
          | None => None
          end
        else if (N_of_ascii c =? 125)%N then Some ([(key, v)], r)
        else None
    end.
Proof.
  intros HW.
  change (read_members (S fuel) ?s) with
    (match skip_ws s with
     | EmptyString => None
     | String c r =>
         if (N_of_ascii c =? 34)%N then
           match read_string_body r with
           | None => None
           | Some (key, r1) =>
               match skip_ws r1 with
               | EmptyString => None
               | String c1 r2 =>
                   if (N_of_ascii c1 =? 58)%N then
                     match read_value fuel r2 with
                     | None => None
                     | Some (v, r3) =>
                         match skip_ws r3 with
                         | EmptyString => None
                         | String c3 r4 =>
                             if (N_of_ascii c3 =? 44)%N then
                               match read_members fuel r4 with
                               | Some (members, rest) =>
                                   Some ((key, v) :: members, rest)
                               | None => None
                               end
                             else if (N_of_ascii c3 =? 125)%N
                             then Some ([(key, v)], r4)
                             else None
                         end
                     end
                   else None
               end
           end
         else None
     end).
  rewrite skip_ws_newline, skip_ws_quoted. unfold write_quoted at 1.
  rewrite (N.eqb_refl 34 : (N_of_ascii quote_mark =? 34)%N = true).
  rewrite read_string_body_escape.
  cbv beta iota.
  change (skip_ws (String ":" (String " " W))) with (String ":" (String " " W)).
  cbv beta iota.
  rewrite (N.eqb_refl 58 : (N_of_ascii ":" =? 58)%N = true).
  rewrite <- (read_value_ws fuel (String " " W)), skip_ws_space, read_value_ws, HW.
  reflexivity.
Qed.

(** *** Arrays of strings *)

Lemma map_write_strings depth (l : list string) :
  map (λ x, write depth x) (map Str l) = map write_quoted l.
Proof. induction l as [|x l IH]; simpl; [reflexivity | f_equal; exact IH]. Qed.

Lemma read_elements_strings depth k xs : ∀ x fuel,
  (length xs + 2 ≤ fuel)%nat →
  read_elements fuel
    (newline (S depth) (write_quoted x
       (fold_right (λ item acc, String "," (newline (S depth) (item acc)))
          (newline depth (String "]" k)) (map write_quoted xs))))
  = Some (map Str (x :: xs), k).
Proof.
  induction xs as [|y xs IH]; intros x fuel Hfuel;
    (destruct fuel as [|[|fuel]]; [simpl in Hfuel; lia .. |]);
    rewrite read_elements_eq, read_value_quoted_after_newline.
  - simpl fold_right. rewrite skip_ws_newline. reflexivity.
  - simpl fold_right.
    match goal with
    | |- context [skip_ws (String "," ?t)] =>
        change (skip_ws (String "," t)) with (String "," t)
    end.
    cbv beta iota.
    rewrite (N.eqb_refl 44 : (N_of_ascii "," =? 44)%N = true).
    rewrite IH by (simpl in Hfuel; lia). reflexivity.
Qed.

Lemma read_value_string_array depth (l : list string) k fuel :
  (length l + 2 ≤ fuel)%nat →
  read_value fuel (write depth (Array (map Str l)) k)
  = Some (Array (map Str l), k).
Proof.
  intros Hfuel. destruct fuel as [|fuel]; [lia|].
  cbn [write]. rewrite map_write_strings.
  destruct l as [|x xs]; [reflexivity|].
  cbn [map write_seq].
  erewrite read_value_array;
    [ | rewrite skip_ws_newline; apply skip_ws_quoted | reflexivity ].
  rewrite read_elements_strings by (simpl in Hfuel; lia). reflexivity.
Qed.

End JSON_facts.
(** ** The checkpoint store *)

Module checkpoint_facts.
Import JSON JSON_facts.

(** *** Numbers and keywords as values *)

Lemma read_value_number_start fuel c r :
  is_number_start c = true →
  read_value (S fuel) (String c r) =
  match read_number (String c r) with
  | Some (z, rest) => Some (Number z, rest)
  | None => None
  end.
Proof.
  destruct c as [[] [] [] [] [] [] [] []]; try discriminate; reflexivity.
Qed.

Lemma write_number_start z k :
  ∃ c r, write_number z k = String c r ∧ is_number_start c = true.
Proof.
  unfold write_number. destruct z as [|p|p]; simpl Z.to_int.
  - eexists _, _. split; reflexivity.
  - pose proof (DecimalPos.Unsigned.to_uint_nonnil p) as Hnil.
    destruct (Pos.to_uint p); try contradiction;
      (eexists _, _; split; reflexivity).
  - eexists _, _. split; reflexivity.
Qed.

Lemma read_value_number fuel z k :
  ends_number k → read_value (S fuel) (write_number z k) = Some (Number z, k).
Proof.
  intros Hk. destruct (write_number_start z k) as (c & r & Heq & Hc).
  pose proof (read_number_write z k Hk) as Hread. rewrite Heq in *.
  rewrite (read_value_number_start _ _ _ Hc), Hread. reflexivity.
Qed.

Lemma read_value_null fuel k : read_value (S fuel) ("null" +:+ k) = Some (Null, k).
Proof. reflexivity. Qed.

(** *** Every writer makes the text longer *)

Lemma length_escape_char c k :
  (String.length k < String.length (escape_char c k))%nat.
Proof. destruct c as [[] [] [] [] [] [] [] []]; simpl; lia. Qed.

Lemma length_escape s k : (String.length k ≤ String.length (escape s k))%nat.
Proof.
  induction s as [|c s IH]; simpl; [lia|].
  pose proof (length_escape_char c (escape s k)). lia.
Qed.

Lemma length_write_quoted s k :
  (2 + String.length k ≤ String.length (write_quoted s k))%nat.
Proof.
  unfold write_quoted. simpl.
  pose proof (length_escape s (String quote_mark k)) as H. simpl in H. lia.
Qed.

Lemma length_spaces n k :
  String.length (Nat.iter n (String " ") k) = (n + String.length k)%nat.
Proof. induction n as [|n IH]; simpl; [reflexivity | rewrite IH; reflexivity]. Qed.

Lemma length_newline depth k :
  (String.length k < String.length (newline depth k))%nat.
Proof. unfold newline, indent. simpl. rewrite length_spaces. lia. Qed.

Lemma length_append s k :
  (String.length k ≤ String.length (s +:+ k))%nat.
Proof.
  induction s as [|c s IH]; [exact (Nat.le_refl _) | simpl; lia].
Qed.

Lemma length_string_items depth K (xs : list string) :
  (length xs + String.length K
   ≤ String.length
       (fold_right (λ item acc, String "," (newline depth (item acc))) K
          (map write_quoted xs)))%nat.
Proof.
  induction xs as [|x xs IH]; cbn [fold_right map length]; [lia|].
  match goal with
  | |- context [newline depth (write_quoted x ?t)] =>
      pose proof (length_newline depth (write_quoted x t));
      pose proof (length_write_quoted x t)
  end.
  cbn [String.length]. lia.
Qed.

Lemma length_string_array depth (l : list string) k :
  (length l + String.length k
   ≤ String.length (write depth (Array (map Str l)) k))%nat.
Proof.
  cbn [write]. rewrite map_write_strings.
  destruct l as [|x xs]; cbn [write_seq map length String.length]; [lia|].
  match goal with
  | |- context [newline ?d (write_quoted x (fold_right ?f ?K ?items))] =>
      pose proof (length_newline d (write_quoted x (fold_right f K items)));
      pose proof (length_write_quoted x (fold_right f K items));
      pose proof (length_string_items (S depth) K xs);
      pose proof (length_newline depth (String "]" k))
  end.
  cbn [String.length] in *. lia.
Qed.

(** *** The text of a checkpoint *)

Lemma stringify_checkpoint i content processed timestamp :
  stringify (checkpoint_object i content processed timestamp)
  = String "{" (newline 1 (write_quoted "lastIndex" (String ":" (String " "
      (write_number i (String "," (content_member content processed timestamp))))))).
Proof. reflexivity. Qed.

Lemma length_processed_member processed timestamp :
  (length processed ≤ String.length (processed_member processed timestamp))%nat.
Proof.
  unfold processed_member.
  match goal with
  | |- context [write 1 (Array (map Str processed)) ?k] =>
      pose proof (length_string_array 1 processed k) as Harr;
      pose proof (length_write_quoted "processedDorks"
                    (String ":" (String " " (write 1 (Array (map Str processed)) k))))
        as Hkey;
      pose proof (length_newline 1
                    (write_quoted "processedDorks"
                       (String ":" (String " " (write 1 (Array (map Str processed)) k)))))
  end.
  cbn [String.length] in Hkey. lia.
Qed.

Lemma length_content_member content processed timestamp :
  (length processed + 4 ≤ String.length (content_member content processed timestamp))%nat.
Proof.
  unfold content_member.
  pose proof (length_processed_member processed timestamp) as Hp.
  match goal with
  | |- context [write_quoted "reportContent" ?k] =>
      pose proof (length_write_quoted "reportContent" k) as Hkey;
      pose proof (length_newline 1 (write_quoted "reportContent" k))
  end.
  destruct content as [s|].
  - cbn [write] in *.
    match type of Hkey with
    | context [write_quoted s ?k] => pose proof (length_write_quoted s k) as Hs
    end.
    cbn [String.length] in Hkey, Hs. lia.
  - cbn [write] in *.
    match type of Hkey with
    | context [String.append ?a ?k] => pose proof (length_append a k) as Hs
    end.
    cbn [String.length] in Hkey, Hs. lia.
Qed.

Lemma length_stringify_checkpoint i content processed timestamp :
  (length processed + 6
   ≤ String.length (stringify (checkpoint_object i content processed timestamp)))%nat.
Proof.
  rewrite stringify_checkpoint.
  pose proof (length_content_member content processed timestamp) as Hc.
  match goal with
  | |- context [write_quoted "lastIndex" ?k] =>
      pose proof (length_write_quoted "lastIndex" k) as Hkey;
      pose proof (length_newline 1 (write_quoted "lastIndex" k))
  end.
  match type of Hkey with
  | context [write_number i ?k] =>
      pose proof (length_append
                    (DecimalString.NilEmpty.string_of_int (Z.to_int i)) k) as Hn;
      fold (write_number i k) in Hn
  end.
  cbn [String.length] in *. lia.
Qed.

Lemma read_processed_member fuel processed timestamp :
  (length processed + 3 ≤ fuel)%nat →
  read_members fuel (processed_member processed timestamp)
  = Some ([("processedDorks", Array (map Str processed));
           ("timestamp", Str timestamp)], EmptyString).
Proof.
  intros Hfuel. destruct fuel as [|[|[|fuel]]]; [lia..|].
  unfold processed_member.
  erewrite read_members_member
    by (apply read_value_string_array; simpl in Hfuel; lia).
  match goal with
  | |- context [skip_ws (String "," ?t)] =>
      change (skip_ws (String "," t)) with (String "," t)
  end.
  cbv beta iota. rewrite (N.eqb_refl 44 : (N_of_ascii "," =? 44)%N = true).
  erewrite read_members_member by apply read_value_string.
  rewrite skip_ws_newline. reflexivity.
Qed.

Lemma read_content_member fuel content processed timestamp :
  (length processed + 4 ≤ fuel)%nat →
  read_members fuel (content_member content processed timestamp)
  = Some ([("reportContent", match content with Some s => Str s | None => Null end);
           ("processedDorks", Array (map Str processed));
           ("timestamp", Str timestamp)], EmptyString).
Proof.
  intros Hfuel. destruct fuel as [|[|fuel]]; [lia..|].
  unfold content_member.
  destruct content as [s|]; cbn [write];
    (erewrite read_members_member
       by first [apply read_value_string | apply read_value_null]).
  all: match goal with
  | |- context [skip_ws (String "," ?t)] =>
      change (skip_ws (String "," t)) with (String "," t)
  end.
  all: cbv beta iota; rewrite (N.eqb_refl 44 : (N_of_ascii "," =? 44)%N = true).
  all: rewrite read_processed_member by (simpl in Hfuel; lia); reflexivity.
Qed.

Lemma read_checkpoint_text fuel i content processed timestamp :
  (length processed + 6 ≤ fuel)%nat →
  read_value fuel (stringify (checkpoint_object i content processed timestamp))
  = Some (checkpoint_object i content processed timestamp, EmptyString).
Proof.
  intros Hfuel. destruct fuel as [|[|[|fuel]]]; [lia..|].
  rewrite stringify_checkpoint.
  erewrite read_value_object;
    [ | rewrite skip_ws_newline; apply skip_ws_quoted | reflexivity ].
  erewrite read_members_member
    by (apply read_value_number; split; reflexivity).
  match goal with
  | |- context [skip_ws (String "," ?t)] =>
      change (skip_ws (String "," t)) with (String "," t)
  end.
  cbv beta iota. rewrite (N.eqb_refl 44 : (N_of_ascii "," =? 44)%N = true).
  rewrite read_content_member by (simpl in Hfuel; lia). reflexivity.
Qed.

(** [JSON.parse] reads back what [JSON.stringify] wrote for a checkpoint. *)
Lemma parse_stringify_checkpoint i content processed timestamp :
  parse (stringify (checkpoint_object i content processed timestamp))
  = Some (checkpoint_object i content processed timestamp).
Proof.
  unfold parse. rewrite read_checkpoint_text; [reflexivity|].
  pose proof (length_stringify_checkpoint i content processed timestamp). lia.
Qed.

End checkpoint_facts.

Lemma strings_of_map_Str l : strings_of (map JSON.Str l) = Some l.
Proof. induction l as [|x l IH]; simpl; [reflexivity | rewrite IH; reflexivity]. Qed.

(** A write that goes through leaves the text in the file. *)
Lemma saveCheckpoint_written fs timestamp path i content processed :
  writable fs path = true →
  saveCheckpoint fs timestamp path i content processed
  = with_file fs path
      (JSON.stringify (checkpoint_object i content processed timestamp)).
Proof.
  intros Hw. unfold saveCheckpoint, fs_catch, writeFile. rewrite Hw. reflexivity.
Qed.

(** C4. For every path, index, report content and list of processed dorks:
    when the write of [saveCheckpoint] goes through, [loadCheckpoint] run
    right after it returns the object that was saved; its [lastIndex] is
    the index and its [processedDorks] is the list of processed dorks,
    element by element (so the set of processed dorks is the same). *)
Theorem checkpoint_round_trip
    (fs : filesystem) (timestamp path : string) (i : Z)
    (content : option string) (processed : list string) :
  writable fs path = true →
  let loaded :=
    loadCheckpoint (saveCheckpoint fs timestamp path i content processed) path in
  loaded = checkpoint_object i content processed timestamp
  ∧ JSON.get "lastIndex" loaded = Some (JSON.Number i)
  ∧ (∃ items, JSON.get "processedDorks" loaded = Some (JSON.Array items)
              ∧ strings_of items = Some processed)
  ∧ ∀ loaded_strings items,
      JSON.get "processedDorks" loaded = Some (JSON.Array items) →
      strings_of items = Some loaded_strings →
      (list_to_set loaded_strings : gset string) = list_to_set processed.
Proof.
  intros Hw loaded.
  assert (Hloaded : loaded = checkpoint_object i content processed timestamp).
  { subst loaded. rewrite (saveCheckpoint_written _ _ _ _ _ _ Hw).
    unfold loadCheckpoint, pathExists, readFile. simpl files.
    rewrite lookup_insert_eq.
    rewrite bool_decide_eq_true_2 by eauto.
    rewrite checkpoint_facts.parse_stringify_checkpoint. reflexivity. }
  rewrite Hloaded. split; [reflexivity|]. split; [reflexivity|]. split.
  - eexists. split; [reflexivity | apply strings_of_map_Str].
  - intros loaded_strings items [= <-]. rewrite strings_of_map_Str.
    intros [= <-]. reflexivity.
Qed.

(** When the write is refused at the open, [saveCheckpoint] leaves the
    store as it was. *)
Lemma saveCheckpoint_write_fails fs timestamp path i content processed :
  writable fs path = false →
  torn fs path = None →
  saveCheckpoint fs timestamp path i content processed = fs.
Proof.
  intros Hw Ht. unfold saveCheckpoint, fs_catch, writeFile. rewrite Hw, Ht.
  reflexivity.
Qed.

(** Without a checkpoint file [loadCheckpoint] returns the empty
    checkpoint. *)
Lemma loadCheckpoint_absent fs path :
  files fs !! path = None → loadCheckpoint fs path = empty_checkpoint.
Proof.
  intros H. unfold loadCheckpoint, pathExists. rewrite H.
  rewrite bool_decide_eq_false_2; [reflexivity|]. intros [x Hx]. discriminate.
Qed.

(** ** The scan driver *)

Section driver_facts.

Variable CHECKPOINT_FILE : string.
Variable turns : nat → dork_turn.
Variable dorks : list string.

Lemma display_record_has_no_manual_flag dork index total engine timestamp :
  JSON.get "manuallyChecked" (displayOnlyDorkInfo dork index total engine timestamp)
  = None.
Proof. reflexivity. Qed.

Lemma processDorkDisplayMode_result t dork index total :
  fst (processDorkDisplayMode t dork index total)
  = displayOnlyDorkInfo dork index total (getRandomSearchEngine (engine_draw t))
      (shown_at t).
Proof.
  unfold processDorkDisplayMode. simpl.
  destruct (askUserToCheckUrl (check_answer t)); reflexivity.
Qed.

Lemma scan_step_manuallyChecked i dork st :
  manuallyChecked (stats (scan_step CHECKPOINT_FILE turns dorks i dork st))
  = manuallyChecked (stats st).
Proof.
  unfold scan_step. destruct (array_includes _ _); [reflexivity|].
  pose proof (processDorkDisplayMode_result (turns i) dork i (length dorks)) as Hres.
  destruct (processDorkDisplayMode _ _ _ _) as [result shown]. simpl in Hres.
  subst result. rewrite display_record_has_no_manual_flag. reflexivity.
Qed.

Lemma scan_loop_manuallyChecked n : ∀ i st,
  manuallyChecked (stats (scan_loop CHECKPOINT_FILE turns dorks n i st))
  = manuallyChecked (stats st).
Proof.
  induction n as [|n IH]; intros i st; simpl; [reflexivity|].
  destruct (dorks !! i) as [dork|]; [|reflexivity].
  rewrite IH. apply scan_step_manuallyChecked.
Qed.

Lemma scan_step_results i dork st :
  Forall (λ r, JSON.get "manuallyChecked" r = None) (results st) →
  Forall (λ r, JSON.get "manuallyChecked" r = None)
    (results (scan_step CHECKPOINT_FILE turns dorks i dork st)).
Proof.
  intros Hres. unfold scan_step. destruct (array_includes _ _); [assumption|].
  pose proof (processDorkDisplayMode_result (turns i) dork i (length dorks)) as Hfst.
  destruct (processDorkDisplayMode _ _ _ _) as [result shown]. simpl in Hfst.
  subst result. cbn [results]. apply Forall_app. split; [assumption|].
  apply Forall_singleton, display_record_has_no_manual_flag.
Qed.

Lemma scan_loop_results n : ∀ i st,
  Forall (λ r, JSON.get "manuallyChecked" r = None) (results st) →
  Forall (λ r, JSON.get "manuallyChecked" r = None)
    (results (scan_loop CHECKPOINT_FILE turns dorks n i st)).
Proof.
  induction n as [|n IH]; intros i st Hres; simpl; [assumption|].
  destruct (dorks !! i) as [dork|]; [|assumption].
  apply IH, scan_step_results, Hres.
Qed.

(** *** The trace of one pass *)

Lemma scan_step_trace i dork st :
  ∃ block,
    trace (scan_step CHECKPOINT_FILE turns dorks i dork st) = trace st ++ block
    ∧ pass_events i dork (processedDorks st) block.
Proof.
  unfold scan_step, array_includes. case_bool_decide as Hin.
  - exists [Skipped i dork]. split; [reflexivity|]. left. auto.
  - unfold processDorkDisplayMode, openBrowserForUrl. simpl.
    destruct (askUserToCheckUrl _); simpl;
      (eexists; split; [reflexivity|]; right; split; [assumption|]);
      [ exists (check_answer (turns i)),
          [BrowserStarted i
             (url (getRandomSearchEngine (engine_draw (turns i)))
              +:+ encodeURIComponent dork)
             (getRandomUserAgent (agent_draw (turns i)));
           BrowserFinished i (browser (turns i))]
      | exists (check_answer (turns i)), [] ];
      (eexists; split; [reflexivity|]; split;
       [ eauto 6 | destruct (_ && _); auto ]).
Qed.

Lemma scan_step_processed i dork st d :
  d ∈ processedDorks st →
  d ∈ processedDorks (scan_step CHECKPOINT_FILE turns dorks i dork st).
Proof.
  intros Hd. unfold scan_step. destruct (array_includes _ _); [assumption|].
  destruct (processDorkDisplayMode _ _ _ _). simpl. apply elem_of_app. auto.
Qed.

End driver_facts.

Section pass_facts.

Variables (i : nat) (d : string) (processed : list string) (block : list event).
Hypothesis Hblock : pass_events i d processed block.

Lemma pass_events_index e : e ∈ block → event_index e = i.
Proof using Hblock.
  destruct Hblock as [[_ ->] | (_ & a & v & p & -> & Hv & Hp)].
  - intros ->%list_elem_of_singleton. reflexivity.
  - destruct Hv as [-> | (u & ua & how & ->)], Hp as [-> | ->]; simpl;
      rewrite ?elem_of_cons, elem_of_nil; intuition (subst; reflexivity).
Qed.

Lemma pass_events_nonempty : ∃ e, e ∈ block.
Proof using Hblock.
  destruct Hblock as [[_ ->] | (_ & a & v & p & -> & _)];
    eexists; apply list_elem_of_here.
Qed.

Lemma pass_events_skipped e : d ∈ processed → e ∈ block → e = Skipped i d.
Proof using Hblock.
  intros Hd. destruct Hblock as [[_ ->] | (Hn & _)]; [|contradiction].
  intros ->%list_elem_of_singleton. reflexivity.
Qed.

Lemma pass_events_saved pre post j ps :
  block = pre ++ CheckpointSaved j ps :: post →
  j = i
  ∧ Displayed i d ∈ pre
  ∧ (∀ u ua, BrowserStarted i u ua ∈ pre → ∃ how, BrowserFinished i how ∈ pre)
  ∧ (∀ e, e ∈ post → is_processing e = false).
Proof using Hblock.
  destruct Hblock as [[_ ->] | (_ & a & v & p & -> & Hv & Hp)].
  - intros H. destruct pre as [|? [|? ?]]; discriminate H.
  - destruct Hv as [-> | (u & ua & how & ->)], Hp as [-> | ->]; simpl; intros H;
      repeat (destruct pre as [|? pre]; simplify_eq/=);
      (split; [reflexivity|]; split; [apply list_elem_of_here|]; split;
       [ intros u' ua' Hin; apply list_elem_of_In in Hin; simpl in Hin;
         first [ exfalso; intuition discriminate
               | eexists;
                 solve [eauto 8 using list_elem_of_here, list_elem_of_further] ]
       | intros e He; apply list_elem_of_In in He; simpl in He;
         intuition (subst; reflexivity) ]).
Qed.

End pass_facts.
Section loop_facts.

Variable CHECKPOINT_FILE : string.
Variable turns : nat → dork_turn.
Variable dorks : list string.

Lemma saved_after_processing_nil : saved_after_processing dorks [].
Proof. intros pre post j ps H. destruct pre; discriminate H. Qed.

(** A pass put in front of a trace whose events all have later indices. *)
Lemma saved_after_processing_pass i d processed block tail :
  dorks !! i = Some d →
  pass_events i d processed block →
  (∀ e, e ∈ tail → (S i ≤ event_index e)%nat) →
  saved_after_processing dorks tail →
  saved_after_processing dorks (block ++ tail).
Proof.
  intros Hd Hblock Hlater Htail pre post j ps Heq.
  assert (Hcase :
    (∃ l, pre = block ++ l ∧ tail = l ++ CheckpointSaved j ps :: post)
    ∨ (∃ l, block = pre ++ CheckpointSaved j ps :: l ∧ post = l ++ tail)).
  { symmetry in Heq. apply app_eq_app in Heq as [l [[-> ->] | [-> Hl]]].
    - left. exists l. auto.
    - destruct l as [|x l]; simpl in Hl.
      + left. exists []. rewrite !app_nil_r. split; [reflexivity | symmetry; exact Hl].
      + injection Hl as <- ->. right. exists l. split; reflexivity. }
  destruct Hcase as [(l & -> & Htl) | (l & Hbl & ->)].
  - destruct (Htail l post j ps Htl) as ((d' & Hd' & Hshown) & Hbrowser & Hpost).
    assert (Hj : (S i ≤ j)%nat).
    { apply (Hlater (CheckpointSaved j ps)). rewrite Htl.
      apply elem_of_app. right. apply list_elem_of_here. }
    split; [|split].
    + exists d'. split; [assumption|]. apply elem_of_app. auto.
    + intros u ua [Hin|Hin]%elem_of_app.
      * apply (pass_events_index _ _ _ _ Hblock) in Hin. simpl in Hin. lia.
      * destruct (Hbrowser u ua Hin) as [how Hhow]. exists how.
        apply elem_of_app. auto.
    + assumption.
  - destruct (pass_events_saved _ _ _ _ Hblock _ _ _ _ Hbl)
      as (-> & Hshown & Hbrowser & Hpost).
    split; [|split].
    + exists d. split; assumption.
    + exact Hbrowser.
    + intros e [Hin|Hin]%elem_of_app Hproc.
      * rewrite (Hpost e Hin) in Hproc. discriminate Hproc.
      * apply Hlater in Hin. lia.
Qed.

Lemma scan_loop_trace n : ∀ i st,
  ∃ tail,
    trace (scan_loop CHECKPOINT_FILE turns dorks n i st) = trace st ++ tail
    ∧ (∀ e, e ∈ tail → (i ≤ event_index e)%nat)
    ∧ saved_after_processing dorks tail
    ∧ (∀ j, (i ≤ j < i + n)%nat → (j < length dorks)%nat →
            ∃ e, e ∈ tail ∧ event_index e = j)
    ∧ (∀ j d, dorks !! j = Some d → d ∈ processedDorks st →
              ∀ e, e ∈ tail → event_index e = j → e = Skipped j d).
Proof.
  induction n as [|n IH]; intros i st.
  - exists []. rewrite app_nil_r. split; [reflexivity|].
    split; [intros e He; inversion He|].
    split; [apply saved_after_processing_nil|].
    split; [intros j Hj; lia | intros j d _ _ e He; inversion He].
  - simpl. destruct (dorks !! i) as [d|] eqn:Hd.
    + destruct (scan_step_trace CHECKPOINT_FILE turns dorks i d st)
        as (block & Hstep & Hblock).
      destruct (IH (S i) (scan_step CHECKPOINT_FILE turns dorks i d st))
        as (tail & Htrace & Hlater & Hsaved & Hvisit & Hskip).
      exists (block ++ tail).
      split; [rewrite Htrace, Hstep, app_assoc; reflexivity|].
      split; [|split; [|split]].
      * intros e [Hin|Hin]%elem_of_app.
        -- rewrite (pass_events_index _ _ _ _ Hblock e Hin). lia.
        -- apply Hlater in Hin. lia.
      * eapply saved_after_processing_pass; eassumption.
      * intros j Hj Hlen. destruct (decide (j = i)) as [->|Hne].
        -- destruct (pass_events_nonempty _ _ _ _ Hblock) as [e He].
           exists e. split; [apply elem_of_app; auto|].
           apply (pass_events_index _ _ _ _ Hblock e He).
        -- destruct (Hvisit j) as (e & He & Hidx); [lia | assumption |].
           exists e. split; [apply elem_of_app; auto | assumption].
      * intros j d' Hd' Hin e [He|He]%elem_of_app Hidx.
        -- rewrite (pass_events_index _ _ _ _ Hblock e He) in Hidx. subst j.
           rewrite Hd in Hd'. injection Hd' as <-.
           apply (pass_events_skipped _ _ _ _ Hblock e Hin He).
        -- apply (Hskip j d' Hd'); [|assumption..].
           apply scan_step_processed, Hin.
    + exists []. rewrite app_nil_r. split; [reflexivity|].
      split; [intros e He; inversion He|].
      split; [apply saved_after_processing_nil|].
      split; [|intros j d _ _ e He; inversion He].
      intros j Hj Hlen. apply lookup_ge_None in Hd. lia.
Qed.

End loop_facts.

Lemma checkpoint_view_lastIndex checkpoint ck :
  checkpoint_view checkpoint = Some ck → -1 ≤ lastIndex ck.
Proof.
  unfold checkpoint_view.
  destruct (JSON.get "lastIndex" checkpoint) as [[| |z| | |]|]; try discriminate.
  destruct (Z.leb_spec (-1) z); [|discriminate].
  repeat match goal with
         | |- context [match ?x with _ => _ end] => destruct x; try discriminate
         end;
    intros [= <-]; assumption.
Qed.

(** The empty checkpoint is one the driver is modelled on: a run without a
    checkpoint file is defined. *)
Lemma checkpoint_view_empty :
  checkpoint_view empty_checkpoint
  = Some {| lastIndex := -1; resume_processed := [];
            resume_report := EmptyString |}.
Proof. reflexivity. Qed.


(** C1. In every run of the driver, each checkpoint save for an index [j]
    comes after the whole processing of dork [j]: the dork was displayed
    before, a browser verification that was started has ended before, and
    nothing of that processing follows the save.  On resume the indices
    visited are exactly those from [lastIndex + 1] on, and at an index
    whose dork is in the loaded [processedDorks] the driver only skips. *)
Theorem checkpoint_saved_after_processing
    (cfg : domain_config) (CHECKPOINT_FILE : string) (ending : run_end)
    (turns : nat → dork_turn) (selectedTypes : list Z) (fs : filesystem)
    (ck : resume_point) (st : scan_state) :
  checkpoint_view (loadCheckpoint fs CHECKPOINT_FILE) = Some ck →
  runMultiEngineDorkScan cfg CHECKPOINT_FILE ending turns selectedTypes fs
    = Some st →
  let dorks := generateDorksList cfg selectedTypes (TARGET_DOMAIN cfg) in
  saved_after_processing dorks (trace st)
  ∧ (∀ e, e ∈ trace st → lastIndex ck + 1 ≤ Z.of_nat (event_index e))
  ∧ (∀ j, lastIndex ck + 1 ≤ Z.of_nat j → (j < length dorks)%nat →
          ∃ e, e ∈ trace st ∧ event_index e = j)
  ∧ (∀ j d, dorks !! j = Some d → d ∈ resume_processed ck →
            ∀ e, e ∈ trace st → event_index e = j → e = Skipped j d).
Proof.
  intros Hck Hrun dorks. subst dorks. unfold runMultiEngineDorkScan in Hrun.
  rewrite Hck in Hrun. injection Hrun as <-. cbn [trace].
  pose proof (checkpoint_view_lastIndex _ _ Hck) as Hlast.
  match goal with
  | |- context [scan_loop ?f ?t ?ds ?n ?i ?st0] =>
      destruct (scan_loop_trace f t ds n i st0)
        as (tail & Htrace & Hlater & Hsaved & Hvisit & Hskip)
  end.
  cbn [trace app] in Htrace. rewrite Htrace. split; [assumption|]. split; [|split].
  - intros e He. apply Hlater in He. lia.
  - intros j Hj Hlen. apply Hvisit; [lia | assumption].
  - intros j d Hd Hin. apply (Hskip j d Hd). exact Hin.
Qed.

(** C9. In every run of the driver the final [stats.manuallyChecked] is 0,
    whatever the operator answers to the verification questions: the record
    of a dork has no [manuallyChecked] member, so the increment is never
    taken. *)
Theorem manuallyChecked_stays_zero
    (cfg : domain_config) (CHECKPOINT_FILE : string) (ending : run_end)
    (turns : nat → dork_turn) (selectedTypes : list Z) (fs : filesystem)
    (st : scan_state) :
  runMultiEngineDorkScan cfg CHECKPOINT_FILE ending turns selectedTypes fs
    = Some st →
  manuallyChecked (stats st) = 0%nat
  ∧ ∀ r, r ∈ results st → JSON.get "manuallyChecked" r = None.
Proof.
  unfold runMultiEngineDorkScan.
  destruct (checkpoint_view _) as [ck|]; [|discriminate].
  intros [= <-]. cbn [stats results]. split.
  - rewrite scan_loop_manuallyChecked. reflexivity.
  - intros r Hr. revert r Hr. apply Forall_forall.
    apply scan_loop_results. constructor.
Qed.
(** ** Worked instances *)

Section instances.

Import samples.

(** The empty domain with the generic category: a list is returned, with
    [site: filetype:log] in it. *)
Lemma empty_domain_instance :
  generateDorksList_call shipped_config [1] EmptyString
  = Return (generateDorksList shipped_config [1] EmptyString)
  ∧ "site: filetype:log" ∈ generateDorksList shipped_config [1] EmptyString.
Proof.
  destruct (generateDorksList_never_throws shipped_config [1] EmptyString)
    as (Hreturn & _ & Hlog).
  split; [exact Hreturn|]. apply Hlog. apply list_elem_of_here.
Defined.

(** An open page that rejects the evaluation is reported as a challenge. *)
Lemma detector_evaluation_error_instance :
  detectCaptchaOrBlock (Some crashed_page) = Return true.
Proof.
  apply (detector_evaluation_error_is_detected crashed_page
           "Execution context was destroyed"); reflexivity.
Defined.

(** No body: nothing is reported although every selector matches seven
    elements. *)
Lemma detector_without_body_instance :
  detectCaptchaOrBlock (Some bodyless_page) = Return false
  ∧ detected (detect_script (win bodyless_page)) = false.
Proof.
  apply (detector_without_body_reports_nothing bodyless_page); reflexivity.
Defined.

(** ENTER on a page still blocked, then [skip]: the call returns [false]
    7000 ms after it started, 53000 ms before the timeout. *)
Lemma skip_token_instance :
  waitForCaptchaResolution_with detectCaptchaOrBlock 60000 skip_env start_world
  = (Some false,
     {| clock := 5500 + 1500;
        rl := submit_line terminal_interface "skip" |}).
Proof.
  apply (skip_token_returns_false_at_once detectCaptchaOrBlock 60000 skip_env
           start_world {| clock := 420; rl := terminal_interface |}
           {| clock := 5500; rl := terminal_interface |}
           [enter_cycle] [] skip_cycle);
    first [reflexivity | simpl; lia].
Defined.

(** With the output piped the operator types the skip token on a page
    whose challenge has gone: the call returns [true]. *)
Lemma typed_skip_instance :
  waitForCaptchaResolution 60000 typed_skip_env piped_world
  = (Some true, {| clock := 420 + 1500 + 60; rl := piped_interface |}).
Proof.
  apply (skip_token_is_not_seen_without_terminal 60000 typed_skip_env
           piped_world {| clock := 420; rl := piped_interface |}
           {| clock := 420; rl := piped_interface |} [] [] typed_skip_cycle);
    first [reflexivity | simpl; lia].
Defined.



(** A page that keeps growing: four passes, then the two seconds are over
    and the waiter returns [true]; a page closed at the call makes it
    throw. *)
Lemma stability_timeout_instance :
  waitForPageStability growing_env 3000 2000 10 0 = Some (Return true)
  ∧ (stab_page0 closed_env = None
     ∨ (∃ p', stab_page0 closed_env = Some p' ∧ isClosed p' = true)
     ∨ ∃ j, isClosed (poll_page (polls closed_env j)) = true).
Proof.
  destruct (stability_timeout_returns_true growing_env 3000 2000 0 10 4
              (growing_page 0) 2060 1560 4) as [Htrue Hthrow];
    try first [reflexivity | simpl; lia].
  split; [exact Htrue|].
  apply (Hthrow closed_env 10%nat 0 (page_unavailable "aguardar estabilidade")).
  reflexivity.
Defined.

(** Saving index 7 with two processed dorks on an empty disk, then
    loading. *)
Lemma checkpoint_round_trip_instance :
  let processed := ["site:example.com filetype:log";
                    "site:example.com " +:+ dq +:+ "access_token" +:+ dq] in
  let loaded :=
    loadCheckpoint
      (saveCheckpoint empty_disk "2024-05-01T10:00:00.000Z" checkpoint_path 7
         (Some EmptyString) processed) checkpoint_path in
  loaded = checkpoint_object 7 (Some EmptyString) processed "2024-05-01T10:00:00.000Z"
  ∧ JSON.get "lastIndex" loaded = Some (JSON.Number 7)
  ∧ (∃ items, JSON.get "processedDorks" loaded = Some (JSON.Array items)
              ∧ strings_of items = Some processed)
  ∧ ∀ loaded_strings items,
      JSON.get "processedDorks" loaded = Some (JSON.Array items) →
      strings_of items = Some loaded_strings →
      (list_to_set loaded_strings : gset string) = list_to_set processed.
Proof.
  intros processed.
  apply (checkpoint_round_trip empty_disk "2024-05-01T10:00:00.000Z"
           checkpoint_path 7 (Some EmptyString) processed).
  reflexivity.
Defined.

(** A run resumed after index 2, with the dork of index 5 already listed
    as processed. *)
Lemma resumed_run_instance :
  saved_after_processing small_dorks (trace resumed_state)
  ∧ (∀ e, e ∈ trace resumed_state → 2 + 1 ≤ Z.of_nat (event_index e))
  ∧ (∀ j, 2 + 1 ≤ Z.of_nat j → (j < length small_dorks)%nat →
          ∃ e, e ∈ trace resumed_state ∧ event_index e = j)
  ∧ (∀ j d, small_dorks !! j = Some d → d ∈ resume_processed resumed_point →
            ∀ e, e ∈ trace resumed_state → event_index e = j → e = Skipped j d).
Proof.
  apply (checkpoint_saved_after_processing small_config checkpoint_path
           sample_ending sample_turns [4] resumed_disk resumed_point
           resumed_state);
    vm_compute; reflexivity.
Defined.

(** In that run the operator verifies four dorks in the browser and the
    counter stays at zero. *)
Lemma manuallyChecked_instance :
  manuallyChecked (stats resumed_state) = 0%nat
  ∧ ∀ r, r ∈ results resumed_state → JSON.get "manuallyChecked" r = None.
Proof.
  apply (manuallyChecked_stays_zero small_config checkpoint_path sample_ending
           sample_turns [4] resumed_disk resumed_state).
  vm_compute. reflexivity.
Defined.

Example resumed_run_verifications :
  length (List.filter
            (λ e, match e with BrowserStarted _ _ _ => true | _ => false end)
            (trace resumed_state)) = 4%nat.
Proof. vm_compute. reflexivity. Qed.

End instances.
(** * Further properties *)

(** ** The category prompt *)

Section prompt_facts.

Lemma add_number_NoDup selected n : NoDup selected → NoDup (add_number selected n).
Proof.
  intros Hnd. unfold add_number. case_bool_decide as Hin; [assumption|].
  apply NoDup_app. split_and!; [assumption | | apply NoDup_singleton].
  intros y Hy Hy'. apply list_elem_of_singleton in Hy'. subst. contradiction.
Qed.

Lemma add_number_elem selected n m :
  m ∈ add_number selected n ↔ m ∈ selected ∨ m = n.
Proof.
  unfold add_number. case_bool_decide as Hin.
  - split; [auto | intros [?| ->]; assumption].
  - rewrite elem_of_app, list_elem_of_singleton. reflexivity.
Qed.

Lemma piece_category_range num n : piece_category num = Some n → 1 ≤ n ≤ 4.
Proof.
  unfold piece_category. destruct (parseInt _) as [m|]; [|discriminate].
  destruct (Z.leb_spec 1 m), (Z.leb_spec m 4); simpl; intros [= <-]; lia.
Qed.

Lemma selection_fold pieces : ∀ selected,
  NoDup selected → (∀ n, n ∈ selected → 1 ≤ n ≤ 4) →
  let result :=
    fold_left
      (λ selected num,
         match parseInt (trim num) with
         | Some n => if (1 <=? n) && (n <=? 4) then add_number selected n
                     else selected
         | None => selected
         end) pieces selected in
  NoDup result
  ∧ (∀ n, n ∈ result ↔
          n ∈ selected ∨ ∃ num, num ∈ pieces ∧ piece_category num = Some n).
Proof.
  induction pieces as [|num pieces IH]; intros selected Hnd Hrange; simpl.
  - split; [assumption|]. intros n. split; [auto|].
    intros [H | (num & Hin & _)]; [assumption | inversion Hin].
  - pose proof (piece_category_range num) as Hpiece.
    unfold piece_category in Hpiece.
    match goal with
    | |- context [fold_left ?f pieces ?s] =>
        assert (Hs : NoDup s ∧ (∀ n, n ∈ s ↔
                                     n ∈ selected ∨ piece_category num = Some n))
    end.
    { unfold piece_category. destruct (parseInt (trim num)) as [m|].
      - destruct ((1 <=? m) && (m <=? 4)).
        + split; [apply add_number_NoDup, Hnd|]. intros n.
          rewrite add_number_elem. split; intros [H|H]; auto.
          * subst. auto.
          * injection H as ->. auto.
        + split; [assumption|]. intros n. split; [auto|].
          intros [H|H]; [assumption | discriminate H].
      - split; [assumption|]. intros n. split; [auto|].
        intros [H|H]; [assumption | discriminate H]. }
    destruct Hs as [Hnd' Hel'].
    match goal with
    | |- context [fold_left ?f pieces ?s] =>
        destruct (IH s Hnd') as [Hnd'' Hel'']
    end.
    { intros n [H|H]%Hel'; [auto|]. apply (piece_category_range num n H). }
    split; [exact Hnd''|]. intros n. rewrite Hel'', Hel'. split.
    + intros [[H|H] | (x & Hx & Hc)]; eauto using list_elem_of_here.
      right. exists x. split; [apply list_elem_of_further, Hx | exact Hc].
    + intros [H | (x & Hx & Hc)]; [auto|].
      apply elem_of_cons in Hx as [-> | Hx]; eauto.
Qed.

End prompt_facts.

Lemma promptDorkTypes_range (answer : string) :
  promptDorkTypes answer ≠ []
  ∧ ∀ n, n ∈ promptDorkTypes answer → 1 ≤ n ≤ 4.
Proof.
  unfold promptDorkTypes.
  destruct (includes "5" answer).
  - split; [discriminate|].
    intros n Hn. vm_compute in Hn.
    apply list_elem_of_In in Hn. simpl in Hn. lia.
  - destruct (selection_fold (split_comma answer) [] NoDup_nil_2)
      as [_ Hel]; [intros n Hn; inversion Hn|].
    cbv zeta in Hel.
    match goal with
    | |- context [fold_left ?f ?l ?s] => set (sel := fold_left f l s) in *
    end.
    case_bool_decide as Hlen.
    + destruct sel; [|discriminate Hlen]. split; [discriminate|].
      intros n ->%list_elem_of_singleton. lia.
    + split; [intros ->; apply Hlen; reflexivity|].
      intros n [Hn | (num & _ & Hc)]%Hel; [inversion Hn|].
      apply (piece_category_range num n Hc).
Qed.

(** X1. Whatever the operator answers to the category prompt, the selection
    handed to the generator is not empty, has no duplicates and holds only
    the numbers 1 to 4. *)
Theorem promptDorkTypes_valid (answer : string) :
  promptDorkTypes answer ≠ []
  ∧ NoDup (promptDorkTypes answer)
  ∧ ∀ n, n ∈ promptDorkTypes answer → 1 ≤ n ≤ 4.
Proof.
  destruct (promptDorkTypes_range answer) as [Hne Hrange].
  split; [exact Hne|]. split; [|exact Hrange].
  unfold promptDorkTypes.
  destruct (includes "5" answer).
  - repeat apply add_number_NoDup. constructor.
  - destruct (selection_fold (split_comma answer) [] NoDup_nil_2)
      as [Hnd _]; [intros n Hn; inversion Hn|].
    cbv zeta in Hnd.
    case_bool_decide; [apply add_number_NoDup|]; exact Hnd.
Qed.

(** X2. Without a 5 in the answer, a category is selected exactly when a
    comma-separated piece of the answer parses to it (after trimming, with
    [parseInt]: [3abc] and [0x2] count as 3 and 2); when no piece does,
    category 1 alone is selected. *)
Theorem promptDorkTypes_selection (answer : string) (n : Z) :
  includes "5" answer = false →
  (n ∈ promptDorkTypes answer ↔
   (∃ num, num ∈ split_comma answer ∧ piece_category num = Some n)
   ∨ (n = 1 ∧ ∀ num m, num ∈ split_comma answer → piece_category num ≠ Some m)).
Proof.
  intros Hfive. unfold promptDorkTypes. rewrite Hfive.
  destruct (selection_fold (split_comma answer) [] NoDup_nil_2)
    as [Hnd Hel]; [intros m Hm; inversion Hm|].
  cbv zeta in Hnd, Hel.
  match goal with
  | |- context [fold_left ?f ?l ?s] => set (sel := fold_left f l s) in *
  end.
  case_bool_decide as Hlen.
  - destruct sel as [|x sel]; [|discriminate Hlen].
    assert (Hnone : ∀ num m, num ∈ split_comma answer → piece_category num ≠ Some m).
    { intros num m Hnum Hc. assert (Hm : m ∈ @nil Z) by (apply Hel; eauto).
      inversion Hm. }
    change (add_number [] 1) with [1]. rewrite list_elem_of_singleton. split.
    + intros ->. auto.
    + intros [(num & Hnum & Hc) | [-> _]]; [|reflexivity].
      destruct (Hnone num n Hnum Hc).
  - rewrite Hel. split.
    + intros [H | H]; [inversion H | auto].
    + intros [H | [-> Hnone]]; [auto|].
      destruct sel as [|x sel]; [destruct Hlen; reflexivity|].
      assert (Hx : x ∈ x :: sel) by apply list_elem_of_here.
      apply Hel in Hx as [Hx | (num & Hnum & Hc)]; [inversion Hx|].
      destruct (Hnone num x Hnum Hc).
Qed.
(** ** The dork generator, continued *)

Section generator_membership.

Lemma category_dorks_inv types d : ∀ acc x,
  x ∈ fold_left (λ dorks type, dorks ++ dorks_of_type type d) types acc →
  x ∈ acc ∨ ∃ t, t ∈ types ∧ x ∈ dorks_of_type t d.
Proof.
  induction types as [|t types IH]; intros acc x; simpl; [auto|].
  intros [[H|H]%elem_of_app | (t' & Ht' & Hx)]%IH; [auto| |].
  - right. exists t. split; [apply list_elem_of_here | exact H].
  - right. exists t'. split; [apply list_elem_of_further, Ht' | exact Hx].
Qed.

Lemma generateDorksList_category_elem cfg types D t e :
  t ∈ types → e ∈ dorks_of_type t D → e ∈ generateDorksList cfg types D.
Proof.
  intros Ht He. unfold generateDorksList. apply array_from_set_elem.
  assert (Hin : e ∈ fold_left (λ dorks type, dorks ++ dorks_of_type type D)
                      types []) by (eapply category_dorks_elem; eassumption).
  destruct (includeVariations _ && _), (limitPaths _ && _);
    repeat (apply elem_of_app; left); exact Hin.
Qed.

End generator_membership.

(** X3. The generated list holds exactly the dorks of the selected
    categories, the three probes of every alternate domain when variations
    are switched on, and one path dork per configured path when paths are
    limited: removing the duplicates loses no dork and adds none. *)
Theorem generateDorksList_elements
    (cfg : domain_config) (types : list Z) (D e : string) :
  e ∈ generateDorksList cfg types D ↔
  (∃ t, t ∈ types ∧ e ∈ dorks_of_type t D)
  ∨ (includeVariations (DOMAIN_SETTINGS cfg) = true
     ∧ ∃ alt, alt ∈ ALTERNATIVE_DOMAINS cfg ∧ e ∈ alt_domain_dorks alt)
  ∨ (limitPaths (DOMAIN_SETTINGS cfg) = true
     ∧ ∃ p, p ∈ paths (DOMAIN_SETTINGS cfg) ∧ e = path_dork D p).
Proof.
  unfold generateDorksList. rewrite array_from_set_elem.
  set (cat := fold_left (λ dorks type, dorks ++ dorks_of_type type D) types []).
  assert (Hcat : e ∈ cat ↔ ∃ t, t ∈ types ∧ e ∈ dorks_of_type t D).
  { split.
    - intros [H | H]%category_dorks_inv; [inversion H | exact H].
    - intros (t & Ht & He). eapply category_dorks_elem; eassumption. }
  assert (Halt : e ∈ flat_map alt_domain_dorks (ALTERNATIVE_DOMAINS cfg) ↔
                 ∃ alt, alt ∈ ALTERNATIVE_DOMAINS cfg ∧ e ∈ alt_domain_dorks alt).
  { rewrite list_elem_of_In, in_flat_map. split; intros (alt & H1 & H2);
      exists alt; split; apply list_elem_of_In; assumption. }
  assert (Hpath : e ∈ map (path_dork D) (paths (DOMAIN_SETTINGS cfg)) ↔
                  ∃ p, p ∈ paths (DOMAIN_SETTINGS cfg) ∧ e = path_dork D p).
  { rewrite list_elem_of_In, in_map_iff. split; intros (p & H1 & H2).
    - exists p. split; [apply list_elem_of_In, H2 | congruence].
    - exists p. split; [congruence | apply list_elem_of_In, H1]. }
  assert (Halt0 : bool_decide (0 < length (ALTERNATIVE_DOMAINS cfg))%nat = false →
                  ¬ ∃ alt, alt ∈ ALTERNATIVE_DOMAINS cfg ∧ e ∈ alt_domain_dorks alt).
  { intros H (alt & Hin & _). apply bool_decide_eq_false in H.
    destruct (ALTERNATIVE_DOMAINS cfg); [inversion Hin | simpl in H; lia]. }
  assert (Hpath0 : bool_decide (0 < length (paths (DOMAIN_SETTINGS cfg)))%nat = false →
                   ¬ ∃ p, p ∈ paths (DOMAIN_SETTINGS cfg) ∧ e = path_dork D p).
  { intros H (p & Hin & _). apply bool_decide_eq_false in H.
    destruct (paths (DOMAIN_SETTINGS cfg)); [inversion Hin | simpl in H; lia]. }
  destruct (includeVariations (DOMAIN_SETTINGS cfg)) eqn:Hiv,
           (bool_decide (0 < length (ALTERNATIVE_DOMAINS cfg))%nat) eqn:Hal,
           (limitPaths (DOMAIN_SETTINGS cfg)) eqn:Hlp,
           (bool_decide (0 < length (paths (DOMAIN_SETTINGS cfg)))%nat) eqn:Hpl;
    simpl; rewrite ?elem_of_app, ?Hcat, ?Halt, ?Hpath;
    try specialize (Halt0 eq_refl); try specialize (Hpath0 eq_refl);
    intuition congruence.
Qed.

(** X4. Whatever the operator answers to the category prompt, the list of
    dorks generated from the selection is not empty. *)
Theorem prompted_dork_list_nonempty
    (cfg : domain_config) (answer D : string) :
  generateDorksList cfg (promptDorkTypes answer) D ≠ [].
Proof.
  destruct (promptDorkTypes_range answer) as (Hne & Hrange).
  destruct (promptDorkTypes answer) as [|t types] eqn:Htypes; [contradiction|].
  assert (Ht : 1 ≤ t ≤ 4) by (apply Hrange, list_elem_of_here).
  assert (He : ∃ e, e ∈ dorks_of_type t D).
  { assert (Hcase : t = 1 ∨ t = 2 ∨ t = 3 ∨ t = 4) by lia.
    destruct Hcase as [-> | [-> | [-> | ->]]]; eexists; apply list_elem_of_here. }
  destruct He as [e He] . intros Hnil.
  assert (Hin : e ∈ generateDorksList cfg (t :: types) D).
  { eapply generateDorksList_category_elem; [apply list_elem_of_here | exact He]. }
  rewrite Hnil in Hin. inversion Hin.
Qed.

(** ** Random choices *)

Lemma round_to_double_exact m :
  (N.log2 m - 52 = 0)%N → round_to_double m = m.
Proof.
  intros Hs. unfold round_to_double. rewrite Hs.
  change (2 ^ 0)%N with 1%N. change (2 ^ (0 - 1))%N with 1%N.
  rewrite N.mod_1_r, N.div_1_r.
  change (1 <? 0)%N with false. change (0 =? 1)%N with false.
  cbn [orb andb]. apply N.mul_1_r.
Qed.

(** Rounding moves the product by half a unit of the last place at most. *)
Lemma round_to_double_upper m :
  (0 < N.log2 m - 52)%N →
  (round_to_double m ≤ m + 2 ^ (N.log2 m - 52 - 1))%N.
Proof.
  intros Hs. unfold round_to_double.
  set (s := (N.log2 m - 52)%N) in *.
  assert (Hpow : (2 ^ s = 2 * 2 ^ (s - 1))%N).
  { rewrite <- N.pow_succ_r'. f_equal. lia. }
  assert (Hpos : (0 < 2 ^ (s - 1))%N).
  { apply N.neq_0_lt_0, N.pow_nonzero. discriminate. }
  pose proof (N.div_mod' m (2 ^ s)) as Hdm.
  assert (Hr : (m mod 2 ^ s < 2 ^ s)%N) by (apply N.mod_lt; lia).
  cbv zeta.
  set (P := (2 ^ s)%N) in *. set (A := (2 ^ (s - 1))%N) in *.
  set (q := (m / P)%N) in *. set (r := (m mod P)%N) in *.
  rewrite (N.mul_comm P q) in Hdm.
  destruct ((A <? r) || (r =? A) && N.odd q)%N eqn:Hup.
  - assert (Hhalf : (A ≤ r)%N).
    { apply orb_true_iff in Hup as [Hlt | Heq].
      - apply N.ltb_lt in Hlt. lia.
      - apply andb_true_iff in Heq as [Heq _]. apply N.eqb_eq in Heq. lia. }
    rewrite N.mul_add_distr_r, N.mul_1_l. lia.
  - lia.
Qed.

Lemma random_index_bound r n : (0 < n)%nat → (random_index r n < n)%nat.
Proof.
  intros Hn. unfold random_index.
  assert (Hx : (r mod 2 ^ 53 < 2 ^ 53)%N) by (apply N.mod_lt; discriminate).
  generalize dependent (r mod 2 ^ 53)%N. intros x Hx.
  assert (Hm : ∀ m, m = (x * N.of_nat n)%N →
                    (round_to_double m < 2 ^ 53 * N.of_nat n)%N).
  { intros m Hmx.
    destruct (N.eq_dec (N.log2 m - 52)%N 0%N) as [Hs|Hs].
    - rewrite (round_to_double_exact m Hs). nia.
    - assert (Hs' : (0 < N.log2 m - 52)%N) by lia.
      pose proof (round_to_double_upper m Hs') as Hup.
      assert (Hpos : (0 < m)%N).
      { destruct (N.eq_dec m 0%N) as [E|E]; [|lia].
        rewrite E in Hs. exfalso. apply Hs. reflexivity. }
      destruct (N.log2_spec m Hpos) as [Hlow _].
      assert (Hlog : (N.log2 m = 53 + (N.log2 m - 52 - 1))%N) by lia.
      rewrite Hlog, N.pow_add_r in Hlow.
      generalize dependent (2 ^ (N.log2 m - 52 - 1))%N. intros a Hup Hlow.
      nia. }
  specialize (Hm _ eq_refl).
  apply N.Div0.div_lt_upper_bound in Hm. lia.
Qed.

(** X5. For every draw of [Math.random] the search engine chosen is one of
    the four configured engines and the user agent one of the six
    configured agents: the index never leaves the array, although the
    product is rounded to a double before the floor. *)
Theorem random_choices_are_configured (r : N) :
  getRandomSearchEngine r ∈ SEARCH_ENGINES
  ∧ getRandomUserAgent r ∈ USER_AGENTS.
Proof.
  unfold getRandomSearchEngine, getRandomUserAgent. split;
    apply list_elem_of_In, nth_In, random_index_bound; simpl; lia.
Qed.

(** ** File names *)

Section filename_facts.

Lemma replace_unsafe_length s : String.length (replace_unsafe s) = String.length s.
Proof. induction s as [|c s IH]; simpl; [reflexivity | rewrite IH; reflexivity]. Qed.

Lemma substring_from_start_length n : ∀ s,
  String.length (substring_from_start n s) = Nat.min n (String.length s).
Proof.
  induction n as [|n IH]; intros [|c s]; simpl; try reflexivity.
  rewrite IH. reflexivity.
Qed.

Lemma replace_unsafe_chars s c :
  In c (String.list_ascii_of_string (replace_unsafe s)) → is_filename_char c = true.
Proof.
  induction s as [|a s IH]; simpl; [contradiction|].
  intros [<- | H]; [|exact (IH H)].
  unfold is_filename_char. destruct (is_alnum a) eqn:Ha; [rewrite Ha|]; reflexivity.
Qed.

Lemma substring_from_start_chars n : ∀ s c,
  In c (String.list_ascii_of_string (substring_from_start n s)) →
  In c (String.list_ascii_of_string s).
Proof.
  induction n as [|n IH]; intros [|a s] c; simpl; try contradiction.
  intros [<- | H]; [auto | right; apply (IH s c H)].
Qed.

Lemma is_filename_char_alnum c :
  is_filename_char c = true → (if is_alnum c then c else "_"%char) = c.
Proof.
  destruct c as [[] [] [] [] [] [] [] []]; vm_compute; congruence.
Qed.

Lemma replace_unsafe_fixed s :
  (∀ c, In c (String.list_ascii_of_string s) → is_filename_char c = true) →
  replace_unsafe s = s.
Proof.
  induction s as [|a s IH]; simpl; intros H; [reflexivity|].
  rewrite is_filename_char_alnum by (apply H; auto).
  rewrite IH by (intros c Hc; apply H; auto). reflexivity.
Qed.

Lemma substring_from_start_twice n : ∀ s,
  substring_from_start n (substring_from_start n s) = substring_from_start n s.
Proof.
  induction n as [|n IH]; intros [|c s]; simpl; try reflexivity.
  rewrite IH. reflexivity.
Qed.

End filename_facts.

(** X6. The file name made from a dork has the length of the dork cut at
    [maxLength] (nothing for a negative [maxLength]), consists of ASCII
    letters, digits and underscores only, and is left as it is when
    formatted again. *)
Theorem formatDorkForFilename_safe (dork : string) (maxLength : Z) :
  String.length (formatDorkForFilename dork maxLength)
  = Nat.min (Z.to_nat maxLength) (String.length dork)
  ∧ (∀ c, In c (String.list_ascii_of_string (formatDorkForFilename dork maxLength)) →
          is_filename_char c = true)
  ∧ formatDorkForFilename (formatDorkForFilename dork maxLength) maxLength
    = formatDorkForFilename dork maxLength.
Proof.
  unfold formatDorkForFilename.
  assert (Hchars : ∀ c,
    In c (String.list_ascii_of_string
            (substring_from_start (Z.to_nat maxLength) (replace_unsafe dork))) →
    is_filename_char c = true).
  { intros c Hc. eapply replace_unsafe_chars, substring_from_start_chars, Hc. }
  split; [|split].
  - rewrite substring_from_start_length, replace_unsafe_length. reflexivity.
  - exact Hchars.
  - rewrite (replace_unsafe_fixed _ Hchars). apply substring_from_start_twice.
Qed.
(** ** The challenge detector, continued *)

Section substring_facts.

Lemma prefix_inv a : ∀ b, String.prefix a b = true → ∃ c, b = a +:+ c.
Proof.
  induction a as [|x a IH]; intros b; simpl.
  - intros _. exists b. reflexivity.
  - destruct b as [|y b]; [discriminate|]. simpl.
    destruct (Ascii.ascii_dec x y) as [Heq|]; [subst y | discriminate].
    intros [c ->]%IH. exists c. reflexivity.
Qed.

Lemma includes_inv n h :
  includes n h = true → ∃ pre post, h = pre +:+ n +:+ post.
Proof.
  induction h as [|c h IH]; rewrite includes_unfold.
  - destruct (String.prefix n EmptyString) eqn:Hp; [|discriminate].
    intros _. apply prefix_inv in Hp as [post ->]. exists EmptyString, post.
    reflexivity.
  - destruct (String.prefix n (String c h)) eqn:Hp.
    + intros _. apply prefix_inv in Hp as [post ->]. exists EmptyString, post.
      reflexivity.
    + intros (pre & post & ->)%IH. exists (String c pre), post. reflexivity.
Qed.

Lemma append_assoc a b c : (a +:+ b) +:+ c = a +:+ b +:+ c.
Proof.
  induction a as [|x a IH]; [reflexivity|].
  change (String x ((a +:+ b) +:+ c) = String x (a +:+ b +:+ c)).
  f_equal. exact IH.
Qed.

Lemma includes_trans a b c :
  includes a b = true → includes b c = true → includes a c = true.
Proof.
  intros (p1 & q1 & ->)%includes_inv (p2 & q2 & ->)%includes_inv.
  apply includes_skip. rewrite append_assoc. apply includes_skip.
  rewrite append_assoc. apply includes_here.
Qed.

Lemma toLowerCase_app a b :
  toLowerCase (a +:+ b) = toLowerCase a +:+ toLowerCase b.
Proof. induction a as [|x a IH]; simpl; [reflexivity | rewrite IH; reflexivity]. Qed.

Lemma includes_toLowerCase a b :
  includes a b = true → includes (toLowerCase a) (toLowerCase b) = true.
Proof.
  intros (p & q & ->)%includes_inv. rewrite !toLowerCase_app. apply includes_mid.
Qed.

Lemma banner_has_keyword sign :
  includes "captcha" (toLowerCase (attention_banner sign)) = true.
Proof.
  unfold attention_banner. rewrite !toLowerCase_app.
  apply includes_skip. do 8 apply includes_skip.
  apply (includes_trans _ (toLowerCase "ria! Por favor resolva o CAPTCHA ou desafio "));
    [reflexivity | apply includes_here].
Qed.

End substring_facts.

Lemma find_Some_elem {A} (f : A → bool) l x :
  find f l = Some x → x ∈ l ∧ f x = true.
Proof.
  induction l as [|y l IH]; simpl; [discriminate|].
  destruct (f y) eqn:Hy.
  - intros [= <-]. split; [apply list_elem_of_here | exact Hy].
  - intros [Hin Hx]%IH. split; [apply list_elem_of_further, Hin | exact Hx].
Qed.

Lemma find_None_elem {A} (f : A → bool) l :
  find f l = None → ∀ x, x ∈ l → f x = false.
Proof.
  induction l as [|y l IH]; simpl; [intros _ x Hx; inversion Hx|].
  destruct (f y) eqn:Hy; [discriminate|].
  intros Hnone x [-> | Hx]%elem_of_cons; [exact Hy | apply (IH Hnone x Hx)].
Qed.

(** X7. On an open page on which the evaluation completes, the detector
    reports a challenge exactly when the document has a body and either
    the lower-cased text of the body contains one of the keywords, or one
    of the selectors matches an element, or more than four grid images are
    found. *)
Theorem detector_verdict (p : page_state) :
  isClosed p = false →
  evaluate_error p = None →
  (detectCaptchaOrBlock (Some p) = Return true ↔
   ∃ b, body (the_document (win p)) = Some b
        ∧ ((∃ keyword, keyword ∈ blockKeywords
                       ∧ includes keyword (toLowerCase (innerText b)) = true)
           ∨ (∃ selector, selector ∈ captchaSelectors
                          ∧ (0 < querySelectorAll (the_document (win p)) selector)%nat)
           ∨ (4 < querySelectorAll (the_document (win p)) gridSelector)%nat)).
Proof.
  intros Hopen Heval. unfold detectCaptchaOrBlock, evaluate, detect_script.
  rewrite Hopen, Heval.
  destruct (body (the_document (win p))) as [b|]; cbn [detected].
  2: { split; [discriminate | intros (b & Hb & _); discriminate Hb]. }
  destruct (find _ blockKeywords) as [kw|] eqn:Hkw; cbn [detected].
  { apply find_Some_elem in Hkw as [Hin Hinc].
    split; [|reflexivity]. intros _. exists b. split; [reflexivity|]. eauto. }
  pose proof (find_None_elem _ _ Hkw) as Hkw'.
  destruct (find _ captchaSelectors) as [sel|] eqn:Hsel; cbn [detected].
  { apply find_Some_elem in Hsel as [Hin Hq]. unfold querySelector in Hq.
    apply bool_decide_eq_true in Hq.
    split; [|reflexivity]. intros _. exists b. split; [reflexivity|]. eauto. }
  pose proof (find_None_elem _ _ Hsel) as Hsel'.
  case_bool_decide as Hgrid; cbn [detected].
  { split; [|reflexivity]. intros _. exists b. split; [reflexivity|]. auto. }
  split; [discriminate|].
  intros (b' & [= <-] & [(kw & Hin & Hinc) | [(sel & Hin & Hq) | Hg]]).
  - rewrite (Hkw' kw Hin) in Hinc. discriminate Hinc.
  - specialize (Hsel' sel Hin). unfold querySelector in Hsel'.
    apply bool_decide_eq_false in Hsel'. contradiction.
  - contradiction.
Qed.

Lemma banner_is_detected (p : page_state) :
  isClosed p = false → shows_banner p →
  detectCaptchaOrBlock (Some p) = Return true.
Proof.
  intros Hopen (sign & b & Hb & Hinc).
  unfold detectCaptchaOrBlock, evaluate, detect_script. rewrite Hopen.
  destruct (evaluate_error p); [reflexivity|]. rewrite Hb.
  assert (Hkw : includes "captcha" (toLowerCase (innerText b)) = true).
  { eapply includes_trans; [apply banner_has_keyword|].
    apply includes_toLowerCase, Hinc. }
  unfold blockKeywords. cbn [find]. rewrite Hkw. reflexivity.
Qed.

(** X8. The banner of [flashBrowserWindow] contains the keyword [captcha]:
    an open page whose body shows the banner is reported as a challenge,
    whatever else it holds.  So a handoff in which every re-check sees the
    banner never returns [true]. *)
Theorem banner_keeps_the_challenge
    (timeoutMs : Z) (env : handoff_env) (w w0 : world) :
  enters_handoff detectCaptchaOrBlock env w = Some w0 →
  (∀ c, c ∈ script env → shows_banner (page_then c)) →
  fst (waitForCaptchaResolution timeoutMs env w) ≠ Some true
  ∧ ∀ c, c ∈ script env → isClosed (page_then c) = false →
         detectCaptchaOrBlock (Some (page_then c)) = Return true.
Proof.
  intros Henter Hbanner. split.
  - unfold waitForCaptchaResolution.
    rewrite (waitForCaptchaResolution_enters _ _ _ _ _ Henter).
    generalize (clock w0) at 1. intros startTime. revert Hbanner.
    generalize (script env) as s. clear Henter. revert w0.
    intros w0 s. revert w0.
    induction s as [|c s IH]; intros w0 Hbanner; simpl.
    + destruct (_ && _); simpl; discriminate.
    + destruct (clock w0 - startTime <? timeoutMs); simpl; [|discriminate].
      unfold loop_body.
      destruct (skip_requested _); [simpl; discriminate|].
      destruct (isClosed (page_then c)) eqn:Hc; [simpl; discriminate|].
      rewrite (banner_is_detected _ Hc) by apply Hbanner, list_elem_of_here.
      simpl. apply IH. intros c' Hc'. apply Hbanner, list_elem_of_further, Hc'.
  - intros c Hc Hopen. apply banner_is_detected; auto.
Qed.
(** ** The human handoff controller, continued *)

Section handoff_more.

Lemma enters_handoff_world detect env w w0 :
  enters_handoff detect env w = Some w0 →
  rl w0 = rl w ∧ clock w0 = clock w + detect0_takes env + flash_takes env.
Proof.
  unfold enters_handoff.
  destruct (page0 env) as [p|]; [|discriminate].
  destruct (isClosed p); [discriminate|].
  destruct (match detect (Some p) with Return b => b | Throw _ => true end);
    [|discriminate].
  intros [= <-]. split; reflexivity.
Qed.

Lemma submit_line_blank r line : is_blank line = true → submit_line r line = r.
Proof.
  intros Hblank. unfold submit_line, add_history. rewrite Hblank.
  destruct (terminal r); [|reflexivity].
  repeat case_bool_decide; reflexivity.
Qed.

Lemma await_loop_true timeoutMs startTime s : ∀ w w',
  await_loop detectCaptchaOrBlock timeoutMs startTime false w s = (Some true, w') →
  ∃ c, c ∈ s ∧ isClosed (page_then c) = false
       ∧ detectCaptchaOrBlock (Some (page_then c)) = Return false.
Proof.
  induction s as [|c s IH]; intros w w'; simpl.
  - destruct (_ <? _); simpl; discriminate.
  - destruct (_ <? _); simpl; [|discriminate].
    unfold loop_body.
    destruct (skip_requested _); [discriminate|].
    destruct (isClosed (page_then c)) eqn:Hc; [discriminate|].
    destruct (module_detector_recheck_returns c Hc) as [b Hb]. rewrite Hb.
    destruct b; simpl.
    + intros (c' & Hin & H)%IH. exists c'. split; [apply list_elem_of_further, Hin | exact H].
    + intros _. exists c. split; [apply list_elem_of_here | auto].
Qed.

Lemma await_loop_false timeoutMs startTime s : ∀ w w',
  await_loop detectCaptchaOrBlock timeoutMs startTime false w s = (Some false, w') →
  skip_requested (rl w') = true
  ∨ (∃ c, c ∈ s ∧ isClosed (page_then c) = true)
  ∨ timeoutMs ≤ clock w' - startTime.
Proof.
  induction s as [|c s IH]; intros w w'; cbn [await_loop].
  - destruct (Z.ltb_spec (clock w - startTime) timeoutMs); cbn [andb negb];
      [discriminate|]. intros [= <-]. auto.
  - destruct (Z.ltb_spec (clock w - startTime) timeoutMs); cbn [andb negb].
    2: { intros [= <-]. auto. }
    unfold loop_body.
    destruct (skip_requested _) eqn:Hs; [intros [= <-]; left; exact Hs|].
    destruct (isClosed (page_then c)) eqn:Hc.
    { intros _. right. left. exists c. split; [apply list_elem_of_here | exact Hc]. }
    destruct (module_detector_recheck_returns c Hc) as [b Hb]. rewrite Hb.
    destruct b; cbn [negb].
    + intros [Hskip | [(c' & Hin & Hc') | Ht]]%IH; auto.
      right. left. exists c'. split; [apply list_elem_of_further, Hin | exact Hc'].
    + rewrite await_loop_resolved. discriminate.
Qed.

Lemma loop_body_retype detect f w c :
  terminal (rl w) = false →
  loop_body detect w (retype f c) = loop_body detect w c
  ∧ terminal (rl (snd (loop_body detect w c))) = false.
Proof.
  intros Hterm. unfold loop_body. cbn [retype answer_after answer_line page_then
    recheck_takes]. rewrite !submit_line_no_terminal by assumption.
  split; [reflexivity|].
  destruct (skip_requested _); [exact Hterm|].
  destruct (isClosed _); [exact Hterm|].
  destruct (detect _) as [[|]|]; exact Hterm.
Qed.

Lemma await_loop_retype detect f timeoutMs startTime s : ∀ resolved w,
  terminal (rl w) = false →
  await_loop detect timeoutMs startTime resolved w (map (retype f) s)
  = await_loop detect timeoutMs startTime resolved w s.
Proof.
  induction s as [|c s IH]; intros resolved w Hterm; [reflexivity|].
  cbn [map await_loop].
  destruct (loop_body_retype detect f w c Hterm) as [-> Hterm'].
  destruct (_ && _); [|reflexivity].
  destruct (loop_body detect w c) as [[b|resolved'] w1]; [reflexivity|].
  apply IH. exact Hterm'.
Qed.

End handoff_more.

(** X9. [waitForCaptchaResolution] returns [true] only when the detector
    has reported an open page as free of challenges: the page of the call
    at the first check, or the page as it was after one of the operator's
    answers. *)
Theorem handoff_true_is_backed_by_a_clear_check
    (timeoutMs : Z) (env : handoff_env) (w w' : world) :
  waitForCaptchaResolution timeoutMs env w = (Some true, w') →
  ∃ p, page0 env = Some p ∧ isClosed p = false
       ∧ (detectCaptchaOrBlock (Some p) = Return false
          ∨ ∃ c, c ∈ script env ∧ isClosed (page_then c) = false
                 ∧ detectCaptchaOrBlock (Some (page_then c)) = Return false).
Proof.
  unfold waitForCaptchaResolution, waitForCaptchaResolution_with.
  destruct (page0 env) as [p|]; [|discriminate].
  destruct (isClosed p) eqn:Hopen; [discriminate|].
  intros H. exists p. split; [reflexivity|]. split; [exact Hopen|].
  destruct (detectCaptchaOrBlock (Some p)) as [[|]|msg] eqn:Hd.
  - right. eapply await_loop_true, H.
  - left. reflexivity.
  - right. eapply await_loop_true, H.
Qed.

(** X10. The skip token stays at the front of the history.  After a
    handoff whose first prompt the operator answered with the skip token
    on a terminal interface, a later handoff on the same interface returns
    [false] as soon as the operator answers its first prompt with ENTER
    alone or with a blank line: the page is not checked again. *)
Theorem skip_token_is_sticky
    (t1 t2 : Z) (env1 env2 : handoff_env) (w w0 wb wb0 : world)
    (c1 c2 : cycle) (rest1 rest2 : list cycle) :
  terminal (rl w) = true →
  (0 < historySize (rl w))%nat →
  enters_handoff detectCaptchaOrBlock env1 w = Some w0 →
  0 < t1 →
  script env1 = c1 :: rest1 →
  toLowerCase (answer_line c1) = "skip" →
  rl wb = rl (snd (waitForCaptchaResolution t1 env1 w)) →
  enters_handoff detectCaptchaOrBlock env2 wb = Some wb0 →
  0 < t2 →
  script env2 = c2 :: rest2 →
  is_blank (answer_line c2) = true →
  fst (waitForCaptchaResolution t1 env1 w) = Some false
  ∧ waitForCaptchaResolution t2 env2 wb
    = (Some false, {| clock := clock wb0 + answer_after c2; rl := rl wb |}).
Proof.
  intros Hterm Hsize Henter1 Ht1 Hscript1 Hskip Hrl Henter2 Ht2 Hscript2 Hblank.
  destruct (enters_handoff_world _ _ _ _ Henter1) as [Hrl0 _].
  destruct (enters_handoff_world _ _ _ _ Henter2) as [Hrlb _].
  assert (Hfirst : waitForCaptchaResolution t1 env1 w
                   = (Some false,
                      {| clock := clock w0 + answer_after c1;
                         rl := submit_line (rl w) (answer_line c1) |})).
  { unfold waitForCaptchaResolution.
    rewrite (waitForCaptchaResolution_enters _ _ _ _ _ Henter1), Hscript1.
    rewrite await_loop_cycle by lia.
    unfold loop_body. cbn [rl clock]. rewrite Hrl0.
    rewrite (skip_requested_after_submit _ _ Hterm Hsize Hskip). reflexivity. }
  rewrite Hfirst in Hrl |- *. cbn [fst snd rl] in Hrl |- *.
  split; [reflexivity|].
  unfold waitForCaptchaResolution.
  rewrite (waitForCaptchaResolution_enters _ _ _ _ _ Henter2), Hscript2.
  rewrite await_loop_cycle by lia.
  unfold loop_body. cbn [rl clock].
  rewrite (submit_line_blank _ _ Hblank), Hrlb, Hrl.
  rewrite (skip_requested_after_submit _ _ Hterm Hsize Hskip). reflexivity.
Qed.

(** X11. Outside terminal mode (input piped to the process) the interface
    records no history, so what the operator types has no effect on the
    handoff: with any other lines typed the controller returns the same
    result in the same world.  In particular the skip token is not seen. *)
Theorem typed_lines_are_ignored_without_terminal
    (f : string → string) (timeoutMs : Z) (env : handoff_env) (w : world) :
  terminal (rl w) = false →
  waitForCaptchaResolution timeoutMs (retype_all f env) w
  = waitForCaptchaResolution timeoutMs env w.
Proof.
  intros Hterm. unfold waitForCaptchaResolution, waitForCaptchaResolution_with.
  cbn [retype_all page0 detect0_takes flash_takes script].
  destruct (page0 env) as [p|]; [|reflexivity].
  destruct (isClosed p); [reflexivity|].
  destruct (match detectCaptchaOrBlock (Some p) with
            | Return b => b | Throw _ => true end); [|reflexivity].
  apply await_loop_retype. exact Hterm.
Qed.

(** X22. [waitForCaptchaResolution] returns [false] only for a cause: the
    page was null or closed at the call, the front of the history is the
    skip token, the page was closed when the operator answered, or the
    time allowed had run out when the loop was left. *)
Theorem handoff_false_has_a_cause
    (timeoutMs : Z) (env : handoff_env) (w w' : world) :
  waitForCaptchaResolution timeoutMs env w = (Some false, w') →
  page0 env = None
  ∨ (∃ p, page0 env = Some p ∧ isClosed p = true)
  ∨ skip_requested (rl w') = true
  ∨ (∃ c, c ∈ script env ∧ isClosed (page_then c) = true)
  ∨ (∃ w0, enters_handoff detectCaptchaOrBlock env w = Some w0
           ∧ timeoutMs ≤ clock w' - clock w0).
Proof.
  unfold waitForCaptchaResolution, waitForCaptchaResolution_with, enters_handoff.
  destruct (page0 env) as [p|]; [|auto].
  destruct (isClosed p) eqn:Hopen; [eauto 6|].
  destruct (match detectCaptchaOrBlock (Some p) with
            | Return b => b | Throw _ => true end); [|discriminate].
  intros [Hskip | [Hclosed | Ht]]%await_loop_false; eauto 8.
Qed.
(** ** The page stability waiter, continued *)

Section stability_more.

Lemma stability_pass_restamp stableTime stamp p now l s :
  stability_pass stableTime
    {| poll_page := restamp_page stamp (poll_page p);
       stats_takes := stats_takes p;
       sleep_takes := sleep_takes p |} now l s
  = stability_pass stableTime p now l s.
Proof.
  unfold stability_pass, evaluate, stats_script, restamp_page.
  cbn [poll_page stats_takes sleep_takes isClosed evaluate_error win
       the_document domSize].
  destruct (isClosed (poll_page p)); [reflexivity|].
  destruct (evaluate_error (poll_page p)); reflexivity.
Qed.

Lemma stability_loop_restamp stamps env stableTime maxWaitTime fuel :
  ∀ startTime k now l s,
  stability_loop (restamp_env stamps env) stableTime maxWaitTime fuel startTime
    k now l s
  = stability_loop env stableTime maxWaitTime fuel startTime k now l s.
Proof.
  induction fuel as [|fuel IH]; intros startTime k now l s; [reflexivity|].
  cbn [stability_loop].
  destruct (now - startTime <? maxWaitTime); [|reflexivity].
  change (polls (restamp_env stamps env) k)
    with {| poll_page := restamp_page (stamps k) (poll_page (polls env k));
            stats_takes := stats_takes (polls env k);
            sleep_takes := sleep_takes (polls env k) |}.
  rewrite stability_pass_restamp.
  destruct (stability_pass _ _ _ _ _); [reflexivity | apply IH].
Qed.

End stability_more.

(** X14. The time stamps kept in the page are never consulted: whatever
    [window.__lastChange] and the clock of the page hold at each poll,
    [waitForPageStability] returns the same result. *)
Theorem page_timestamps_are_ignored
    (stamps : nat → option Z * Z) (env : stability_env)
    (stableTime maxWaitTime now : Z) (fuel : nat) :
  waitForPageStability (restamp_env stamps env) stableTime maxWaitTime fuel now
  = waitForPageStability env stableTime maxWaitTime fuel now.
Proof.
  unfold waitForPageStability. cbn [restamp_env stab_page0 setup_takes].
  destruct (stab_page0 env) as [p|]; [|reflexivity].
  destruct (isClosed p); [reflexivity|].
  destruct (evaluate p _); [|reflexivity].
  apply stability_loop_restamp.
Qed.

(** ** Waiting for a condition *)

Section condition_facts.

Variable env : condition_env.
Variable conditionFn : window → bool.
Variable timeout : Z.

Lemma condition_loop_true fuel : ∀ startTime k now,
  condition_loop env conditionFn timeout fuel startTime k now
    = Some (Return true) →
  ∃ j, isClosed (cond_page (cond_polls env j)) = false
       ∧ evaluate_error (cond_page (cond_polls env j)) = None
       ∧ conditionFn (win (cond_page (cond_polls env j))) = true.
Proof.
  induction fuel as [|fuel IH]; intros startTime k now; cbn [condition_loop];
    [discriminate|].
  destruct (now - startTime <? timeout); [|discriminate].
  destruct (isClosed (cond_page (cond_polls env k))) eqn:Hc; [discriminate|].
  unfold evaluate.
  destruct (evaluate_error (cond_page (cond_polls env k))) eqn:He;
    [discriminate|].
  destruct (conditionFn (win (cond_page (cond_polls env k)))) eqn:Hm.
  - intros _. exists k. auto.
  - apply IH.
Qed.

Lemma condition_loop_throws fuel : ∀ startTime k now msg,
  condition_loop env conditionFn timeout fuel startTime k now
    = Some (Throw msg) →
  ∃ j, isClosed (cond_page (cond_polls env j)) = true.
Proof.
  induction fuel as [|fuel IH]; intros startTime k now msg; cbn [condition_loop];
    [discriminate|].
  destruct (now - startTime <? timeout); [|discriminate].
  destruct (isClosed (cond_page (cond_polls env k))) eqn:Hc; [eauto|].
  destruct (evaluate _ _) as [[|]|]; try discriminate. apply IH.
Qed.

Lemma condition_loop_false fuel : ∀ startTime k now,
  condition_loop env conditionFn timeout fuel startTime k now
    = Some (Return false) →
  (∃ j msg, evaluate_error (cond_page (cond_polls env j)) = Some msg)
  ∨ ∃ n, timeout ≤ condition_clock env k n now - startTime
         ∧ ∀ j, (k ≤ j < k + n)%nat →
                conditionFn (win (cond_page (cond_polls env j))) = false.
Proof.
  induction fuel as [|fuel IH]; intros startTime k now; cbn [condition_loop];
    [discriminate|].
  destruct (Z.ltb_spec (now - startTime) timeout) as [Hlt|Hge].
  2: { intros _. right. exists 0%nat. split; [exact Hge | intros j Hj; lia]. }
  destruct (isClosed (cond_page (cond_polls env k))) eqn:Hc; [discriminate|].
  unfold evaluate.
  destruct (evaluate_error (cond_page (cond_polls env k))) as [msg|] eqn:He;
    [eauto|].
  destruct (conditionFn (win (cond_page (cond_polls env k)))) eqn:Hm;
    [discriminate|].
  intros [Herr | (n & Hn & Hfalse)]%IH; [auto|].
  right. exists (S n). split; [exact Hn|].
  intros j Hj. destruct (decide (j = k)) as [->|Hne]; [exact Hm|].
  apply Hfalse. lia.
Qed.

Lemma condition_loop_returns (checkInterval : Z) fuel : ∀ startTime k now,
  (∀ j, 0 ≤ cond_takes (cond_polls env j)
        ∧ checkInterval ≤ wait_takes (cond_polls env j)) →
  timeout - (now - startTime) ≤ checkInterval * Z.of_nat fuel →
  ∃ c, condition_loop env conditionFn timeout (S fuel) startTime k now = Some c.
Proof.
  induction fuel as [|fuel IH]; intros startTime k now Henv Hfuel.
  - cbn [condition_loop].
    destruct (Z.ltb_spec (now - startTime) timeout) as [Hlt|Hge]; [lia | eauto].
  - change (condition_loop env conditionFn timeout (S (S fuel)) startTime k now)
      with (if now - startTime <? timeout then
              let p := cond_polls env k in
              if isClosed (cond_page p) then
                Some (Throw ("P" +:+ chr 225
                             +:+ "gina fechada durante aguardo de condi"
                             +:+ chr 231 +:+ chr 227 +:+ "o"))
              else
                match evaluate (cond_page p) conditionFn with
                | Return conditionMet =>
                    if conditionMet then Some (Return true)
                    else condition_loop env conditionFn timeout (S fuel)
                           startTime (S k) (now + cond_takes p + wait_takes p)
                | Throw _ => Some (Return false)
                end
            else Some (Return false)).
    destruct (now - startTime <? timeout); [|eauto]. cbv zeta.
    destruct (isClosed _); [eauto|].
    destruct (evaluate _ _) as [[|]|]; [eauto| |eauto].
    destruct (Henv k) as [Hc Hw]. apply IH; [assumption|].
    rewrite Nat2Z.inj_succ, Z.mul_succ_r in Hfuel. lia.
Qed.

End condition_facts.

(** X15. What each outcome of [waitForCondition] tells.  It returns [true]
    only when the condition held on an open page at some pass; it throws
    only when the page was null or closed at the call, or closed at the
    head of some pass; and it returns [false] only after an evaluation was
    rejected, or when the loop was left at least [timeout] after the call
    with the condition false at every pass before. *)
Theorem waitForCondition_outcomes
    (env : condition_env) (conditionFn : window → bool) (timeout now : Z)
    (fuel : nat) (c : completion bool) :
  waitForCondition env conditionFn timeout fuel now = Some c →
  match c with
  | Return true =>
      ∃ j, isClosed (cond_page (cond_polls env j)) = false
           ∧ evaluate_error (cond_page (cond_polls env j)) = None
           ∧ conditionFn (win (cond_page (cond_polls env j))) = true
  | Return false =>
      (∃ j msg, evaluate_error (cond_page (cond_polls env j)) = Some msg)
      ∨ ∃ n, timeout ≤ condition_clock env 0 n now - now
             ∧ ∀ j, (j < n)%nat →
                    conditionFn (win (cond_page (cond_polls env j))) = false
  | Throw _ =>
      cond_page0 env = None
      ∨ (∃ p, cond_page0 env = Some p ∧ isClosed p = true)
      ∨ ∃ j, isClosed (cond_page (cond_polls env j)) = true
  end.
Proof.
  unfold waitForCondition.
  destruct (cond_page0 env) as [p|]; [|intros [= <-]; auto].
  destruct (isClosed p) eqn:Hp; [intros [= <-]; eauto 6|].
  destruct c as [[|]|msg]; intros H.
  - eapply condition_loop_true, H.
  - apply condition_loop_false in H as [Herr | (n & Hn & Hfalse)]; [auto|].
    right. exists n. split; [exact Hn|]. intros j Hj. apply Hfalse. lia.
  - right. right. eapply condition_loop_throws, H.
Qed.

(** X16. [waitForCondition] returns or throws, within a number of passes
    that grows with [timeout / checkInterval], in every environment whose
    timer sleeps at least [checkInterval] and whose evaluations take no
    negative time. *)
Theorem waitForCondition_returns
    (env : condition_env) (conditionFn : window → bool)
    (timeout checkInterval now : Z) (fuel : nat) :
  (∀ j, 0 ≤ cond_takes (cond_polls env j)
        ∧ checkInterval ≤ wait_takes (cond_polls env j)) →
  timeout ≤ checkInterval * Z.of_nat fuel →
  ∃ c, waitForCondition env conditionFn timeout (S fuel) now = Some c.
Proof.
  intros Henv Hfuel. unfold waitForCondition.
  destruct (cond_page0 env) as [p|]; [|eauto].
  destruct (isClosed p); [eauto|].
  apply (condition_loop_returns _ _ _ checkInterval); [assumption | lia].
Qed.
(** ** The checkpoint store and the driver, continued *)



Lemma filter_ext_elem {A} (P Q : A → Prop) `{!∀ x, Decision (P x)}
    `{!∀ x, Decision (Q x)} (l : list A) :
  (∀ x, x ∈ l → (P x ↔ Q x)) → filter P l = filter Q l.
Proof.
  induction l as [|x l IH]; intros Hext; [reflexivity|].
  rewrite !filter_cons.
  rewrite IH by (intros y Hy; apply Hext, list_elem_of_further, Hy).
  pose proof (Hext x (list_elem_of_here _ _)) as Hx.
  destruct (decide (P x)), (decide (Q x)); tauto || reflexivity.
Qed.

(** *** The list of processed dorks *)

Section processed_facts.

Variable dorks : list string.






Lemma processed_after_length n : ∀ i processed,
  (length processed ≤ length (processed_after dorks n i processed))%nat.
Proof.
  induction n as [|n IH]; intros i processed; cbn [processed_after]; [lia|].
  destruct (dorks !! i) as [d|]; [|lia].
  destruct (array_includes processed d); [apply IH|].
  etransitivity; [|apply IH]. rewrite length_app. simpl. lia.
Qed.

Lemma processed_after_filter n : ∀ i processed,
  NoDup (drop i dorks) →
  processed_after dorks n i processed
  = processed ++ filter (.∉ processed) (take n (drop i dorks)).
Proof.
  induction n as [|n IH]; intros i processed Hnd; cbn [processed_after].
  { rewrite take_0, filter_nil, app_nil_r. reflexivity. }
  destruct (dorks !! i) as [d|] eqn:Hd.
  2: { apply lookup_ge_None in Hd. rewrite drop_ge by lia.
       rewrite take_nil, filter_nil, app_nil_r. reflexivity. }
  rewrite (drop_S _ _ _ Hd) in Hnd |- *. apply NoDup_cons in Hnd as [Hd' Hnd].
  rewrite firstn_cons, filter_cons. unfold array_includes.
  case_bool_decide as Hin.
  - rewrite decide_False by tauto. apply IH, Hnd.
  - rewrite decide_True by assumption. rewrite (IH _ _ Hnd), <- app_assoc.
    f_equal. simpl. f_equal. apply filter_ext_elem. intros x Hx.
    rewrite not_elem_of_app, not_elem_of_cons.
    assert (x ≠ d).
    { intros ->. apply Hd'. rewrite <- (take_drop n (drop (S i) dorks)).
      apply elem_of_app. left. exact Hx. }
    pose proof (not_elem_of_nil x). tauto.
Qed.

End processed_facts.

Section scan_more.

Variable CHECKPOINT_FILE : string.
Variable turns : nat → dork_turn.
Variable dorks : list string.

Lemma scan_step_skips i d st :
  d ∈ processedDorks st →
  processedDorks (scan_step CHECKPOINT_FILE turns dorks i d st) = processedDorks st
  ∧ store (scan_step CHECKPOINT_FILE turns dorks i d st) = store st
  ∧ results (scan_step CHECKPOINT_FILE turns dorks i d st) = results st
  ∧ stats (scan_step CHECKPOINT_FILE turns dorks i d st) = stats st
  ∧ reportContent (scan_step CHECKPOINT_FILE turns dorks i d st) = reportContent st.
Proof.
  intros Hin. unfold scan_step, array_includes.
  rewrite bool_decide_eq_true_2 by assumption. auto.
Qed.

Lemma scan_step_processes i d st :
  d ∉ processedDorks st →
  processedDorks (scan_step CHECKPOINT_FILE turns dorks i d st) = processedDorks st ++ [d]
  ∧ store (scan_step CHECKPOINT_FILE turns dorks i d st)
    = saveCheckpoint (store st) (saved_at (turns i)) CHECKPOINT_FILE
        (Z.of_nat i) (Some (reportContent st)) (processedDorks st ++ [d])
  ∧ (∃ r, results (scan_step CHECKPOINT_FILE turns dorks i d st) = results st ++ [r]
          ∧ JSON.get "dork" r = Some (JSON.Str d))
  ∧ dorksProcessed (stats (scan_step CHECKPOINT_FILE turns dorks i d st)) = S (dorksProcessed (stats st))
  ∧ totalDorks (stats (scan_step CHECKPOINT_FILE turns dorks i d st)) = totalDorks (stats st)
  ∧ reportContent (scan_step CHECKPOINT_FILE turns dorks i d st) = reportContent st.
Proof.
  intros Hin. unfold scan_step, array_includes.
  rewrite bool_decide_eq_false_2 by assumption.
  pose proof (processDorkDisplayMode_result (turns i) d i (length dorks)) as Hres.
  destruct (processDorkDisplayMode _ _ _ _) as [result shown]. simpl in Hres.
  subst result. cbn [processedDorks store results stats dorksProcessed totalDorks
    reportContent SAVE_CHECKPOINT].
  repeat split. eexists. split; reflexivity.
Qed.

Lemma scan_loop_processedDorks n : ∀ i st,
  processedDorks (scan_loop CHECKPOINT_FILE turns dorks n i st) = processed_after dorks n i (processedDorks st).
Proof.
  induction n as [|n IH]; intros i st; cbn [scan_loop processed_after];
    [reflexivity|].
  destruct (dorks !! i) as [d|]; [|reflexivity].
  rewrite IH. f_equal. unfold array_includes. case_bool_decide as Hin.
  - apply scan_step_skips, Hin.
  - apply scan_step_processes, Hin.
Qed.

(** The counter, the results and the list of processed dorks grow
    together. *)
Lemma scan_loop_results_dorks n : ∀ i st base xs,
  processedDorks st = base ++ xs →
  Forall2 (λ r d, JSON.get "dork" r = Some (JSON.Str d)) (results st) xs →
  dorksProcessed (stats st) = length xs →
  ∃ xs',
    processedDorks (scan_loop CHECKPOINT_FILE turns dorks n i st) = base ++ xs'
    ∧ Forall2 (λ r d, JSON.get "dork" r = Some (JSON.Str d))
        (results (scan_loop CHECKPOINT_FILE turns dorks n i st)) xs'
    ∧ dorksProcessed (stats (scan_loop CHECKPOINT_FILE turns dorks n i st)) = length xs'
    ∧ totalDorks (stats (scan_loop CHECKPOINT_FILE turns dorks n i st)) = totalDorks (stats st)
    ∧ reportContent (scan_loop CHECKPOINT_FILE turns dorks n i st) = reportContent st.
Proof.
  induction n as [|n IH]; intros i st base xs Hp Hr Hc; cbn [scan_loop].
  { exists xs. auto. }
  destruct (dorks !! i) as [d|]; [|exists xs; auto].
  destruct (decide (d ∈ processedDorks st)) as [Hin|Hin].
  - destruct (scan_step_skips i d st Hin) as (Hp' & _ & Hr' & Hs' & Hrep).
    destruct (IH (S i) (scan_step CHECKPOINT_FILE turns dorks i d st) base xs) as (xs' & H1 & H2 & H3 & H4 & H5).
    + rewrite Hp'. exact Hp.
    + rewrite Hr'. exact Hr.
    + rewrite Hs'. exact Hc.
    + exists xs'. rewrite H1, H4, H5, Hs', Hrep. auto.
  - destruct (scan_step_processes i d st Hin)
      as (Hp' & _ & (r & Hr' & Hd) & Hc' & Ht' & Hrep).
    destruct (IH (S i) (scan_step CHECKPOINT_FILE turns dorks i d st) base (xs ++ [d]))
      as (xs' & H1 & H2 & H3 & H4 & H5).
    + rewrite Hp', Hp, app_assoc. reflexivity.
    + rewrite Hr'. apply Forall2_app; [exact Hr|]. constructor; [exact Hd|constructor].
    + rewrite Hc', Hc, length_app. simpl. lia.
    + exists xs'. rewrite H1, H4, H5, Ht', Hrep. auto.
Qed.

(** *** The checkpoint file during the loop *)


End scan_more.
Lemma generateDorksList_NoDup_drop cfg types D n :
  NoDup (drop n (generateDorksList cfg types D)).
Proof.
  pose proof (array_from_set_NoDup
    (let dorks := fold_left (fun dorks type => dorks ++ dorks_of_type type D) types [] in
     let dorks :=
       if includeVariations (DOMAIN_SETTINGS cfg)
          && bool_decide (0 < length (ALTERNATIVE_DOMAINS cfg))%nat
       then dorks ++ flat_map alt_domain_dorks (ALTERNATIVE_DOMAINS cfg)
       else dorks in
     if limitPaths (DOMAIN_SETTINGS cfg)
        && bool_decide (0 < length (paths (DOMAIN_SETTINGS cfg)))%nat
     then dorks ++ map (path_dork D) (paths (DOMAIN_SETTINGS cfg))
     else dorks)) as Hnd.
  change (NoDup (generateDorksList cfg types D)) in Hnd.
  rewrite <- (take_drop n (generateDorksList cfg types D)) in Hnd.
  apply NoDup_app in Hnd as (_ & _ & Hnd). exact Hnd.
Qed.

(** X17. A run processes exactly what the checkpoint leaves: the dorks from
    index [lastIndex + 1] on that the checkpoint does not list, each once
    and in the order of the generator.  They are appended to the list of
    the checkpoint, the results hold one record for each of them, and
    [dorksProcessed] counts them.  The report content of the checkpoint is
    kept as it is. *)
Theorem run_processes_what_the_checkpoint_leaves
    (cfg : domain_config) (CHECKPOINT_FILE : string) (ending : run_end)
    (turns : nat → dork_turn) (selectedTypes : list Z) (fs : filesystem)
    (ck : resume_point) (st : scan_state) :
  checkpoint_view (loadCheckpoint fs CHECKPOINT_FILE) = Some ck →
  runMultiEngineDorkScan cfg CHECKPOINT_FILE ending turns selectedTypes fs
    = Some st →
  let dorks := generateDorksList cfg selectedTypes (TARGET_DOMAIN cfg) in
  let rest := filter (.∉ resume_processed ck)
                (drop (Z.to_nat (lastIndex ck + 1)) dorks) in
  processedDorks st = resume_processed ck ++ rest
  ∧ Forall2 (λ r d, JSON.get "dork" r = Some (JSON.Str d)) (results st) rest
  ∧ dorksProcessed (stats st) = length rest
  ∧ reportContent st = resume_report ck.
Proof.
  intros Hck Hrun dorks rest. unfold runMultiEngineDorkScan in Hrun.
  rewrite Hck in Hrun. injection Hrun as <-.
  cbn [processedDorks results stats reportContent store].
  fold dorks.
  match goal with
  | |- context [scan_loop ?f ?t ?ds ?n ?i ?st0] =>
      destruct (scan_loop_results_dorks f t ds n i st0 (resume_processed ck) [])
        as (xs & Hp & Hr & Hc & _ & Hrep);
      [ symmetry; apply app_nil_r | constructor | reflexivity | ];
      pose proof (scan_loop_processedDorks f t ds n i st0) as Hpa
  end.
  cbn [processedDorks reportContent] in Hpa, Hrep.
  rewrite processed_after_filter in Hpa by apply generateDorksList_NoDup_drop.
  rewrite take_ge in Hpa by (rewrite length_drop; fold dorks; lia).
  fold dorks in Hpa. fold rest in Hpa.
  assert (xs = rest) as ->.
  { rewrite Hp in Hpa. apply app_inv_head in Hpa. exact Hpa. }
  split; [exact Hp|]. split; [exact Hr|]. split; [exact Hc|]. exact Hrep.
Qed.

(** X18. A run started without a checkpoint file is defined and shows
    every generated dork, each once and in the order of the generator:
    [dorksProcessed] ends equal to [totalDorks]. *)
Theorem first_run_shows_every_dork
    (cfg : domain_config) (CHECKPOINT_FILE : string) (ending : run_end)
    (turns : nat → dork_turn) (selectedTypes : list Z) (fs : filesystem) :
  files fs !! CHECKPOINT_FILE = None →
  let dorks := generateDorksList cfg selectedTypes (TARGET_DOMAIN cfg) in
  ∃ st,
    runMultiEngineDorkScan cfg CHECKPOINT_FILE ending turns selectedTypes fs
      = Some st
    ∧ processedDorks st = dorks
    ∧ Forall2 (λ r d, JSON.get "dork" r = Some (JSON.Str d)) (results st) dorks
    ∧ dorksProcessed (stats st) = length dorks
    ∧ totalDorks (stats st) = length dorks.
Proof.
  intros Hnone dorks. unfold runMultiEngineDorkScan.
  rewrite (loadCheckpoint_absent _ _ Hnone), checkpoint_view_empty.
  cbn [lastIndex resume_processed resume_report].
  change (Z.to_nat (-1 + 1)) with 0%nat. fold dorks.
  eexists. split; [reflexivity|].
  cbn [processedDorks results stats store].
  match goal with
  | |- context [scan_loop ?f ?t ?ds ?n ?i ?st0] =>
      destruct (scan_loop_results_dorks f t ds n i st0 [] [])
        as (xs & Hp & Hr & Hc & Ht & _);
      [ reflexivity | constructor | reflexivity | ];
      pose proof (scan_loop_processedDorks f t ds n i st0) as Hpa
  end.
  cbn [processedDorks stats totalDorks] in Hpa, Ht.
  rewrite processed_after_filter in Hpa by apply generateDorksList_NoDup_drop.
  rewrite drop_0, take_ge in Hpa by lia.
  rewrite (filter_ext_elem _ (λ _, True)) in Hpa
    by (intros x _; pose proof (not_elem_of_nil x); tauto).
  assert (Hall : filter (λ _ : string, True) dorks = dorks).
  { clear. induction dorks as [|x l IH]; [reflexivity|].
    rewrite filter_cons_True, IH by exact I. reflexivity. }
  rewrite Hall in Hpa. cbn [app] in Hpa, Hp.
  rewrite Hp in Hpa. rewrite Hpa in Hp, Hr, Hc.
  split; [exact Hp|]. split; [exact Hr|]. split; [exact Hc|]. exact Ht.
Qed.


(** ** The search URL *)

Lemma upper_hex_of_code_unit (c : ascii) :
  let n := N_of_ascii c in
  is_unreserved (upper_hex (n / 16)) = true
  ∧ is_unreserved (upper_hex (n mod 16)) = true
  ∧ is_unreserved (upper_hex ((192 + n / 64) / 16)) = true
  ∧ is_unreserved (upper_hex ((192 + n / 64) mod 16)) = true
  ∧ is_unreserved (upper_hex ((128 + n mod 64) / 16)) = true
  ∧ is_unreserved (upper_hex ((128 + n mod 64) mod 16)) = true.
Proof.
  destruct c as [[] [] [] [] [] [] [] []]; vm_compute; repeat split.
Qed.

Lemma encodeURIComponent_chars (s : string) :
  ∀ c, In c (String.list_ascii_of_string (encodeURIComponent s)) →
       is_unreserved c = true ∨ c = "%"%char.
Proof.
  induction s as [|x s IH]; intros c; cbn [encodeURIComponent];
    [intros []|].
  destruct (upper_hex_of_code_unit x) as (H1 & H2 & H3 & H4 & H5 & H6).
  cbv zeta in H1, H2, H3, H4, H5, H6.
  destruct (is_unreserved x) eqn:Hx; [|destruct (_ <? _)%N];
    unfold percent; cbn [String.list_ascii_of_string In];
    intuition (subst; auto).
Qed.

(** X20. The record built for a dork holds the dork itself and, as search
    URL, the URL of the engine followed by a query made of unreserved
    characters and percent signs only: whatever the dork contains (blanks,
    quotes, ampersands, number signs), it cannot end the query parameter or
    add another one. *)
Theorem searchUrl_carries_the_escaped_dork
    (dork : string) (index totalDorks : nat) (searchEngine : search_engine)
    (timestamp : string) :
  let dorkInfo :=
    displayOnlyDorkInfo dork index totalDorks searchEngine timestamp in
  JSON.get "dork" dorkInfo = Some (JSON.Str dork)
  ∧ ∃ query,
      JSON.get "searchUrl" dorkInfo = Some (JSON.Str (url searchEngine +:+ query))
      ∧ ∀ c, In c (String.list_ascii_of_string query) →
             is_unreserved c = true ∨ c = "%"%char.
Proof.
  split; [reflexivity|]. exists (encodeURIComponent dork).
  split; [reflexivity | apply encodeURIComponent_chars].
Qed.

(** ** The end of a run *)


Lemma saveCheckpoint_rights fs timestamp path i content processed :
  writable (saveCheckpoint fs timestamp path i content processed) = writable fs
  ∧ removable (saveCheckpoint fs timestamp path i content processed)
    = removable fs.
Proof.
  unfold saveCheckpoint, fs_catch, writeFile.
  destruct (writable fs path); [split; reflexivity|].
  destruct (torn fs path); split; reflexivity.
Qed.

Section run_end_facts.

Variable CHECKPOINT_FILE : string.
Variable dorks : list string.

Lemma scan_loop_rights turns n : ∀ i st,
  writable (store (scan_loop CHECKPOINT_FILE turns dorks n i st))
  = writable (store st)
  ∧ removable (store (scan_loop CHECKPOINT_FILE turns dorks n i st))
    = removable (store st).
Proof.
  induction n as [|n IH]; intros i st; cbn [scan_loop]; [split; reflexivity|].
  destruct (dorks !! i) as [d|]; [|split; reflexivity].
  destruct (IH (S i) (scan_step CHECKPOINT_FILE turns dorks i d st)) as [-> ->].
  destruct (decide (d ∈ processedDorks st)) as [Hin|Hin].
  - destruct (scan_step_skips CHECKPOINT_FILE turns dorks i d st Hin)
      as (_ & -> & _). split; reflexivity.
  - destruct (scan_step_processes CHECKPOINT_FILE turns dorks i d st Hin)
      as (_ & -> & _). apply saveCheckpoint_rights.
Qed.



(** When the reports are written, the checkpoint file is gone. *)
Lemma finish_run_removes (e : run_end) (st : scan_state) :
  writable (store st) (dorksListPath e) = true →
  writable (store st) (dorksTextPath e) = true →
  ensureDir_error e = None →
  writable (store st) (statsPath e) = true →
  removable (store st) CHECKPOINT_FILE = true →
  files (finish_run e CHECKPOINT_FILE st) !! CHECKPOINT_FILE = None.
Proof.
  intros H1 H2 H3 H4 H5.
  unfold finish_run, fs_catch, write_reports, saveExecutionStats, fs_bind,
    writeFile, remove.
  rewrite H1. cbn [with_file writable]. rewrite H2. cbn [with_file writable].
  rewrite H3. cbn [with_file writable]. rewrite H4.
  cbn [with_file writable removable].
  destruct (pathExists _ _) eqn:Hex.
  - rewrite H5. cbn [fst files]. apply lookup_delete_eq.
  - cbn [fst]. unfold pathExists in Hex. apply bool_decide_eq_false in Hex.
    destruct (files _ !! CHECKPOINT_FILE) eqn:Hf; [|reflexivity].
    destruct Hex. eauto.
Qed.


End run_end_facts.

(** X23. When the two lists of dorks and the statistics are written and the
    checkpoint file can be removed, a run ends without a checkpoint file,
    and [loadCheckpoint] then returns the empty checkpoint. *)
Theorem reports_written_then_checkpoint_removed
    (cfg : domain_config) (CHECKPOINT_FILE : string) (ending : run_end)
    (turns : nat → dork_turn) (selectedTypes : list Z) (fs : filesystem)
    (st : scan_state) :
  runMultiEngineDorkScan cfg CHECKPOINT_FILE ending turns selectedTypes fs
    = Some st →
  writable fs (dorksListPath ending) = true →
  writable fs (dorksTextPath ending) = true →
  ensureDir_error ending = None →
  writable fs (statsPath ending) = true →
  removable fs CHECKPOINT_FILE = true →
  files (store st) !! CHECKPOINT_FILE = None
  ∧ loadCheckpoint (store st) CHECKPOINT_FILE = empty_checkpoint.
Proof.
  intros Hrun H1 H2 H3 H4 H5. unfold runMultiEngineDorkScan in Hrun.
  destruct (checkpoint_view _) as [ck|]; [|discriminate].
  injection Hrun as <-. cbn [store].
  assert (Hnone : ∀ st', writable (store st') = writable fs →
                         removable (store st') = removable fs →
                         files (finish_run ending CHECKPOINT_FILE st')
                           !! CHECKPOINT_FILE = None).
  { intros st' Hw Hr. apply finish_run_removes; rewrite ?Hw, ?Hr; assumption. }
  match goal with
  | |- context [scan_loop ?f ?t ?ds ?n ?i ?st0] =>
      destruct (scan_loop_rights f ds t n i st0) as [Hw Hr]
  end.
  split; [|apply loadCheckpoint_absent]; apply Hnone; assumption.
Qed.


(** ** More worked instances *)

Section more_instances.

Import samples more_samples.

(** Categories 3, 1 and 2 are selected; 7 is not a category. *)
Lemma promptDorkTypes_selection_instance :
  2 ∈ promptDorkTypes sample_answer ↔
  (∃ num, num ∈ split_comma sample_answer ∧ piece_category num = Some 2)
  ∨ (2 = 1 ∧ ∀ num m, num ∈ split_comma sample_answer →
                      piece_category num ≠ Some m).
Proof.
  apply (promptDorkTypes_selection sample_answer 2). reflexivity.
Defined.

(** The verdict on a page that asks for a CAPTCHA. *)
Lemma detector_verdict_instance :
  detectCaptchaOrBlock (Some captcha_page) = Return true ↔
  ∃ b, body (the_document (win captcha_page)) = Some b
       ∧ ((∃ keyword, keyword ∈ blockKeywords
                      ∧ includes keyword (toLowerCase (innerText b)) = true)
          ∨ (∃ selector, selector ∈ captchaSelectors
                         ∧ (0 < querySelectorAll (the_document (win captcha_page))
                                  selector)%nat)
          ∨ (4 < querySelectorAll (the_document (win captcha_page)) gridSelector)%nat).
Proof.
  apply (detector_verdict captcha_page); reflexivity.
Defined.

(** The challenge is gone but the banner is still there: two answers, and
    the controller is still waiting. *)
Lemma banner_instance :
  fst (waitForCaptchaResolution 60000 banner_env start_world) ≠ Some true
  ∧ ∀ c, c ∈ script banner_env → isClosed (page_then c) = false →
         detectCaptchaOrBlock (Some (page_then c)) = Return true.
Proof.
  apply (banner_keeps_the_challenge 60000 banner_env start_world
           {| clock := 420; rl := terminal_interface |}); [reflexivity|].
  intros c Hc. exists "!".
  repeat (apply elem_of_cons in Hc as [-> | Hc]);
    [ eexists; split; reflexivity .. | inversion Hc ].
Defined.

(** ENTER on a page still blocked, then ENTER on the page of results. *)
Lemma handoff_true_instance :
  ∃ p, page0 solved_env = Some p ∧ isClosed p = false
       ∧ (detectCaptchaOrBlock (Some p) = Return false
          ∨ ∃ c, c ∈ script solved_env ∧ isClosed (page_then c) = false
                 ∧ detectCaptchaOrBlock (Some (page_then c)) = Return false).
Proof.
  apply (handoff_true_is_backed_by_a_clear_check 60000 solved_env start_world
           {| clock := 8560; rl := terminal_interface |}).
  vm_compute. reflexivity.
Defined.

(** A site skipped, then ENTER alone at the next handoff, where the
    challenge has gone: that site is skipped as well. *)
Lemma sticky_skip_instance :
  fst (waitForCaptchaResolution 60000 skip_first_env start_world) = Some false
  ∧ waitForCaptchaResolution 60000 solved_at_once_env later_world
    = (Some false, {| clock := 90420 + 3000; rl := rl later_world |}).
Proof.
  apply (skip_token_is_sticky 60000 60000 skip_first_env solved_at_once_env
           start_world {| clock := 420; rl := terminal_interface |}
           later_world {| clock := 90420; rl := rl later_world |}
           skip_cycle solved_cycle [] []);
    first [reflexivity | simpl; lia | vm_compute; reflexivity].
Defined.

(** The operator answers under the banner after the four seconds allowed
    are over. *)
Lemma handoff_false_instance :
  page0 banner_env = None
  ∨ (∃ p, page0 banner_env = Some p ∧ isClosed p = true)
  ∨ skip_requested (rl {| clock := 4490; rl := terminal_interface |}) = true
  ∨ (∃ c, c ∈ script banner_env ∧ isClosed (page_then c) = true)
  ∨ (∃ w0, enters_handoff detectCaptchaOrBlock banner_env start_world = Some w0
           ∧ 4000 ≤ clock {| clock := 4490; rl := terminal_interface |} - clock w0).
Proof.
  apply (handoff_false_has_a_cause 4000 banner_env start_world
           {| clock := 4490; rl := terminal_interface |}).
  vm_compute. reflexivity.
Defined.

(** With piped input, typing the skip token at every prompt changes
    nothing. *)
Lemma piped_input_instance :
  waitForCaptchaResolution 60000 (retype_all (λ _, "skip") solved_env) piped_world
  = waitForCaptchaResolution 60000 solved_env piped_world.
Proof.
  apply (typed_lines_are_ignored_without_terminal (λ _, "skip") 60000
           solved_env piped_world).
  reflexivity.
Defined.

(** The evaluation is rejected at the third poll. *)
Lemma stability_false_instance :
  (∃ p msg, stab_page0 failing_env = Some p ∧ evaluate_error p = Some msg)
  ∨ ∃ j msg, evaluate_error (poll_page (polls failing_env j)) = Some msg.
Proof.
  apply (waitForPageStability_false_only_on_error failing_env 3000 20000 0 10).
  vm_compute. reflexivity.
Defined.

(** Forty-one passes are enough for twenty seconds. *)
Lemma stability_returns_instance :
  ∃ c, waitForPageStability growing_env 3000 20000 41 0 = Some c.
Proof.
  apply (waitForPageStability_returns growing_env 3000 20000 0 40).
  - simpl. lia.
  - intros j. simpl. lia.
  - lia.
Defined.

(** The condition holds at the third poll. *)
Lemma waitForCondition_instance :
  ∃ j, isClosed (cond_page (cond_polls loading_env j)) = false
       ∧ evaluate_error (cond_page (cond_polls loading_env j)) = None
       ∧ has_results (win (cond_page (cond_polls loading_env j))) = true.
Proof.
  apply (waitForCondition_outcomes loading_env has_results 30000 0 10
           (Return true)).
  vm_compute. reflexivity.
Defined.

(** Sixty-one passes are enough for thirty seconds. *)
Lemma waitForCondition_returns_instance :
  ∃ c, waitForCondition loading_env has_results 30000 61 0 = Some c.
Proof.
  apply (waitForCondition_returns loading_env has_results 30000 500 0 60).
  - intros j. simpl. lia.
  - lia.
Defined.

(** The run resumed after index 2: the dorks of index 3, 4 and 6 to 10 are
    processed. *)
Lemma resumed_rest_instance :
  let rest := filter (.∉ resume_processed resumed_point)
                (drop (Z.to_nat (lastIndex resumed_point + 1))
                   (generateDorksList small_config [4]
                      (TARGET_DOMAIN small_config))) in
  processedDorks resumed_state = resume_processed resumed_point ++ rest
  ∧ Forall2 (λ r d, JSON.get "dork" r = Some (JSON.Str d))
      (results resumed_state) rest
  ∧ dorksProcessed (stats resumed_state) = length rest
  ∧ reportContent resumed_state = resume_report resumed_point.
Proof.
  apply (run_processes_what_the_checkpoint_leaves small_config checkpoint_path
           sample_ending sample_turns [4] resumed_disk resumed_point
           resumed_state);
    vm_compute; reflexivity.
Defined.

(** A first run on an empty disk. *)
Lemma first_run_instance :
  let dorks := generateDorksList small_config [4] (TARGET_DOMAIN small_config) in
  ∃ st,
    runMultiEngineDorkScan small_config checkpoint_path sample_ending
      sample_turns [4] empty_disk = Some st
    ∧ processedDorks st = dorks
    ∧ Forall2 (λ r d, JSON.get "dork" r = Some (JSON.Str d)) (results st) dorks
    ∧ dorksProcessed (stats st) = length dorks
    ∧ totalDorks (stats st) = length dorks.
Proof.
  apply (first_run_shows_every_dork small_config checkpoint_path sample_ending
           sample_turns [4] empty_disk).
  reflexivity.
Defined.


(** A first run whose reports are written ends without checkpoint file. *)
Lemma reports_written_instance :
  files (store full_state) !! checkpoint_path = None
  ∧ loadCheckpoint (store full_state) checkpoint_path = empty_checkpoint.
Proof.
  apply (reports_written_then_checkpoint_removed small_config checkpoint_path
           sample_ending sample_turns [4] empty_disk full_state);
    first [reflexivity | vm_compute; reflexivity].
Defined.


End more_instances.
